(** * deej: serial slider decoder, slider mapping and session registry

    A shallow embedding of the control pipeline of the deej client
    ([pkg/deej/serial.go], [pkg/deej/util/util.go], [pkg/deej/slider_map.go],
    [pkg/deej/config.go], the session map, and the PulseAudio sessions
    with their finder), followed by the properties established about it.

    Conventions of the embedding:
    - Go [float32] and [float64] values are IEEE-754 binary32 and binary64
      numbers, represented by [spec_float] and operated on with the
      correctly rounded operations of [SpecFloat] at the matching precision;
    - Go strings are byte strings ([string]); [strings.ToLower] is modelled
      on the ASCII range;
    - Go [int] is a 64-bit integer, held in [Z] with its range written out
      where the code depends on it ([strconv.Atoi]);
    - a configuration map that is ranged over is given by the list of its
      entries in the order the runtime happens to enumerate them; the
      slider mapping and the session map are finite maps, enumerated in the
      order of [map_to_list], on which no statement below depends;
    - the collaborators of the session map (clock, session finder,
      foreground-window query, audio back end) are oracles gathered in a
      record, and the map counts what it asks of them;
    - a runtime panic (index out of range) is the [None] of an option. *)

From Stdlib Require Import ZArith Bool List Ascii String Lia.
From Stdlib Require Import SpecFloat.
From stdpp Require Import base option list gmap strings.

Local Open Scope Z_scope.

(* ===================================================================== *)
(** * Floating-point numbers *)
(* ===================================================================== *)

(** Structural equality of two floating-point data, as a boolean. *)
Definition sf_same (a b : spec_float) : bool :=
  match a, b with
  | S754_zero s, S754_zero s' => Bool.eqb s s'
  | S754_infinity s, S754_infinity s' => Bool.eqb s s'
  | S754_nan, S754_nan => true
  | S754_finite s m e, S754_finite s' m' e' =>
      Bool.eqb s s' && Pos.eqb m m' && Z.eqb e e'
  | _, _ => false
  end.

(** Rounding conversion of a floating-point datum to another format. *)
Definition SFconvert (prec emax : Z) (x : spec_float) : spec_float :=
  match x with
  | S754_finite s m e => binary_normalize prec emax (cond_Zopp s (Zpos m)) e s
  | _ => x
  end.

(** Go's [float32]. *)
Module F32.
Definition prec : Z := 24.
Definition emax : Z := 128.
Definition t := spec_float.
(** [float32(n)] for an integer [n]. *)
Definition ofZ (n : Z) : t := binary_normalize prec emax n 0 false.
(** [float32(x)] for a [float64] [x]. *)
Definition of64 (x : spec_float) : t := SFconvert prec emax x.
Definition sub : t -> t -> t := SFsub prec emax.
Definition div : t -> t -> t := SFdiv prec emax.
(** The constant [num/den] converted to [float32]: the division of two
    exactly represented integers is correctly rounded, which is how a Go
    constant is converted. *)
Definition lit (num den : Z) : t := div (ofZ num) (ofZ den).
End F32.

(** Go's [float64]. *)
Module F64.
Definition prec : Z := 53.
Definition emax : Z := 1024.
Definition t := spec_float.
Definition ofZ (n : Z) : t := binary_normalize prec emax n 0 false.
(** [float64(x)] for a [float32] [x] (exact). *)
Definition of32 (x : spec_float) : t := SFconvert prec emax x.
Definition mul : t -> t -> t := SFmul prec emax.
Definition div : t -> t -> t := SFdiv prec emax.
Definition lit (num den : Z) : t := div (ofZ num) (ofZ den).
(** [math.Abs]. *)
Definition Abs : t -> t := SFabs.
(** [math.Floor]: the greatest integer value below or at [x]; zeros,
    infinities and NaN are returned unchanged. *)
Definition Floor (x : t) : t :=
  match x with
  | S754_finite s m e =>
      if 0 <=? e then x
      else binary_normalize prec emax
             (Z.shiftr (cond_Zopp s (Zpos m)) (- e)) 0 s
  | _ => x
  end.
End F64.

(** Comparisons of Go: [x >= y], [x < y], [x != y]. *)
Definition fge (x y : spec_float) : bool := SFleb y x.
Definition flt (x y : spec_float) : bool := SFltb x y.
Definition fle (x y : spec_float) : bool := SFleb x y.
Definition fne (x y : spec_float) : bool := negb (SFeqb x y).

(* ===================================================================== *)
(** * Strings: the functions of [strings], [strconv] and [funk] in use *)
(* ===================================================================== *)

Definition byteCR : ascii := ascii_of_nat 13.
Definition byteLF : ascii := ascii_of_nat 10.
Definition CRLF : string := String byteCR (String byteLF EmptyString).

(** [strings.HasPrefix] and [strings.HasSuffix]. *)
Definition HasPrefix (s pre : string) : bool := String.prefix pre s.

Definition HasSuffix (s suf : string) : bool :=
  (String.length suf <=? String.length s)%nat
  && String.eqb (substring (String.length s - String.length suf)
                           (String.length suf) s) suf.

(** [strings.TrimPrefix] and [strings.TrimSuffix]. *)
Definition TrimPrefix (s pre : string) : string :=
  if HasPrefix s pre
  then substring (String.length pre) (String.length s - String.length pre) s
  else s.

Definition TrimSuffix (s suf : string) : string :=
  if HasSuffix s suf
  then substring 0 (String.length s - String.length suf) s
  else s.

(** [strings.Split(s, sep)] for a separator of one byte: the pieces between
    the separators, at least one piece. *)
Fixpoint Split (s : string) (sep : ascii) : list string :=
  match s with
  | EmptyString => [EmptyString]
  | String c rest =>
      if Ascii.eqb c sep then EmptyString :: Split rest sep
      else match Split rest sep with
           | piece :: pieces => String c piece :: pieces
           | [] => [String c EmptyString]
           end
  end.

(** [strings.ToLower], on the ASCII range. *)
Definition lowerByte (c : ascii) : ascii :=
  let n := nat_of_ascii c in
  if ((65 <=? n) && (n <=? 90))%nat then ascii_of_nat (n + 32) else c.

Fixpoint ToLower (s : string) : string :=
  match s with
  | EmptyString => EmptyString
  | String c rest => String (lowerByte c) (ToLower rest)
  end.

(** [funk.ContainsString], [funk.FilterString] and [funk.UniqString]. *)
Definition ContainsString (l : list string) (v : string) : bool :=
  existsb (String.eqb v) l.

Definition FilterString (l : list string) (f : string -> bool) : list string :=
  List.filter f l.

Fixpoint UniqStringFrom (seen l : list string) : list string :=
  match l with
  | [] => []
  | v :: rest =>
      if ContainsString seen v then UniqStringFrom seen rest
      else v :: UniqStringFrom (v :: seen) rest
  end.

Definition UniqString (l : list string) : list string := UniqStringFrom [] l.

(** [strconv.Atoi]: an optional sign, then one or more decimal digits and
    nothing else; a value outside the 64-bit [int] is an error. *)
Definition isDigit (c : ascii) : bool :=
  let n := nat_of_ascii c in ((48 <=? n) && (n <=? 57))%nat.

Definition digitValue (c : ascii) : Z := Z.of_nat (nat_of_ascii c) - 48.

Fixpoint parseDigits (acc : Z) (s : string) : option Z :=
  match s with
  | EmptyString => Some acc
  | String c rest =>
      if isDigit c then parseDigits (acc * 10 + digitValue c) rest else None
  end.

Definition minInt : Z := - 2 ^ 63.
Definition maxInt : Z := 2 ^ 63 - 1.

Definition Atoi (s : string) : option Z :=
  let '(neg, body) :=
    match s with
    | String "-" rest => (true, rest)
    | String "+" rest => (false, rest)
    | _ => (false, s)
    end in
  match body with
  | EmptyString => None
  | _ =>
      match parseDigits 0 body with
      | Some n =>
          let v := if neg : bool then - n else n in
          if (minInt <=? v) && (v <=? maxInt) then Some v else None
      | None => None
      end
  end.

(* ===================================================================== *)
(** * Regular expressions ([regexp.MustCompile] and [MatchString]) *)
(* ===================================================================== *)

(** The fragment of the syntax the two patterns of the program use, matched
    by derivatives. A pattern written [^...$] matches a whole text. *)
Module Regexp.

Inductive t : Type :=
| Void
| Eps
| Class (accepts : ascii -> bool)
| Cat (r1 r2 : t)
| Alt (r1 r2 : t)
| Star (r : t).

Fixpoint nullable (r : t) : bool :=
  match r with
  | Void => false
  | Eps => true
  | Class _ => false
  | Cat r1 r2 => nullable r1 && nullable r2
  | Alt r1 r2 => nullable r1 || nullable r2
  | Star _ => true
  end.

Fixpoint deriv (c : ascii) (r : t) : t :=
  match r with
  | Void => Void
  | Eps => Void
  | Class accepts => if accepts c then Eps else Void
  | Cat r1 r2 =>
      if nullable r1 then Alt (Cat (deriv c r1) r2) (deriv c r2)
      else Cat (deriv c r1) r2
  | Alt r1 r2 => Alt (deriv c r1) (deriv c r2)
  | Star r1 => Cat (deriv c r1) (Star r1)
  end.

(** [MatchString] of an anchored pattern. *)
Fixpoint MatchString (r : t) (s : string) : bool :=
  match s with
  | EmptyString => nullable r
  | String c rest => MatchString (deriv c r) rest
  end.

(** [c], [\d], [.] (any byte but a line feed), [r+], and [r{1,4}]. *)
Definition Chr (c : ascii) : t := Class (Ascii.eqb c).
Definition Digit : t := Class isDigit.
Definition Dot : t := Class (fun c => negb (Ascii.eqb c byteLF)).
Definition Plus (r : t) : t := Cat r (Star r).
Definition Opt (r : t) : t := Alt Eps r.
Definition Rep1to4 (r : t) : t := Cat r (Opt (Cat r (Opt (Cat r (Opt r))))).

(** The words of a pattern, as a relation. *)
Inductive words : t -> string -> Prop :=
| w_eps : words Eps EmptyString
| w_class accepts c : accepts c = true -> words (Class accepts) (String c EmptyString)
| w_cat r1 r2 s1 s2 : words r1 s1 -> words r2 s2 -> words (Cat r1 r2) (s1 ++ s2)
| w_alt_l r1 r2 s : words r1 s -> words (Alt r1 r2) s
| w_alt_r r1 r2 s : words r2 s -> words (Alt r1 r2) s
| w_star_nil r : words (Star r) EmptyString
| w_star_cons r s1 s2 : words r s1 -> words (Star r) s2 -> words (Star r) (s1 ++ s2).

End Regexp.

(* ===================================================================== *)
(** * [util]: normalization and change detection *)
(* ===================================================================== *)

(** [NormalizeScalar]: [float32(math.Floor(float64(v)*100) / 100.0)]. *)
Definition NormalizeScalar (v : F32.t) : F32.t :=
  F32.of64 (F64.div (F64.Floor (F64.mul (F64.of32 v) (F64.ofZ 100))) (F64.ofZ 100)).

Definition noiseReductionHigh : string := "high".
Definition noiseReductionLow : string := "low".

Definition getSignificantDifferenceThreshold (noiseReductionLevel : string) : F64.t :=
  if String.eqb noiseReductionLevel noiseReductionHigh then F64.lit 35 1000
  else if String.eqb noiseReductionLevel noiseReductionLow then F64.lit 15 1000
  else F64.lit 25 1000.

(** [almostEquals]: [math.Abs(float64(a-b)) < 0.000001]. *)
Definition almostEquals (a b : F32.t) : bool :=
  flt (F64.Abs (F64.of32 (F32.sub a b))) (F64.lit 1 1000000).

Definition SignificantlyDifferent (old new : F32.t) (noiseReductionLevel : string) : bool :=
  let threshold := getSignificantDifferenceThreshold noiseReductionLevel in
  if fge (F64.Abs (F64.of32 (F32.sub old new))) threshold then true
  else if (almostEquals new (F32.ofZ 1) && fne old (F32.ofZ 1))
          || (almostEquals new (F32.ofZ 0) && fne old (F32.ofZ 0)) then true
  else false.

(* ===================================================================== *)
(** * [slider_map.go]: the slider mapping *)
(* ===================================================================== *)

(** A configuration map ([map[string][]string]) as it is ranged over: its
    entries, in the order of the iteration. *)
Abbreviation configMapping := (list (string * list string)).

Module SliderMap.

(** [sliderMap.m]: slider index to targets. The lock protects concurrent
    access and has no sequential content. *)
Abbreviation t := (gmap Z (list string)).

Definition newSliderMap : t := ∅.

Definition get (key : Z) (m : t) : option (list string) := m !! key.

Definition set (key : Z) (value : list string) (m : t) : t := <[key := value]> m.

(** [iterate] calls its argument on every entry; the entries are handed
    over as a list. *)
Definition iterate (m : t) : list (Z * list string) := map_to_list m.

Definition isNonEmpty (s : string) : bool := negb (String.eqb s "").

(** One round of the first loop of [sliderMapFromConfigs]. *)
Definition copyUserEntry (resultMap : t) (entry : string * list string) : t :=
  match Atoi entry.1 with
  | None => resultMap
  | Some sliderIdx => set sliderIdx (FilterString entry.2 isNonEmpty) resultMap
  end.

(** One round of the second loop. *)
Definition addInternalEntry (resultMap : t) (entry : string * list string) : t :=
  match Atoi entry.1 with
  | None => resultMap
  | Some sliderIdx =>
      let existingTargets := default [] (get sliderIdx resultMap) in
      let filteredTargets :=
        FilterString entry.2
          (fun s => isNonEmpty s && negb (ContainsString existingTargets s)) in
      set sliderIdx (existingTargets ++ filteredTargets) resultMap
  end.

Definition sliderMapFromConfigs (userMapping internalMapping : configMapping) : t :=
  foldl addInternalEntry (foldl copyUserEntry newSliderMap userMapping) internalMapping.

End SliderMap.

(* ===================================================================== *)
(** * [config.go]: the fields the pipeline consumes *)
(* ===================================================================== *)

Definition masterSessionName : string := "master".
Definition systemSessionName : string := "system".
Definition inputSessionName : string := "mic".

Record CanonicalConfig := {
  SliderMapping : SliderMap.t;
  InvertSliders : bool;
  NoiseReductionLevel : string;
}.

(** [defaultSliderMapping], the package-level variable. *)
Definition defaultSliderMapping : SliderMap.t :=
  SliderMap.set 0 [masterSessionName] SliderMap.newSliderMap.

(** [viper.GetStringMapStringSlice(configKeySliderMapping)]: the value of
    the configuration file when it has the key, else the registered
    default, else an empty map. *)
Definition GetStringMapStringSlice (registeredDefault fileValue : option configMapping)
  : configMapping :=
  match fileValue with
  | Some v => v
  | None => default [] registeredDefault
  end.

(** The defaults [initializeViperInstances] registers for the key
    [slider_mapping]: an empty map for the user configuration, none for the
    internal one. *)
Definition userSliderMappingDefault : option configMapping := Some [].
Definition internalSliderMappingDefault : option configMapping := None.

(** What a configuration file sets of the keys the pipeline reads. *)
Record viperFile := {
  slider_mapping : option configMapping;
  invert_sliders : option bool;
  noise_reduction : option string;
}.

(** A file that sets none of them. *)
Definition silentFile : viperFile :=
  {| slider_mapping := None; invert_sliders := None; noise_reduction := None |}.

(** [populateFromVipers], for the fields of the model: the mapping merged
    from the two files, the inversion flag (registered default [false])
    and the noise reduction level (no registered default: the empty
    string). *)
Definition populateFromVipers (userConfig internalConfig : viperFile) : CanonicalConfig :=
  {| SliderMapping :=
       SliderMap.sliderMapFromConfigs
         (GetStringMapStringSlice userSliderMappingDefault (slider_mapping userConfig))
         (GetStringMapStringSlice internalSliderMappingDefault (slider_mapping internalConfig));
     InvertSliders := default false (invert_sliders userConfig);
     NoiseReductionLevel := default EmptyString (noise_reduction userConfig) |}.

(* ===================================================================== *)
(** * [serial.go]: the line decoder *)
(* ===================================================================== *)

Record SliderMoveEvent := {
  SliderID : Z;
  PercentValue : F32.t;
}.

(** The fields of [SerialIO] the decoder reads and writes. *)
Record SerialIO := {
  lastKnownNumSliders : Z;
  currentSliderPercentValues : list F32.t;
}.

(** A freshly created [SerialIO]. *)
Definition NewSerialIO : SerialIO :=
  {| lastKnownNumSliders := 0; currentSliderPercentValues := [] |}.

(** [^\d{1,4}(\|\d{1,4})*\r\n$] *)
Definition expectedLinePattern : Regexp.t :=
  Regexp.Cat (Regexp.Rep1to4 Regexp.Digit)
    (Regexp.Cat (Regexp.Star (Regexp.Cat (Regexp.Chr "|") (Regexp.Rep1to4 Regexp.Digit)))
       (Regexp.Cat (Regexp.Chr byteCR) (Regexp.Chr byteLF))).

(** [util.NormalizeScalar(float32(rawValue) / 1023.0)], then the inversion. *)
Definition scaleRaw (invert : bool) (rawValue : Z) : F32.t :=
  let scaledValue := NormalizeScalar (F32.div (F32.ofZ rawValue) (F32.ofZ 1023)) in
  if invert then F32.sub (F32.ofZ 1) scaledValue else scaledValue.

(** How the loop over the fields of a line ends: it runs to its end with
    the events gathered, or returns from [processLine] at an invalid field. *)
Inductive fieldsExit :=
| Gathered (events : list SliderMoveEvent)
| InvalidField.

(** The loop [for i, val := range values] from index [i] on. The cache is
    written as soon as a field is found to differ; [None] is the panic of an
    index outside the cache. *)
Fixpoint processFields (cc : CanonicalConfig) (i : nat) (values : list string)
    (cache : list F32.t) (events : list SliderMoveEvent)
  : option (list F32.t * fieldsExit) :=
  match values with
  | [] => Some (cache, Gathered events)
  | val :: rest =>
      match Atoi val with
      | None => Some (cache, InvalidField)
      | Some rawValue =>
          if 1023 <? rawValue then Some (cache, InvalidField)
          else
            let scaledValue := scaleRaw (InvertSliders cc) rawValue in
            match cache !! i with
            | None => None
            | Some old =>
                if SignificantlyDifferent old scaledValue (NoiseReductionLevel cc)
                then processFields cc (S i) rest (<[i := scaledValue]> cache)
                       (events ++ [{| SliderID := Z.of_nat i; PercentValue := scaledValue |}])
                else processFields cc (S i) rest cache events
            end
      end
  end.

(** The sentinel the cache is filled with when the slider count changes. *)
Definition sentinel : F32.t := F32.ofZ (-1).

(** [processLine]: the state of the decoder after the line and the events
    sent, in order, to every consumer. *)
Definition processLine (cc : CanonicalConfig) (sio : SerialIO) (line : string)
  : option (SerialIO * list SliderMoveEvent) :=
  if negb (Regexp.MatchString expectedLinePattern line) then Some (sio, [])
  else
    let values := Split line "|" in
    let numSliders := Z.of_nat (length values) in
    let sio1 :=
      if negb (numSliders =? lastKnownNumSliders sio)
      then {| lastKnownNumSliders := numSliders;
              currentSliderPercentValues := replicate (length values) sentinel |}
      else sio in
    match processFields cc 0 values (currentSliderPercentValues sio1) [] with
    | None => None
    | Some (cache, exit) =>
        let sio2 := {| lastKnownNumSliders := lastKnownNumSliders sio1;
                       currentSliderPercentValues := cache |} in
        match exit with
        | Gathered events => Some (sio2, events)
        | InvalidField => Some (sio2, [])
        end
    end.

(** [bufio.Reader.ReadString] called over and over on a stream that ends:
    the lines it returns, each with its delimiter, until it reports the end
    of the stream (the bytes after the last delimiter come with the error
    and are dropped by [readLoop]). *)
Fixpoint ReadStrings (delim : ascii) (stream : string) : list string :=
  match stream with
  | EmptyString => []
  | String c rest =>
      if Ascii.eqb c delim then String c EmptyString :: ReadStrings delim rest
      else match ReadStrings delim rest with
           | line :: lines => String c line :: lines
           | [] => []
           end
  end.

(** [readLoop], without a stop request, over the lines read. *)
Fixpoint readLines (cc : CanonicalConfig) (sio : SerialIO) (lines : list string)
  : option (SerialIO * list SliderMoveEvent) :=
  match lines with
  | [] => Some (sio, [])
  | line :: rest =>
      match processLine cc sio (TrimSuffix line CRLF) with
      | None => None
      | Some (sio1, sent) =>
          match readLines cc sio1 rest with
          | None => None
          | Some (sio2, sent') => Some (sio2, sent ++ sent')
          end
      end
  end.

Definition readLoop (cc : CanonicalConfig) (sio : SerialIO) (stream : string)
  : option (SerialIO * list SliderMoveEvent) :=
  readLines cc sio (ReadStrings byteLF stream).

(* ===================================================================== *)
(** * The session map *)
(* ===================================================================== *)

(** Instants and durations, in nanoseconds. *)
Definition Time : Type := Z.
Definition Second : Z := 1000000000.

Definition specialTargetTransformPrefix : string := "deej.".
Definition specialTargetCurrentWindow : string := "current".
Definition specialTargetAllUnmapped : string := "unmapped".
Definition minTimeBetweenSessionRefreshes : Z := Second * 5.
Definition maxTimeBetweenSessionRefreshes : Z := Second * 45.

(** [^.+ \(.+\)$] *)
Definition deviceSessionKeyPattern : Regexp.t :=
  Regexp.Cat (Regexp.Plus Regexp.Dot)
    (Regexp.Cat (Regexp.Chr " ")
       (Regexp.Cat (Regexp.Chr "(")
          (Regexp.Cat (Regexp.Plus Regexp.Dot) (Regexp.Chr ")")))).

(** A session as the map sees it: its key and its current volume. The map
    stores sessions by reference; the only copies it keeps besides the ones
    in [m] are in [unmappedSessions], of which it reads nothing but the
    key, so a session is held by value here. *)
Record Session := {
  Key : string;
  GetVolume : F32.t;
}.

(** The collaborators of the map: the clock, the session finder, the
    foreground-window query and the audio back end. [None] is an error. *)
Record World := {
  timeNow : nat -> Time;
  GetAllSessions : nat -> option (list Session);
  GetCurrentWindowProcessNames : option (list string);
  SetVolumeFails : Session -> F32.t -> bool;
}.

Inductive logLevel := Debug | Info | Warn.

Module SessionMap.

(** The fields of [sessionMap], then the record of what the map has asked
    of its collaborators so far: how often it read the clock and queried
    the finder, the sessions it released, the messages it logged. *)
Record t := {
  m : gmap string (list Session);
  lastSessionRefresh : Time;
  unmappedSessions : list Session;
  clockReadings : nat;
  discoveryQueries : nat;
  released : list Session;
  logged : list (logLevel * string);
}.

(** [newSessionMap]: an empty map, refreshed at the zero instant. *)
Definition newSessionMap : t :=
  {| m := ∅; lastSessionRefresh := 0; unmappedSessions := [];
     clockReadings := 0; discoveryQueries := 0; released := []; logged := [] |}.

(** Computations on the map: they thread the state and may panic ([None]),
    in which case the state reached so far is kept. *)
Definition M (A : Type) : Type := t -> t * option A.

#[global] Instance M_ret : MRet M := fun A a s => (s, Some a).

#[global] Instance M_bind : MBind M := fun A B k c s =>
  match c s with
  | (s', Some a) => k a s'
  | (s', None) => (s', None)
  end.

Definition panic {A : Type} : M A := fun s => (s, None).
Definition gets {A : Type} (f : t -> A) : M A := fun s => (s, Some (f s)).
Definition modify (f : t -> t) : M unit := fun s => (f s, Some tt).

Fixpoint forEach {A : Type} (l : list A) (body : A -> M unit) : M unit :=
  match l with
  | [] => mret tt
  | a :: rest => body a;; forEach rest body
  end.

Definition log (level : logLevel) (message : string) : M unit :=
  modify (fun s =>
    {| m := m s; lastSessionRefresh := lastSessionRefresh s;
       unmappedSessions := unmappedSessions s; clockReadings := clockReadings s;
       discoveryQueries := discoveryQueries s; released := released s;
       logged := logged s ++ [(level, message)] |}).

Definition setM (m' : gmap string (list Session)) : M unit :=
  modify (fun s =>
    {| m := m'; lastSessionRefresh := lastSessionRefresh s;
       unmappedSessions := unmappedSessions s; clockReadings := clockReadings s;
       discoveryQueries := discoveryQueries s; released := released s;
       logged := logged s |}).

Definition setUnmappedSessions (l : list Session) : M unit :=
  modify (fun s =>
    {| m := m s; lastSessionRefresh := lastSessionRefresh s;
       unmappedSessions := l; clockReadings := clockReadings s;
       discoveryQueries := discoveryQueries s; released := released s;
       logged := logged s |}).

Definition setLastSessionRefresh (now : Time) : M unit :=
  modify (fun s =>
    {| m := m s; lastSessionRefresh := now;
       unmappedSessions := unmappedSessions s; clockReadings := clockReadings s;
       discoveryQueries := discoveryQueries s; released := released s;
       logged := logged s |}).

Definition Release (sessions : list Session) : M unit :=
  modify (fun s =>
    {| m := m s; lastSessionRefresh := lastSessionRefresh s;
       unmappedSessions := unmappedSessions s; clockReadings := clockReadings s;
       discoveryQueries := discoveryQueries s; released := released s ++ sessions;
       logged := logged s |}).

Section Methods.

Variable W : World.
Variable cc : CanonicalConfig.

(** [time.Now()]: the next reading of the clock. *)
Definition Now : M Time := fun s =>
  ({| m := m s; lastSessionRefresh := lastSessionRefresh s;
      unmappedSessions := unmappedSessions s; clockReadings := S (clockReadings s);
      discoveryQueries := discoveryQueries s; released := released s;
      logged := logged s |},
   Some (timeNow W (clockReadings s))).

(** [m.sessionFinder.GetAllSessions()]: the next answer of the finder. *)
Definition queryFinder : M (option (list Session)) := fun s =>
  ({| m := m s; lastSessionRefresh := lastSessionRefresh s;
      unmappedSessions := unmappedSessions s; clockReadings := clockReadings s;
      discoveryQueries := S (discoveryQueries s); released := released s;
      logged := logged s |},
   Some (GetAllSessions W (discoveryQueries s))).

Definition add (value : Session) : M unit :=
  sessions ← gets m;
  match sessions !! Key value with
  | None => setM (<[Key value := [value]]> sessions)
  | Some existing => setM (<[Key value := existing ++ [value]]> sessions)
  end.

Definition get (key : string) : M (option (list Session)) :=
  gets (fun s => m s !! key).

Definition clear : M unit :=
  log Debug "Releasing and clearing all audio sessions";;
  sessions ← gets m;
  Release (concat (map snd (map_to_list sessions)));;
  setM ∅;;
  log Debug "Session map cleared".

Definition targetHasSpecialTransform (target : string) : bool :=
  HasPrefix target specialTargetTransformPrefix.

Definition getCurrentWindowProcessNames : M (list string) :=
  match GetCurrentWindowProcessNames W with
  | None => log Warn "Failed to get current window process names";; mret []
  | Some currentWindowProcessNames => mret (UniqString (map ToLower currentWindowProcessNames))
  end.

Definition getUnmappedSessionKeys : M (list string) :=
  gets (fun s => map Key (unmappedSessions s)).

Definition applyTargetTransform (specialTargetName : string) : M (list string) :=
  if String.eqb specialTargetName specialTargetCurrentWindow then getCurrentWindowProcessNames
  else if String.eqb specialTargetName specialTargetAllUnmapped then getUnmappedSessionKeys
  else mret [].

Definition resolveTarget (target : string) : M (list string) :=
  let target := ToLower target in
  if targetHasSpecialTransform target
  then applyTargetTransform (TrimPrefix target specialTargetTransformPrefix)
  else mret [target].

(** The callback [sessionMapped] hands to [iterate], on the targets of one
    slider: whether one of them resolves to the key. Indexing the empty
    resolution of a target panics. *)
Fixpoint matchTargets (key : string) (targets : list string) : M bool :=
  match targets with
  | [] => mret false
  | target :: rest =>
      if targetHasSpecialTransform target then matchTargets key rest
      else
        resolved ← resolveTarget target;
        match resolved with
        | [] => panic
        | resolvedTarget :: _ =>
            if String.eqb resolvedTarget key then mret true
            else matchTargets key rest
        end
  end.

(** [iterate] over the sliders, none skipped: [matchFound] is set when the
    callback finds a match. *)
Fixpoint matchSliders (key : string) (sliders : list (Z * list string)) (matchFound : bool)
  : M bool :=
  match sliders with
  | [] => mret matchFound
  | (_, targets) :: rest =>
      found ← matchTargets key targets;
      matchSliders key rest (found || matchFound)
  end.

Definition sessionMapped (session : Session) : M bool :=
  if ContainsString [masterSessionName; systemSessionName; inputSessionName] (Key session)
  then mret true
  else if Regexp.MatchString deviceSessionKeyPattern (Key session) then mret true
  else matchSliders (Key session) (SliderMap.iterate (SliderMapping cc)) false.

(** The body of the loop of [getAndAddSessions]. *)
Definition trackSession (session : Session) : M unit :=
  add session;;
  mapped ← sessionMapped session;
  if mapped : bool then mret tt
  else
    log Debug "Tracking unmapped session";;
    unmapped ← gets unmappedSessions;
    setUnmappedSessions (unmapped ++ [session]).

(** [getAndAddSessions]: [true] when the finder reports an error. *)
Definition getAndAddSessions : M bool :=
  now ← Now;
  setLastSessionRefresh now;;
  setUnmappedSessions [];;
  answer ← queryFinder;
  match answer with
  | None =>
      log Warn "Failed to get sessions from session finder";;
      mret true
  | Some sessions =>
      forEach sessions trackSession;;
      log Info "Got all audio sessions successfully";;
      mret false
  end.

(** The guard of [refreshSessions]; the clock is read only when the refresh
    is not forced. *)
Definition refreshTooSoon (force : bool) : M bool :=
  if force then mret false
  else
    last ← gets lastSessionRefresh;
    now ← Now;
    mret (now <? last + minTimeBetweenSessionRefreshes).

Definition refreshSessions (force : bool) : M unit :=
  tooSoon ← refreshTooSoon force;
  if tooSoon : bool then mret tt
  else
    clear;;
    failed ← getAndAddSessions;
    if failed : bool then log Warn "Failed to re-acquire all audio sessions"
    else log Debug "Re-acquired sessions successfully".

(** [session.SetVolume] on the sessions of one key that are not at the
    value yet: the sessions afterwards, and whether a call failed. *)
Fixpoint adjustSessions (value : F32.t) (sessions : list Session) : M (list Session * bool) :=
  match sessions with
  | [] => mret ([], false)
  | session :: rest =>
      '(session', failed) ←
        (if fne (GetVolume session) value then
           if SetVolumeFails W session value then
             log Warn "Failed to set target session volume";;
             mret (session, true)
           else mret ({| Key := Key session; GetVolume := value |}, false)
         else mret (session, false));
      '(rest', failed') ← adjustSessions value rest;
      mret (session' :: rest', failed || failed')
  end.

(** The loop over the keys a target resolves to; the two flags of
    [handleSliderMoveEvent] are threaded as a pair. *)
Fixpoint adjustResolved (value : F32.t) (resolvedTargets : list string)
    (flags : bool * bool) : M (bool * bool) :=
  match resolvedTargets with
  | [] => mret flags
  | resolvedTarget :: rest =>
      found ← get resolvedTarget;
      match found with
      | None => adjustResolved value rest flags
      | Some sessions =>
          '(sessions', failed) ← adjustSessions value sessions;
          stored ← gets m;
          setM (<[resolvedTarget := sessions']> stored);;
          adjustResolved value rest (true, failed || flags.2)
      end
  end.

Fixpoint adjustTargets (value : F32.t) (targets : list string)
    (flags : bool * bool) : M (bool * bool) :=
  match targets with
  | [] => mret flags
  | target :: rest =>
      resolvedTargets ← resolveTarget target;
      flags' ← adjustResolved value resolvedTargets flags;
      adjustTargets value rest flags'
  end.

Definition handleSliderMoveEvent (event : SliderMoveEvent) : M unit :=
  last ← gets lastSessionRefresh;
  now ← Now;
  (if last + maxTimeBetweenSessionRefreshes <? now then
     log Debug "Stale session map detected on slider move, refreshing";;
     refreshSessions true
   else mret tt);;
  match SliderMap.get (SliderID event) (SliderMapping cc) with
  | None => mret tt
  | Some targets =>
      flags ← adjustTargets (PercentValue event) targets (false, false);
      let '(targetFound, adjustmentFailed) := flags : bool * bool in
      if negb targetFound then refreshSessions false
      else if adjustmentFailed then refreshSessions true
      else mret tt
  end.

(** The consumer of the slider-move events: one after the other. *)
Definition consumeSliderMoves (events : list SliderMoveEvent) : M unit :=
  forEach events handleSliderMoveEvent.

End Methods.

End SessionMap.

(* ===================================================================== *)
(** * The PulseAudio sessions: the volume on the wire *)
(* ===================================================================== *)

(** [maxVolume = 0x10000]. *)
Definition maxVolume : Z := 65536.

(** The product of two [float32]. *)
Definition mulF32 (a b : F32.t) : F32.t := SFmul F32.prec F32.emax a b.

(** [uint32(x)] for a [float32] [x]: the fraction is discarded; [None]
    where the language leaves the result to the implementation, that is
    when the integer is not a [uint32] or [x] is not a number. *)
Definition uint32OfF32 (x : F32.t) : option Z :=
  match x with
  | S754_zero _ => Some 0
  | S754_finite s m e =>
      let magnitude := if 0 <=? e then Zpos m * 2 ^ e else Zpos m / 2 ^ (- e) in
      let n := if s then - magnitude else magnitude in
      if (0 <=? n) && (n <? 2 ^ 32) then Some n else None
  | _ => None
  end.

(** [createChannelVolumes]: the same level for each channel; the
    conversion is made once per channel, so not at all without
    channels. *)
Definition createChannelVolumes (channels : nat) (volume : F32.t) : option (list Z) :=
  mapM (fun _ : unit => uint32OfF32 (mulF32 volume (F32.ofZ maxVolume)))
       (replicate channels tt).

(** [parseChannelVolumes]: the mean of the levels over [maxVolume], the
    sum being made on [uint32]. *)
Definition parseChannelVolumes (volumes : list Z) : F32.t :=
  let total := fold_left (fun total volume => (total + volume) mod 2 ^ 32) volumes 0 in
  F32.div (F32.div (F32.ofZ total) (F32.ofZ (Z.of_nat (length volumes))))
          (F32.ofZ maxVolume).

(* ===================================================================== *)
(** * The sessions of PulseAudio and their finder *)
(* ===================================================================== *)

(** [baseSession], without its logger and description, and its [Key]. *)
Record baseSession := {
  system : bool;
  master : bool;
  name : string;
}.

Definition baseKey (s : baseSession) : string :=
  if system s then systemSessionName else ToLower (name s).

(** [paSession] and [masterSession], without the client they share. *)
Record paSession := {
  paBase : baseSession;
  processName : string;
  sinkInputIndex : Z;
  sinkInputChannels : Z;
}.

Record masterSession := {
  masterBase : baseSession;
  streamIndex : Z;
  streamChannels : Z;
  isOutput : bool;
}.

(** The constructors set the name and leave the flags at their zero
    value. *)
Definition newPASession (sinkInputIndex sinkInputChannels : Z) (processName : string)
  : paSession :=
  {| paBase := {| system := false; master := false; name := processName |};
     processName := processName;
     sinkInputIndex := sinkInputIndex;
     sinkInputChannels := sinkInputChannels |}.

Definition newMasterSession (streamIndex streamChannels : Z) (isOutput : bool)
  : masterSession :=
  let key := if negb isOutput then inputSessionName else masterSessionName in
  {| masterBase := {| system := false; master := false; name := key |};
     streamIndex := streamIndex;
     streamChannels := streamChannels;
     isOutput := isOutput |}.

(** [getVolumeFromClient]: the answer of the server to the request for
    the levels of the stream is [None] when the request fails. Without
    channels no request is made. *)
Definition getVolumeFromClient (reply : option (list Z)) (channels : Z) : F32.t :=
  if 0 <? channels then
    match reply with
    | None => F32.ofZ 0
    | Some volumes => parseChannelVolumes volumes
    end
  else F32.ofZ 0.

(** The levels [SetVolume] sends. *)
Definition volumesToSend (channels : Z) (v : F32.t) : option (list Z) :=
  createChannelVolumes (Z.to_nat channels) v.

(** [getReplyIndex] and [getReplyChannels]: placeholders. *)
Definition getReplyIndex : Z := 0.
Definition getReplyChannels : Z := 0.

(** [getMasterSession]: [None] when the request fails. *)
Definition getMasterSession (requestFails : bool) (isSink : bool) : option masterSession :=
  if requestFails then None
  else Some (newMasterSession getReplyIndex getReplyChannels isSink).

(** An entry of the list of sink inputs: its index, its channels and its
    property [application.process.binary], if it has one. *)
Record sinkInputInfo := {
  SinkInputIndex : Z;
  Channels : Z;
  processBinary : option string;
}.

(** The sessions of the finder. *)
Inductive pulseSession :=
| MasterSession (s : masterSession)
| ProcessSession (s : paSession).

Definition pulseKey (session : pulseSession) : string :=
  match session with
  | MasterSession s => baseKey (masterBase s)
  | ProcessSession s => baseKey (paBase s)
  end.

(** [enumerateAndAddSessions]: the sessions with the ones of the sink
    inputs appended, and whether the request failed. A sink input without
    the name of its process is skipped. *)
Fixpoint addSinkInputs (sessions : list pulseSession) (infos : list sinkInputInfo)
  : list pulseSession :=
  match infos with
  | [] => sessions
  | info :: rest =>
      match processBinary info with
      | None => addSinkInputs sessions rest
      | Some binary =>
          addSinkInputs
            (sessions ++ [ProcessSession
                            (newPASession (SinkInputIndex info) (Channels info) binary)])
            rest
      end
  end.

Definition enumerateAndAddSessions (reply : option (list sinkInputInfo))
    (sessions : list pulseSession) : list pulseSession * bool :=
  match reply with
  | None => (sessions, true)
  | Some infos => (addSinkInputs sessions infos, false)
  end.

(** [GetAllSessions] of the finder, from the answers to its three
    requests: the sessions, and the number of errors met. The caller gets
    an error when that number is not zero. *)
Definition paGetAllSessions (sinkFails sourceFails : bool)
    (inputs : option (list sinkInputInfo)) : list pulseSession * nat :=
  let '(sessions, errors) :=
    match getMasterSession sinkFails true with
    | Some masterSink => ([MasterSession masterSink], 0%nat)
    | None => ([], 1%nat)
    end in
  let '(sessions, errors) :=
    match getMasterSession sourceFails false with
    | Some masterSource => (sessions ++ [MasterSession masterSource], errors)
    | None => (sessions, S errors)
    end in
  let '(sessions, failed) := enumerateAndAddSessions inputs sessions in
  (sessions, if failed : bool then S errors else errors).

(* ===================================================================== *)
(** * Definitions of the statements: reference values and examples *)
(* ===================================================================== *)

Import SessionMap.

(** Change detection with the threshold made a parameter, to decide it at
    each of the three thresholds. *)
Definition differsAt (threshold : F64.t) (old new : F32.t) : bool :=
  if fge (F64.Abs (F64.of32 (F32.sub old new))) threshold then true
  else if (almostEquals new (F32.ofZ 1) && fne old (F32.ofZ 1))
          || (almostEquals new (F32.ofZ 0) && fne old (F32.ofZ 0)) then true
  else false.

(** Significant at each of the three thresholds, and at none of them. *)
Definition differsAtAll (old new : F32.t) : bool :=
  differsAt (F64.lit 35 1000) old new
  && differsAt (F64.lit 15 1000) old new
  && differsAt (F64.lit 25 1000) old new.

Definition differsAtNone (old new : F32.t) : bool :=
  negb (differsAt (F64.lit 35 1000) old new)
  && negb (differsAt (F64.lit 15 1000) old new)
  && negb (differsAt (F64.lit 25 1000) old new).

(** The [float32] closest to [k/100]: what a value cut to two decimals is
    as a [float32]. *)
Definition hundredths (k : Z) : F32.t := F32.lit k 100.

(** [x] lies within [2^-25] of [k/100] (half the spacing of [float32]
    below one), decided on the exact value [m * 2^e] of [x]. *)
Definition nearHundredth (k : Z) (x : F32.t) : bool :=
  match x with
  | S754_zero _ => k =? 0
  | S754_finite false m e =>
      (e <=? 0) && (Z.abs (Zpos m * 100 - k * 2 ^ (- e)) * 2 ^ 25 <=? 100 * 2 ^ (- e))
  | _ => false
  end.

(** The check made on one raw reading: the value the decoder computes is
    [hundredths (raw * 100 / 1023)] and lies between 0 and 1. *)
Definition normalizedAsTruncated (raw : Z) : bool :=
  sf_same (NormalizeScalar (F32.div (F32.ofZ raw) (F32.ofZ 1023)))
          (hundredths (raw * 100 / 1023))
  && fle (F32.ofZ 0) (NormalizeScalar (F32.div (F32.ofZ raw) (F32.ofZ 1023)))
  && fle (NormalizeScalar (F32.div (F32.ofZ raw) (F32.ofZ 1023))) (F32.ofZ 1).

(** The configuration and the stream of the end-to-end example. *)
Definition sampleConfig : CanonicalConfig :=
  {| SliderMapping := {[ 0 := ["master"]; 1 := ["chrome.exe"] ]};
     InvertSliders := false;
     NoiseReductionLevel := "default" |}.

Definition sampleLine : string := "512|1023" +:+ CRLF.

(** The number of line feeds in a string. *)
Fixpoint countLF (s : string) : nat :=
  match s with
  | EmptyString => 0
  | String c rest => (if Ascii.eqb c byteLF then 1 else 0) + countLF rest
  end.

(** The check made on one raw reading: the change from the sentinel to
    its value, inverted or not, is significant at the three thresholds. *)
Definition sentinelDiffers (raw : Z) : bool :=
  differsAtAll sentinel (scaleRaw false raw) && differsAtAll sentinel (scaleRaw true raw).

(** A decoder that has seen three sliders: its state after the line
    [256|256|0] from a fresh start (the last field of that line keeps the
    line ending, so slider 2 stays at the sentinel). *)
Definition threeSliders : SerialIO :=
  {| lastKnownNumSliders := 3;
     currentSliderPercentValues := [hundredths 25; hundredths 25; sentinel] |}.

(** The target lists a configuration map files under keys that parse to
    [idx], in the order of the iteration. *)
Definition targetsOf (idx : Z) (mapping : configMapping) : list (list string) :=
  map snd (filter (fun entry => Atoi entry.1 = Some idx) mapping).

(** What one round of the second loop stores, from the targets present. *)
Definition appendFresh (existingTargets targets : list string) : list string :=
  existingTargets ++
  FilterString targets
    (fun s => SliderMap.isNonEmpty s && negb (ContainsString existingTargets s)).

(** The merge rule in the words of the specification: empty strings are
    filtered from both sources, and the internal entries append only the
    targets absent from the user list. *)
Definition mergedTargets (user internal : option (list string)) : option (list string) :=
  match user, internal with
  | None, None => None
  | Some us, None => Some (filter (fun s => s ≠ EmptyString) us)
  | None, Some ts => Some (filter (fun s => s ≠ EmptyString) ts)
  | Some us, Some ts =>
      Some (filter (fun s => s ≠ EmptyString) us
            ++ filter (fun s => s ≠ EmptyString ∧ s ∉ us) ts)
  end.

(** The refresh is not skipped: it is forced, or the minimum interval has
    elapsed at the reading of the clock it makes. *)
Definition refreshNotSkipped (W : World) (force : bool) (s : SessionMap.t) : Prop :=
  force = false ->
  (timeNow W (clockReadings s) <? lastSessionRefresh s + minTimeBetweenSessionRefreshes) = false.

(** A world whose session finder fails, and a map that holds the master
    session. *)
Definition failingWorld : World :=
  {| timeNow := fun n => Z.of_nat n * Second;
     GetAllSessions := fun _ => None;
     GetCurrentWindowProcessNames := None;
     SetVolumeFails := fun _ _ => false |}.

Definition masterAt80 : Session := {| Key := "master"; GetVolume := hundredths 80 |}.

Definition populatedMap : SessionMap.t :=
  {| m := {[ "master" := [masterAt80] ]};
     lastSessionRefresh := 0; unmappedSessions := [];
     clockReadings := 1; discoveryQueries := 1; released := []; logged := [] |}.

(** A computation keeps the schedule when it neither reads the clock, nor
    queries the finder, nor moves the instant of the last refresh. *)
Definition keepsSchedule {A : Type} (c : M A) : Prop :=
  forall s,
    discoveryQueries (fst (c s)) = discoveryQueries s
    /\ lastSessionRefresh (fst (c s)) = lastSessionRefresh s
    /\ clockReadings (fst (c s)) = clockReadings s.

(** The state after one more reading of the clock. *)
Definition afterClockReading (s : SessionMap.t) : SessionMap.t :=
  {| m := m s; lastSessionRefresh := lastSessionRefresh s;
     unmappedSessions := unmappedSessions s; clockReadings := S (clockReadings s);
     discoveryQueries := discoveryQueries s; released := released s;
     logged := logged s |}.


(** A target is plain when lowering its case does not turn it into a
    special transform: the test for specials, made on the target as
    configured, then agrees with the one [resolveTarget] makes. *)
Definition plainTarget (target : string) : Prop :=
  targetHasSpecialTransform (ToLower target) = targetHasSpecialTransform target.

Definition plainMapping (cc : CanonicalConfig) : Prop :=
  forall idx targets, SliderMapping cc !! idx = Some targets -> Forall plainTarget targets.

(** The target is not special and, lowercased, equals the key. *)
Definition literalMatch (key target : string) : bool :=
  negb (targetHasSpecialTransform target) && String.eqb (ToLower target) key.

(** The key is a reserved name, or has the shape of a device name, or
    equals a non-special target of the mapping, lowercased. *)
Definition coveredKey (cc : CanonicalConfig) (key : string) : bool :=
  ContainsString [masterSessionName; systemSessionName; inputSessionName] key
  || Regexp.MatchString deviceSessionKeyPattern key
  || existsb (fun slider : Z * list string => existsb (literalMatch key) slider.2)
       (SliderMap.iterate (SliderMapping cc)).

Definition uncoveredSessions (cc : CanonicalConfig) (sessions : list Session) : list Session :=
  List.filter (fun session => negb (coveredKey cc (Key session))) sessions.

(** A mapping whose second slider names the unmapped sessions with a
    capital letter, the same mapping in lower case, and a world where the
    finder discovers the master session and one application. *)
Definition capitalizedConfig : CanonicalConfig :=
  {| SliderMapping := {[ 0 := ["master"]; 1 := ["Deej.unmapped"] ]};
     InvertSliders := false;
     NoiseReductionLevel := "default" |}.

Definition lowercaseConfig : CanonicalConfig :=
  {| SliderMapping := {[ 0 := ["master"]; 1 := ["deej.unmapped"] ]};
     InvertSliders := false;
     NoiseReductionLevel := "default" |}.

Definition chromeAt30 : Session := {| Key := "chrome.exe"; GetVolume := hundredths 30 |}.

Definition chromeWorld : World :=
  {| timeNow := fun n => (100 + Z.of_nat n) * Second;
     GetAllSessions := fun _ => Some [masterAt80; chromeAt30];
     GetCurrentWindowProcessNames := None;
     SetVolumeFails := fun _ _ => false |}.

(** A mapping that names the foreground application with a capital
    letter beside the unmapped sessions, and a world where that application
    is [chrome.exe]. *)
Definition foregroundConfig : CanonicalConfig :=
  {| SliderMapping := {[ 0 := ["deej.unmapped"]; 1 := ["Deej.current"] ]};
     InvertSliders := false;
     NoiseReductionLevel := "default" |}.

Definition foregroundWorld : World :=
  {| timeNow := fun n => (100 + Z.of_nat n) * Second;
     GetAllSessions := fun _ => Some [masterAt80; chromeAt30];
     GetCurrentWindowProcessNames := Some ["chrome.exe"];
     SetVolumeFails := fun _ _ => false |}.

(** The registry of the end-to-end example: the master session and two
    sessions keyed [chrome.exe], refreshed at the first reading of the
    clock of [chromeWorld]. *)
Definition exampleRegistry : SessionMap.t :=
  {| m := {[ "master" := [masterAt80]; "chrome.exe" := [chromeAt30; chromeAt30] ]};
     lastSessionRefresh := 100 * Second; unmappedSessions := [];
     clockReadings := 0; discoveryQueries := 1; released := []; logged := [] |}.


(** ** Further reference values: the decoder, the slider moves, the
       volume on the wire and the finder *)

(** The cache of the decoder has the shape [processLine] relies on: it has
    one entry per slider last seen, unless the count was put back to zero
    (as a reload of the configuration does), which forces a reset. *)
Definition cacheInShape (sio : SerialIO) : Prop :=
  lastKnownNumSliders sio = 0
  \/ lastKnownNumSliders sio = Z.of_nat (length (currentSliderPercentValues sio)).

(** A field of the wire format: it reads as an integer from 0 to 1023. *)
Definition isWireField (val : string) : bool :=
  match Atoi val with
  | Some rawValue => (0 <=? rawValue) && (rawValue <=? 1023)
  | None => false
  end.

(** The value the decoder computes for a field. *)
Definition fieldValue (cc : CanonicalConfig) (val : string) : F32.t :=
  scaleRaw (InvertSliders cc) (default 0 (Atoi val)).

(** A field at which the loop of [processLine] returns: it does not read
    as an integer, or it reads as one above 1023. *)
Definition stopsTheLoop (val : string) : bool :=
  match Atoi val with
  | Some rawValue => 1023 <? rawValue
  | None => true
  end.

(** The cache the loop of [processLine] starts from, on a line of
    [numFields] fields: the cache of the decoder, or a cache of sentinels
    when the count of fields is not the count last seen. *)
Definition startCache (sio : SerialIO) (numFields : nat) : list F32.t :=
  if Z.of_nat numFields =? lastKnownNumSliders sio
  then currentSliderPercentValues sio
  else replicate numFields sentinel.

(** The cache entry of a slider once the loop has read its field: the
    value of the field when it differs significantly from the entry, the
    entry as it was otherwise. *)
Definition absorbed (cc : CanonicalConfig) (old : F32.t) (val : string) : F32.t :=
  if SignificantlyDifferent old (fieldValue cc val) (NoiseReductionLevel cc)
  then fieldValue cc val
  else old.

(** The bytes of a line the pattern accepts: digits, bars and the line
    ending. *)
Definition isLineByte (c : ascii) : bool :=
  isDigit c || Ascii.eqb "|" c || Ascii.eqb byteCR c || Ascii.eqb byteLF c.

Fixpoint allBytes (ok : ascii -> bool) (s : string) : bool :=
  match s with
  | EmptyString => true
  | String c rest => ok c && allBytes ok rest
  end.

(** The classes of a pattern accept bytes of a given kind only. *)
Fixpoint classesWithin (ok : ascii -> bool) (r : Regexp.t) : Prop :=
  match r with
  | Regexp.Void | Regexp.Eps => True
  | Regexp.Class accepts => forall c, accepts c = true -> ok c = true
  | Regexp.Cat r1 r2 | Regexp.Alt r1 r2 => classesWithin ok r1 /\ classesWithin ok r2
  | Regexp.Star r1 => classesWithin ok r1
  end.

(** The hundredth a raw reading falls into, and the value the decoder
    computes for a hundredth, inverted or not. *)
Definition hundredthOf (raw : Z) : Z := raw * 100 / 1023.

Definition decoded (invert : bool) (k : Z) : F32.t :=
  if invert then F32.sub (F32.ofZ 1) (hundredths k) else hundredths k.

(** The check made on the value of a hundredth: it is at no distance from
    itself, and it is at an end of the travel or not almost there. *)
Definition stableValue (invert : bool) (k : Z) : bool :=
  let value := decoded invert k in
  sf_same (F32.sub value value) (S754_zero false)
  && negb (almostEquals value (F32.ofZ 1) && fne value (F32.ofZ 1))
  && negb (almostEquals value (F32.ofZ 0) && fne value (F32.ofZ 0)).

(** A zero or a positive number. *)
Definition nonNegative (x : spec_float) : bool :=
  match x with
  | S754_zero _ => true
  | S754_finite false _ _ => true
  | _ => false
  end.

(** The check made on a hundredth and the next one: the values are not
    negative, and the next value is not below, nor above with
    inversion. *)
Definition travelCheck (k : Z) : bool :=
  let plain := decoded false k in
  let inverted := decoded true k in
  nonNegative plain && nonNegative inverted
  && ((k =? 100)
      || (fle plain (decoded false (k + 1)) && fle (decoded true (k + 1)) inverted)).

(** The least move, in hundredths, that a noise level lets through. *)
Definition stepsOf (noiseReductionLevel : string) : Z :=
  if String.eqb noiseReductionLevel noiseReductionHigh then 4
  else if String.eqb noiseReductionLevel noiseReductionLow then 2
  else 3.

(** A move from hundredth [k] to hundredth [k'] is let through: it spans
    the least move, or it reaches an end of the travel from elsewhere. *)
Definition letThrough (steps k k' : Z) : bool :=
  (steps <=? Z.abs (k - k')) || (negb (k =? k') && ((k' =? 0) || (k' =? 100))).

(** The distance [SignificantlyDifferent] compares with its threshold. *)
Definition distance (old new : F32.t) : F64.t := F64.Abs (F64.of32 (F32.sub old new)).

(** What the change detection asks of one value, old or new, computed
    once for the value of a hundredth. *)
Record travelEntry := {
  hundredth : Z;
  value : F32.t;
  nearOne : bool;
  notOne : bool;
  nearZero : bool;
  notZero : bool;
}.

Definition entryOf (invert : bool) (k : Z) : travelEntry :=
  let v := decoded invert k in
  {| hundredth := k; value := v;
     nearOne := almostEquals v (F32.ofZ 1); notOne := fne v (F32.ofZ 1);
     nearZero := almostEquals v (F32.ofZ 0); notZero := fne v (F32.ofZ 0) |}.

(** The check made on a pair of hundredths at the three thresholds, and on
    all the pairs, the thresholds and the entries being computed once. *)
Definition pairCheck (high low other : F64.t) (old new : travelEntry) : bool :=
  let d := distance (value old) (value new) in
  let edge := (nearOne new && notOne old) || (nearZero new && notZero old) in
  Bool.eqb (fge d high || edge) (letThrough 4 (hundredth old) (hundredth new))
  && Bool.eqb (fge d low || edge) (letThrough 2 (hundredth old) (hundredth new))
  && Bool.eqb (fge d other || edge) (letThrough 3 (hundredth old) (hundredth new)).

Definition debounceTable (invert : bool) : bool :=
  let high := F64.lit 35 1000 in
  let low := F64.lit 15 1000 in
  let other := F64.lit 25 1000 in
  let table := map (entryOf invert) (map Z.of_nat (seq 0 101)) in
  forallb (fun old => forallb (pairCheck high low other old) table) table.

(** The [float32] of [k/100] lies below [k/100]. *)
Definition roundedBelow (k : Z) : bool :=
  match hundredths k with
  | S754_finite false m e => Zpos m * 100 <? k * 2 ^ (- e)
  | _ => false
  end.

Definition renormalizeCheck (k : Z) : bool :=
  sf_same (NormalizeScalar (hundredths k))
          (hundredths (if roundedBelow k then k - 1 else k)).

(** What [add] stores, on the map alone; and the sessions of a list that
    have a given key, in the order of the list. *)
Definition register (stored : gmap string (list Session)) (value : Session)
  : gmap string (list Session) :=
  match stored !! Key value with
  | None => <[Key value := [value]]> stored
  | Some existing => <[Key value := existing ++ [value]]> stored
  end.

Definition sessionsKeyed (key : string) (sessions : list Session) : list Session :=
  List.filter (fun session => String.eqb (Key session) key) sessions.

(** A literal target: not a special transform, also once lowercased; it
    resolves to itself, lowercased. *)
Definition literalTarget (target : string) : Prop :=
  targetHasSpecialTransform (ToLower target) = false.

(** What the loop of [handleSliderMoveEvent] does to one session: whether
    its call of [SetVolume] fails, and the session afterwards. *)
Definition adjustmentFails (W : World) (value : F32.t) (session : Session) : bool :=
  fne (GetVolume session) value && SetVolumeFails W session value.

Definition adjusted (W : World) (value : F32.t) (session : Session) : Session :=
  if fne (GetVolume session) value then
    if SetVolumeFails W session value then session
    else {| Key := Key session; GetVolume := value |}
  else session.

(** What it does for one resolved key, to the map and to its two flags
    [targetFound] and [adjustmentFailed]. *)
Definition adjustStep (W : World) (value : F32.t)
    (acc : gmap string (list Session) * (bool * bool)) (key : string)
  : gmap string (list Session) * (bool * bool) :=
  match acc.1 !! key with
  | None => acc
  | Some sessions =>
      (<[key := map (adjusted W value) sessions]> acc.1,
       (true, existsb (adjustmentFails W value) sessions || acc.2.2))
  end.

(** A state with another map and other log entries. *)
Definition withRegistry (stored : gmap string (list Session))
    (logs : list (logLevel * string)) (s : SessionMap.t) : SessionMap.t :=
  {| m := stored; lastSessionRefresh := lastSessionRefresh s;
     unmappedSessions := unmappedSessions s; clockReadings := clockReadings s;
     discoveryQueries := discoveryQueries s; released := released s;
     logged := logs |}.

(** The map is not stale at the next reading of the clock. *)
Definition notStale (W : World) (s : SessionMap.t) : Prop :=
  (lastSessionRefresh s + maxTimeBetweenSessionRefreshes <? timeNow W (clockReadings s)) = false.

(** A computation makes at least [least] and at most [most] discovery
    queries. *)
Definition queriesBetween {A : Type} (least most : nat) (c : M A) : Prop :=
  forall s, (discoveryQueries s + least <= discoveryQueries (fst (c s))
             <= discoveryQueries s + most)%nat.

(** A world whose audio back end refuses every change of volume, and the
    registry of [chromeWorld] once populated under [lowercaseConfig]: the
    application is unmapped. *)
Definition refusingWorld : World :=
  {| timeNow := fun n => (100 + Z.of_nat n) * Second;
     GetAllSessions := fun _ => Some [masterAt80; chromeAt30];
     GetCurrentWindowProcessNames := None;
     SetVolumeFails := fun _ _ => true |}.

Definition unmappedRegistry : SessionMap.t :=
  {| m := {[ "master" := [masterAt80]; "chrome.exe" := [chromeAt30] ]};
     lastSessionRefresh := 100 * Second; unmappedSessions := [chromeAt30];
     clockReadings := 1; discoveryQueries := 1; released := []; logged := [] |}.

(** The value read back after a value was written, on [channels]
    channels. *)
Definition readBack (channels : nat) (volume : F32.t) : option F32.t :=
  parseChannelVolumes <$> createChannelVolumes channels volume.

(** The checks made on the value of a hundredth: the level written for
    it, the value one channel at that level reads back as, and the mean of
    up to eight channels at that level. *)
Definition readCheck (k : Z) : bool :=
  let volume := hundredths k in
  match uint32OfF32 (mulF32 volume (F32.ofZ maxVolume)) with
  | None => false
  | Some level =>
      let back := F32.div (F32.ofZ level) (F32.ofZ maxVolume) in
      fle back volume
      && flt (F32.sub volume back) (F32.lit 1 65536)
      && Bool.eqb (fne back volume) (negb (k mod 25 =? 0))
      && sf_same (NormalizeScalar back) (hundredths (if k mod 25 =? 0 then k else k - 1))
      && forallb (fun channels =>
                    sf_same (F32.div (F32.ofZ ((channels * level) mod 2 ^ 32))
                                     (F32.ofZ channels))
                            (F32.ofZ level))
                 (map Z.of_nat (seq 1 8))
  end.

(** The process sessions of the sink inputs that name their process. *)
Definition processSessions (infos : list sinkInputInfo) : list pulseSession :=
  omap (fun info =>
          (fun binary => ProcessSession
                           (newPASession (SinkInputIndex info) (Channels info) binary))
          <$> processBinary info) infos.

(** A session of the finder as the session map sees it, the levels the
    server reports for a stream being given by [volumesOf]; and the answer
    of the finder as [getAndAddSessions] takes it: the sessions are
    dropped when there is an error. *)
Definition pulseVolume (volumesOf : Z -> option (list Z)) (session : pulseSession) : F32.t :=
  match session with
  | MasterSession s => getVolumeFromClient (volumesOf (streamIndex s)) (streamChannels s)
  | ProcessSession s => getVolumeFromClient (volumesOf (sinkInputIndex s)) (sinkInputChannels s)
  end.

Definition asSession (volumesOf : Z -> option (list Z)) (session : pulseSession) : Session :=
  {| Key := pulseKey session; GetVolume := pulseVolume volumesOf session |}.

Definition pulseAnswer (volumesOf : Z -> option (list Z)) (sinkFails sourceFails : bool)
    (inputs : option (list sinkInputInfo)) : option (list Session) :=
  match paGetAllSessions sinkFails sourceFails inputs with
  | (sessions, O) => Some (map (asSession volumesOf) sessions)
  | (_, S _) => None
  end.

(** A sink input that names its process, one that does not, and a server
    that reports two channels at full level for every stream. *)
Definition firefoxInput : sinkInputInfo :=
  {| SinkInputIndex := 7; Channels := 2; processBinary := Some "Firefox" |}.

Definition namelessInput : sinkInputInfo :=
  {| SinkInputIndex := 8; Channels := 2; processBinary := None |}.

Definition fullLevels : Z -> option (list Z) := fun _ => Some [maxVolume; maxVolume].

(** A world whose finder is the one of PulseAudio, without a source. *)
Definition sourcelessWorld : World :=
  {| timeNow := fun n => (100 + Z.of_nat n) * Second;
     GetAllSessions := fun _ => pulseAnswer fullLevels false true (Some [firefoxInput]);
     GetCurrentWindowProcessNames := None;
     SetVolumeFails := fun _ _ => false |}.

(* ===================================================================== *)
(** * Properties of the normalization and of the change detection *)
(* ===================================================================== *)

(** Data that [sf_same] accepts are equal. *)
Lemma sf_same_eq a b : sf_same a b = true -> a = b.
Proof.
  destruct a as [s|s| |s m e], b as [s'|s'| |s' m' e']; simpl; try discriminate.
  - intros H. apply Bool.eqb_prop in H. now subst.
  - intros H. apply Bool.eqb_prop in H. now subst.
  - reflexivity.
  - intros H. apply andb_prop in H as [H He]. apply andb_prop in H as [Hs Hm].
    apply Bool.eqb_prop in Hs. apply Pos.eqb_eq in Hm. apply Z.eqb_eq in He.
    now subst.
Qed.

(** A boolean property checked on [0], ..., [n-1] holds on that range. *)
Lemma forallb_Z_range (P : Z -> bool) (n : nat) :
  forallb P (map Z.of_nat (seq 0 n)) = true ->
  forall z, 0 <= z < Z.of_nat n -> P z = true.
Proof.
  intros Hall z Hz.
  rewrite forallb_forall in Hall. apply Hall.
  apply in_map_iff. exists (Z.to_nat z). split; [lia|].
  apply in_seq. lia.
Qed.

(** The threshold is one of three constants. *)
Lemma threshold_cases (level : string) :
  getSignificantDifferenceThreshold level = F64.lit 35 1000
  \/ getSignificantDifferenceThreshold level = F64.lit 15 1000
  \/ getSignificantDifferenceThreshold level = F64.lit 25 1000.
Proof.
  unfold getSignificantDifferenceThreshold.
  destruct (String.eqb level noiseReductionHigh); [now left|].
  destruct (String.eqb level noiseReductionLow); [right; now left|right; now right].
Qed.

(** [SignificantlyDifferent] is [differsAt] at the threshold of the level. *)
Lemma SignificantlyDifferent_differsAt old new level :
  SignificantlyDifferent old new level
  = differsAt (getSignificantDifferenceThreshold level) old new.
Proof. reflexivity. Qed.

(** What holds at the three thresholds holds at every noise level. *)
Lemma differsAtAll_level old new level :
  differsAtAll old new = true -> SignificantlyDifferent old new level = true.
Proof.
  unfold differsAtAll. intros H.
  apply andb_prop in H as [H H25]. apply andb_prop in H as [H35 H15].
  rewrite SignificantlyDifferent_differsAt.
  destruct (threshold_cases level) as [-> | [-> | ->]]; assumption.
Qed.

Lemma differsAtNone_level old new level :
  differsAtNone old new = true -> SignificantlyDifferent old new level = false.
Proof.
  unfold differsAtNone. intros H.
  apply andb_prop in H as [H H25]. apply andb_prop in H as [H35 H15].
  rewrite SignificantlyDifferent_differsAt.
  destruct (threshold_cases level) as [-> | [-> | ->]];
    now apply negb_true_iff.
Qed.

(** [hundredths k] is the value [k/100] up to the rounding of [float32]. *)
Lemma hundredths_near (k : Z) :
  0 <= k <= 100 -> nearHundredth k (hundredths k) = true.
Proof.
  intros Hk.
  apply (forallb_Z_range (fun k => nearHundredth k (hundredths k)) 101); [|lia].
  vm_compute. reflexivity.
Qed.

(** The 1024 raw readings, each checked by evaluation. *)
Lemma normalizedAsTruncated_all (raw : Z) :
  0 <= raw <= 1023 -> normalizedAsTruncated raw = true.
Proof.
  intros Hraw.
  apply (forallb_Z_range normalizedAsTruncated 1024); [|lia].
  vm_compute. reflexivity.
Qed.

(** C5. For every raw reading in [0,1023] the normalized value is the
    two-decimal value [floor(raw*100/1023)/100] (as a [float32]), it lies
    between 0.00 and 1.00, and raw 511 gives 0.49 and not 0.50. *)
Theorem normalize_truncates_to_hundredths (raw : Z) :
  0 <= raw <= 1023 ->
  let v := NormalizeScalar (F32.div (F32.ofZ raw) (F32.ofZ 1023)) in
  v = hundredths (raw * 100 / 1023)
  /\ 0 <= raw * 100 / 1023 <= 100
  /\ fle (F32.ofZ 0) v = true /\ fle v (F32.ofZ 1) = true
  /\ (raw = 511 -> v = hundredths 49 /\ v <> hundredths 50).
Proof.
  intros Hraw v.
  pose proof (normalizedAsTruncated_all raw Hraw) as H.
  unfold normalizedAsTruncated in H. fold v in H.
  apply andb_prop in H as [H Hle1]. apply andb_prop in H as [Hsame Hle0].
  apply sf_same_eq in Hsame.
  split; [exact Hsame|]. split.
  { split; [apply Z.div_pos; lia|]. apply Z.div_le_upper_bound; lia. }
  split; [exact Hle0|]. split; [exact Hle1|].
  intros ->. split.
  - rewrite Hsame. reflexivity.
  - rewrite Hsame. vm_compute. discriminate.
Qed.

(** Raw reading 511. *)
Lemma normalize_truncates_to_hundredths_witness :
  0 <= 511 <= 1023
  /\ NormalizeScalar (F32.div (F32.ofZ 511) (F32.ofZ 1023)) = hundredths 49.
Proof.
  split; [lia|].
  destruct (normalize_truncates_to_hundredths 511 ltac:(lia)) as (_ & _ & _ & _ & H).
  exact (proj1 (H eq_refl)).
Defined.

(** C4, as the code has it: at the default level a change from 0.50 to
    0.525 is not significant, because the [float32] next to 0.525 lies
    below it and the difference stays under the threshold; 0.50 to 0.53 is
    significant and 0.50 to 0.524 is not; 0.99 to 1.00 is significant at
    every level; 1.00 to 1.00 is significant at none. *)
Theorem significance_thresholds_float32 :
  SignificantlyDifferent (F32.lit 50 100) (F32.lit 525 1000) "default" = false
  /\ SignificantlyDifferent (F32.lit 50 100) (F32.lit 53 100) "default" = true
  /\ SignificantlyDifferent (F32.lit 50 100) (F32.lit 524 1000) "default" = false
  /\ (forall level, SignificantlyDifferent (F32.lit 99 100) (F32.ofZ 1) level = true)
  /\ (forall level, SignificantlyDifferent (F32.ofZ 1) (F32.ofZ 1) level = false).
Proof.
  split; [vm_compute; reflexivity|].
  split; [vm_compute; reflexivity|].
  split; [vm_compute; reflexivity|].
  split; intros level.
  - apply differsAtAll_level. vm_compute. reflexivity.
  - apply differsAtNone_level. vm_compute. reflexivity.
Qed.

(** C4, the claim as stated fails: 0.50 to 0.525 at the default level is
    reported as not significant. *)
Lemma significance_0525_not_significant :
  ~ (SignificantlyDifferent (F32.lit 50 100) (F32.lit 525 1000) "default" = true).
Proof. vm_compute. discriminate. Qed.

(** The [float32] next to 0.525 is [8808038 * 2^-24], below 0.525, and its
    distance to 0.50 is [419430 * 2^-24], below 0.025. *)
Lemma float32_0525 :
  F32.lit 525 1000 = S754_finite false 8808038 (-24)
  /\ 8808038 * 1000 < 525 * 2 ^ 24
  /\ F32.sub (F32.lit 50 100) (F32.lit 525 1000) = S754_finite true 13421760 (-29)
  /\ 13421760 * 1000 < 25 * 2 ^ 29.
Proof. repeat split; vm_compute; reflexivity. Qed.

(* ===================================================================== *)
(** * Properties of the line decoder *)
(* ===================================================================== *)

(** A change from the sentinel to any value the decoder computes is
    significant, at every noise level and with or without inversion. *)
Lemma sentinel_always_significant (raw : Z) (invert : bool) (level : string) :
  0 <= raw <= 1023 ->
  SignificantlyDifferent sentinel (scaleRaw invert raw) level = true.
Proof.
  intros Hraw.
  assert (H : sentinelDiffers raw = true).
  { apply (forallb_Z_range sentinelDiffers 1024); [|lia]. vm_compute. reflexivity. }
  unfold sentinelDiffers in H. apply andb_prop in H as [Hplain Hinv].
  apply differsAtAll_level. now destruct invert.
Qed.

(** The events the loop over the fields gathers from index [i] on carry
    slider indices from [i] on. *)
Lemma processFields_events_from cc values :
  forall i cache events cache' events',
    processFields cc i values cache events = Some (cache', Gathered events') ->
    forall e, In e events' -> In e events \/ Z.of_nat i <= SliderID e.
Proof.
  induction values as [|val rest IH]; intros i cache events cache' events' Hrun e He.
  - simpl in Hrun. injection Hrun as <- <-. now left.
  - simpl in Hrun.
    destruct (Atoi val) as [rawValue|]; [|discriminate].
    destruct (1023 <? rawValue); [discriminate|].
    destruct (cache !! i) as [old|]; [|discriminate].
    destruct (SignificantlyDifferent old _ _).
    + destruct (IH _ _ _ _ _ Hrun e He) as [Hin | Hge].
      * apply in_app_or in Hin as [Hin | [<- | []]]; [now left|].
        right. simpl. lia.
      * right. lia.
    + destruct (IH _ _ _ _ _ Hrun e He) as [Hin | Hge]; [now left|right; lia].
Qed.

(** Fields whose first repeats the cached value of slider 0: the loop
    gathers no event for slider 0, whatever the other fields. *)
Lemma unchanged_first_field_gathers_nothing cc first rest rawValue old cache cache' events :
  Atoi first = Some rawValue ->
  cache !! 0%nat = Some old ->
  SignificantlyDifferent old (scaleRaw (InvertSliders cc) rawValue) (NoiseReductionLevel cc) = false ->
  processFields cc 0 (first :: rest) cache [] = Some (cache', Gathered events) ->
  forall e, In e events -> SliderID e <> 0.
Proof.
  intros Hfirst Hold Hsame Hrun e He. simpl in Hrun.
  rewrite Hfirst in Hrun.
  destruct (1023 <? rawValue); [discriminate|].
  rewrite Hold, Hsame in Hrun.
  destruct (processFields_events_from _ _ _ _ _ _ _ Hrun e He) as [[] | Hge].
  change (Z.of_nat 1) with 1 in Hge. lia.
Qed.

(** A line whose first field repeats the cached value of slider 0 yields no
    event for slider 0, whatever its other fields. *)
Lemma unchanged_first_field_is_silent cc sio line first rest rawValue old sio' sent :
  Split line "|" = first :: rest ->
  Z.of_nat (length (first :: rest)) = lastKnownNumSliders sio ->
  Atoi first = Some rawValue ->
  currentSliderPercentValues sio !! 0%nat = Some old ->
  SignificantlyDifferent old (scaleRaw (InvertSliders cc) rawValue) (NoiseReductionLevel cc) = false ->
  processLine cc sio line = Some (sio', sent) ->
  forall e, In e sent -> SliderID e <> 0.
Proof.
  intros Hsplit Hcount Hfirst Hold Hsame Hrun e He.
  unfold processLine in Hrun.
  destruct (Regexp.MatchString expectedLinePattern line); simpl in Hrun;
    [|injection Hrun as <- <-; destruct He].
  rewrite Hsplit, Hcount, Z.eqb_refl in Hrun. cbv beta iota zeta in Hrun. simpl negb in Hrun.
  cbv iota in Hrun.
  destruct (processFields cc 0 (first :: rest) (currentSliderPercentValues sio) [])
    as [[cache exit]|] eqn:Hloop; [|discriminate].
  destruct exit as [events|]; injection Hrun as <- <-; [|destruct He].
  exact (unchanged_first_field_gathers_nothing cc first rest rawValue old _ _ _
           Hfirst Hold Hsame Hloop e He).
Qed.

(** ** The matcher against the words of a pattern *)

(** A nullable pattern has the empty word. *)
Lemma nullable_words r : Regexp.nullable r = true -> Regexp.words r EmptyString.
Proof.
  induction r as [| |accepts|r1 IH1 r2 IH2|r1 IH1 r2 IH2|r IH]; simpl; intros H;
    try discriminate.
  - constructor.
  - apply andb_prop in H as [H1 H2].
    change EmptyString with (EmptyString +:+ EmptyString).
    constructor; auto.
  - apply orb_prop in H as [H|H]; [apply Regexp.w_alt_l|apply Regexp.w_alt_r]; auto.
  - constructor.
Qed.

(** A word of the derivative by [c], with [c] put in front, is a word of
    the pattern. *)
Lemma deriv_words c r :
  forall s, Regexp.words (Regexp.deriv c r) s -> Regexp.words r (String c s).
Proof.
  induction r as [| |accepts|r1 IH1 r2 IH2|r1 IH1 r2 IH2|r IH]; simpl; intros s H.
  - inversion H.
  - inversion H.
  - destruct (accepts c) eqn:Hc; inversion H; subst. now constructor.
  - destruct (Regexp.nullable r1) eqn:Hnull.
    + inversion H as [| | |? ? ? Hl|? ? ? Hr| |]; subst.
      * inversion Hl as [| |? ? s1 s2 H1 H2| | | |]; subst.
        change (String c (s1 +:+ s2)) with (String c s1 +:+ s2).
        constructor; auto.
      * change (String c s) with (EmptyString +:+ String c s).
        constructor; [now apply nullable_words|auto].
    + inversion H as [| |? ? s1 s2 H1 H2| | | |]; subst.
      change (String c (s1 +:+ s2)) with (String c s1 +:+ s2).
      constructor; auto.
  - inversion H; subst; [apply Regexp.w_alt_l|apply Regexp.w_alt_r]; auto.
  - inversion H as [| |? ? s1 s2 H1 H2| | | |]; subst.
    change (String c (s1 +:+ s2)) with (String c s1 +:+ s2).
    apply Regexp.w_star_cons; auto.
Qed.

(** What the matcher accepts is a word of the pattern. *)
Lemma MatchString_words s : forall r, Regexp.MatchString r s = true -> Regexp.words r s.
Proof.
  induction s as [|c s IH]; simpl; intros r H.
  - now apply nullable_words.
  - apply deriv_words. now apply IH.
Qed.

(** The equations of the concatenation of strings. *)
Lemma append_cons (c : ascii) (a b : string) : String c a +:+ b = String c (a +:+ b).
Proof. reflexivity. Qed.

Lemma append_assoc (a b c : string) : (a +:+ b) +:+ c = a +:+ (b +:+ c).
Proof.
  induction a as [|x a IH]; [reflexivity|].
  rewrite !append_cons. now rewrite IH.
Qed.

(** A line the pattern accepts ends with the line ending. *)
Lemma expected_line_ends_with_CRLF line :
  Regexp.MatchString expectedLinePattern line = true ->
  exists body, line = body +:+ CRLF.
Proof.
  intros H. apply MatchString_words in H. unfold expectedLinePattern in H.
  inversion H as [| |? ? s1 s234 _ H234| | | |]; subst.
  inversion H234 as [| |? ? s2 s34 _ H34| | | |]; subst.
  inversion H34 as [| |? ? s3 s4 H3 H4| | | |]; subst.
  inversion H3 as [|? c3 Hc3| | | | |]; subst.
  inversion H4 as [|? c4 Hc4| | | | |]; subst.
  apply Ascii.eqb_eq in Hc3, Hc4. subst.
  exists (s1 +:+ s2). now rewrite append_assoc.
Qed.

(** ** The fields of an accepted line *)

(** [strings.Split] returns at least one piece. *)
Lemma Split_nonempty s sep : Split s sep <> [].
Proof.
  induction s as [|c s IH]; simpl; [discriminate|].
  destruct (Ascii.eqb c sep); [discriminate|].
  destruct (Split s sep); [contradiction|discriminate].
Qed.

(** The last field of a line that ends with the line ending carries it. *)
Lemma Split_keeps_line_ending body :
  exists fields lastField,
    Split (body +:+ CRLF) "|" = fields ++ [lastField +:+ CRLF].
Proof.
  induction body as [|c body (fields & lastField & IH)].
  - exists [], EmptyString. reflexivity.
  - rewrite append_cons. simpl. destruct (Ascii.eqb c "|").
    + exists (EmptyString :: fields), lastField. now rewrite IH.
    + rewrite IH. destruct fields as [|field fields]; simpl.
      * exists [], (String c lastField). reflexivity.
      * exists (String c field :: fields), lastField. reflexivity.
Qed.

(** Reading digits stops at the carriage return. *)
Lemma parseDigits_line_ending field :
  forall acc, parseDigits acc (field +:+ CRLF) = None.
Proof.
  induction field as [|c field IH]; intros acc.
  - reflexivity.
  - rewrite append_cons. simpl. destruct (isDigit c); [apply IH|reflexivity].
Qed.

(** [strconv.Atoi] rejects a field that carries the line ending. *)
Lemma Atoi_line_ending field : Atoi (field +:+ CRLF) = None.
Proof.
  unfold Atoi.
  destruct field as [|c field]; [reflexivity|].
  change (String c field +:+ CRLF) with (String c (field +:+ CRLF)).
  assert (Hbody : forall (neg : bool) (body : string),
            match body +:+ CRLF with
            | EmptyString => None
            | String _ _ =>
                match parseDigits 0 (body +:+ CRLF) with
                | Some n =>
                    let v := if neg then - n else n in
                    if (minInt <=? v) && (v <=? maxInt) then Some v else None
                | None => None
                end
            end = None).
  { intros neg body. rewrite parseDigits_line_ending. now destruct (body +:+ CRLF). }
  destruct (Ascii.ascii_dec c "-") as [->|Hminus]; [exact (Hbody true field)|].
  destruct (Ascii.ascii_dec c "+") as [->|Hplus]; [exact (Hbody false field)|].
  assert (Hplain : match String c (field +:+ CRLF) with
                   | String "-" rest => (true, rest)
                   | String "+" rest => (false, rest)
                   | _ => (false, String c (field +:+ CRLF))
                   end = (false, String c field +:+ CRLF)).
  { destruct c as [[] [] [] [] [] [] [] []]; try reflexivity; contradiction. }
  rewrite Hplain. exact (Hbody false (String c field)).
Qed.

(** The loop over fields that end with an unparsable one never runs to
    its end. *)
Lemma processFields_rejects cc fields lastField :
  Atoi lastField = None ->
  forall i cache events cache' exit,
    processFields cc i (fields ++ [lastField]) cache events = Some (cache', exit) ->
    exit = InvalidField.
Proof.
  intros Hbad. induction fields as [|val rest IH]; intros i cache events cache' exit Hrun.
  - simpl in Hrun. rewrite Hbad in Hrun. now injection Hrun as <- <-.
  - simpl in Hrun.
    destruct (Atoi val) as [rawValue|]; [|now injection Hrun as <- <-].
    destruct (1023 <? rawValue); [now injection Hrun as <- <-|].
    destruct (cache !! i) as [old|]; [|discriminate].
    destruct (SignificantlyDifferent old _ _); eapply IH; exact Hrun.
Qed.

(** [processLine] never sends an event. *)
Theorem processLine_never_sends cc sio line sio' sent :
  processLine cc sio line = Some (sio', sent) -> sent = [].
Proof.
  unfold processLine.
  destruct (Regexp.MatchString expectedLinePattern line) eqn:Hmatch; simpl;
    [|now intros [= <- <-]].
  destruct (expected_line_ends_with_CRLF line Hmatch) as [body ->].
  destruct (Split_keeps_line_ending body) as (fields & lastField & ->).
  match goal with
  | |- context [processFields cc 0 ?values ?cache []] =>
      destruct (processFields cc 0 values cache []) as [[cache' exit]|] eqn:Hloop
  end; [|discriminate].
  apply processFields_rejects in Hloop; [|apply Atoi_line_ending].
  subst exit. now intros [= <- <-].
Qed.

(** ** The lines [readLoop] hands to [processLine] *)

(** Line feeds of a concatenation. *)
Lemma countLF_append (a b : string) : countLF (a +:+ b) = (countLF a + countLF b)%nat.
Proof.
  induction a as [|c a IH]; [reflexivity|].
  rewrite append_cons. simpl. rewrite IH. lia.
Qed.

(** A line [ReadString] returns holds one line feed, its last byte. *)
Lemma ReadStrings_one_LF stream :
  forall line, In line (ReadStrings byteLF stream) -> countLF line = 1%nat.
Proof.
  induction stream as [|c stream IH]; simpl; intros line Hin; [destruct Hin|].
  destruct (Ascii.eqb c byteLF) eqn:Hc.
  - destruct Hin as [<-|Hin]; [|now apply IH].
    simpl. now rewrite Hc.
  - destruct (ReadStrings byteLF stream) as [|first lines]; [destruct Hin|].
    destruct Hin as [<-|Hin].
    + simpl. rewrite Hc. apply IH. now left.
    + apply IH. now right.
Qed.

(** Lengths and substrings of a concatenation. *)
Lemma length_append (a b : string) :
  String.length (a +:+ b) = (String.length a + String.length b)%nat.
Proof.
  induction a as [|c a IH]; [reflexivity|].
  rewrite append_cons. simpl. now rewrite IH.
Qed.

Lemma substring_whole (s : string) : substring 0 (String.length s) s = s.
Proof. induction s as [|c s IH]; [reflexivity|]. simpl. now rewrite IH. Qed.

Lemma substring_after (a b : string) :
  substring (String.length a) (String.length b) (a +:+ b) = b.
Proof.
  induction a as [|c a IH]; [apply substring_whole|].
  rewrite append_cons. simpl. exact IH.
Qed.

(** A string is its first [n] bytes followed by the rest. *)
Lemma substring_split (s : string) :
  forall n, (n <= String.length s)%nat ->
    s = substring 0 n s +:+ substring n (String.length s - n) s.
Proof.
  induction s as [|c s IH]; intros n Hn.
  - simpl in Hn. replace n with 0%nat by lia. reflexivity.
  - destruct n as [|n].
    + simpl. now rewrite substring_whole.
    + simpl in Hn. simpl. rewrite append_cons. f_equal. apply IH. lia.
Qed.

(** [strings.HasSuffix] finds the suffix a string was given, and a string
    with a suffix is what precedes it followed by the suffix. *)
Lemma HasSuffix_append (body suf : string) : HasSuffix (body +:+ suf) suf = true.
Proof.
  unfold HasSuffix. rewrite length_append.
  apply andb_true_intro. split; [apply Nat.leb_le; lia|].
  replace (String.length body + String.length suf - String.length suf)%nat
    with (String.length body) by lia.
  rewrite substring_after. apply String.eqb_refl.
Qed.

Lemma HasSuffix_split (s suf : string) :
  HasSuffix s suf = true ->
  s = substring 0 (String.length s - String.length suf) s +:+ suf.
Proof.
  unfold HasSuffix. intros H. apply andb_prop in H as [Hlen Heq].
  apply Nat.leb_le in Hlen. apply String.eqb_eq in Heq.
  rewrite (substring_split s (String.length s - String.length suf)) at 1 by lia.
  f_equal. rewrite <- Heq at 3. f_equal. lia.
Qed.

(** Without its line ending, a line read from the stream is not accepted
    by the pattern. *)
Lemma trimmed_line_not_accepted line :
  countLF line = 1%nat ->
  Regexp.MatchString expectedLinePattern (TrimSuffix line CRLF) = false.
Proof.
  intros Hone.
  destruct (Regexp.MatchString expectedLinePattern (TrimSuffix line CRLF)) eqn:Hmatch;
    [exfalso|reflexivity].
  apply expected_line_ends_with_CRLF in Hmatch as [body Hbody].
  unfold TrimSuffix in Hbody.
  destruct (HasSuffix line CRLF) eqn:Hsuffix.
  - apply HasSuffix_split in Hsuffix. rewrite Hbody in Hsuffix.
    rewrite Hsuffix, !countLF_append in Hone. simpl in Hone. lia.
  - rewrite Hbody, HasSuffix_append in Hsuffix. discriminate.
Qed.

(** Lines of one line feed each are all dropped. *)
Lemma readLines_send_nothing cc sio lines :
  (forall line, In line lines -> countLF line = 1%nat) ->
  readLines cc sio lines = Some (sio, []).
Proof.
  induction lines as [|line rest IH]; intros Hlines; [reflexivity|].
  simpl. unfold processLine.
  rewrite trimmed_line_not_accepted by (apply Hlines; now left). simpl.
  rewrite IH by (intros l Hl; apply Hlines; now right). reflexivity.
Qed.

(** X1. [readLoop] never sends an event, whatever the stream, and leaves
    the decoder as it found it: it hands every line to [processLine]
    without its line ending, and the pattern asks for the line ending. *)
Theorem readLoop_never_sends cc sio stream : readLoop cc sio stream = Some (sio, []).
Proof.
  unfold readLoop. apply readLines_send_nothing, ReadStrings_one_LF.
Qed.

(** C1, the code at the input of the example: [readLoop] hands the line to
    [processLine] without its line ending, the pattern asks for the line
    ending, and the line is dropped: no event is sent and the decoder keeps
    its state, so the consumer has nothing to apply to the sessions. Were
    the line decoded, its values would be 0.50 and 1.00. *)
Theorem sample_line_emits_no_event :
  (forall sio, readLoop sampleConfig sio sampleLine = Some (sio, []))
  /\ ReadStrings byteLF sampleLine = [sampleLine]
  /\ TrimSuffix sampleLine CRLF = "512|1023"
  /\ Regexp.MatchString expectedLinePattern "512|1023" = false
  /\ (forall W s, SessionMap.consumeSliderMoves W sampleConfig [] s = (s, Some tt))
  /\ scaleRaw false 512 = hundredths 50
  /\ scaleRaw false 1023 = F32.ofZ 1.
Proof.
  split; [intros sio; vm_compute; reflexivity|].
  repeat split; vm_compute; reflexivity.
Qed.

(** C8, the code at a line with a new field count: the cache is reset to
    the sentinel and slider 0 is taken from the line, but the last field
    still carries the line ending, does not parse, and [processLine]
    returns before it sends anything; through [readLoop] the line does not
    even reach the reset. No event fires. *)
Theorem count_change_fires_no_event :
  processLine sampleConfig threeSliders sampleLine
  = Some ({| lastKnownNumSliders := 2;
             currentSliderPercentValues := [hundredths 50; sentinel] |}, [])
  /\ Split sampleLine "|" = ["512"; "1023" +:+ CRLF]
  /\ Atoi ("1023" +:+ CRLF) = None
  /\ readLoop sampleConfig threeSliders sampleLine = Some (threeSliders, []).
Proof. repeat split; vm_compute; reflexivity. Qed.

(** C10. [processLine] is not atomic on its cache. A decoder that holds
    sliders 0 and 1 at 0.25 is handed the line [512|2000|7]: slider 0 moves
    to 0.50, a significant change, and the cache takes the new value;
    field 1 exceeds 1023, so the line is rejected and no event is sent.
    From then on a line with the same three-field shape and the same first
    field, that line itself included, yields no event for slider 0; nor
    does the loop over fields that start with that first field, as on the
    valid fields 512, 1000 and 7, where it reports sliders 1 and 2 only. *)
Theorem processLine_not_atomic :
  let line := "512|2000|7" +:+ CRLF in
  let after := {| lastKnownNumSliders := 3;
                  currentSliderPercentValues :=
                    [hundredths 50; hundredths 25; sentinel] |} in
  processLine sampleConfig NewSerialIO ("256|256|0" +:+ CRLF) = Some (threeSliders, [])
  /\ processLine sampleConfig threeSliders line = Some (after, [])
  /\ Split line "|" = ["512"; "2000"; "7" +:+ CRLF]
  /\ Atoi "512" = Some 512 /\ Atoi "2000" = Some 2000 /\ 1023 < 2000
  /\ SignificantlyDifferent (hundredths 25) (scaleRaw false 512) "default" = true
  /\ scaleRaw false 512 = hundredths 50
  /\ processLine sampleConfig after line = Some (after, [])
  /\ (forall line' rest sio' sent,
        Split line' "|" = "512" :: rest -> length rest = 2%nat ->
        processLine sampleConfig after line' = Some (sio', sent) ->
        forall e, In e sent -> SliderID e <> 0)
  /\ (forall rest cache' events,
        processFields sampleConfig 0 ("512" :: rest)
          (currentSliderPercentValues after) [] = Some (cache', Gathered events) ->
        forall e, In e events -> SliderID e <> 0)
  /\ processFields sampleConfig 0 ["512"; "1000"; "7"]
       (currentSliderPercentValues after) []
     = Some ([hundredths 50; hundredths 97; hundredths 0],
             Gathered [ {| SliderID := 1; PercentValue := hundredths 97 |};
                        {| SliderID := 2; PercentValue := hundredths 0 |} ]).
Proof.
  intros line after.
  split; [vm_compute; reflexivity|].
  split; [vm_compute; reflexivity|].
  split; [vm_compute; reflexivity|].
  split; [vm_compute; reflexivity|].
  split; [vm_compute; reflexivity|].
  split; [lia|].
  split; [vm_compute; reflexivity|].
  split; [vm_compute; reflexivity|].
  split; [vm_compute; reflexivity|].
  split; [|split].
  - intros line' rest sio' sent Hsplit Hlen Hrun.
    apply (unchanged_first_field_is_silent sampleConfig after line' "512" rest 512
             (hundredths 50) sio' sent).
    + exact Hsplit.
    + simpl. rewrite Hlen. reflexivity.
    + vm_compute. reflexivity.
    + reflexivity.
    + vm_compute. reflexivity.
    + exact Hrun.
  - intros rest cache' events Hrun.
    apply (unchanged_first_field_gathers_nothing sampleConfig "512" rest 512
             (hundredths 50) (currentSliderPercentValues after) cache' events);
      [| |vm_compute|exact Hrun]; reflexivity.
  - vm_compute. reflexivity.
Qed.

(** The rejected line, handed in a second time, is such a line. *)
Lemma processLine_not_atomic_witness :
  let line := "512|2000|7" +:+ CRLF in
  let after := {| lastKnownNumSliders := 3;
                  currentSliderPercentValues :=
                    [hundredths 50; hundredths 25; sentinel] |} in
  Split line "|" = "512" :: ["2000"; "7" +:+ CRLF]
  /\ length ["2000"; "7" +:+ CRLF] = 2%nat
  /\ processLine sampleConfig after line = Some (after, [])
  /\ (forall e : SliderMoveEvent, In e [] -> SliderID e <> 0).
Proof.
  intros line after.
  assert (Hsplit : Split line "|" = "512" :: ["2000"; "7" +:+ CRLF])
    by (vm_compute; reflexivity).
  assert (Hrun : processLine sampleConfig after line = Some (after, []))
    by (vm_compute; reflexivity).
  split; [exact Hsplit|]. split; [reflexivity|]. split; [exact Hrun|].
  destruct processLine_not_atomic as (_ & _ & _ & _ & _ & _ & _ & _ & _ & Hquiet & _).
  exact (Hquiet line ["2000"; "7" +:+ CRLF] after [] Hsplit eq_refl Hrun).
Defined.

(* ===================================================================== *)
(** * Properties of the slider mapping *)
(* ===================================================================== *)

(** [targetsOf] on one more entry. *)
Lemma targetsOf_cons idx entry mapping :
  targetsOf idx (entry :: mapping)
  = if decide (Atoi entry.1 = Some idx) then entry.2 :: targetsOf idx mapping
    else targetsOf idx mapping.
Proof.
  unfold targetsOf. rewrite filter_cons. now case_decide.
Qed.

(** The filter by a boolean test is the filter by the property it decides. *)
Lemma filter_bool_prop {A : Type} (f : A -> bool) (P : A -> Prop)
    `{!forall x, Decision (P x)} (l : list A) :
  (forall x, f x = true <-> P x) -> List.filter f l = filter P l.
Proof.
  intros Hf. induction l as [|x l IH]; [reflexivity|].
  simpl. rewrite filter_cons. destruct (f x) eqn:Hx.
  - rewrite decide_True by now apply Hf. now rewrite IH.
  - rewrite decide_False; [exact IH|]. intros HP. apply Hf in HP. congruence.
Qed.

(** The tests of the merge, as properties. *)
Lemma isNonEmpty_spec (s : string) : SliderMap.isNonEmpty s = true <-> s ≠ EmptyString.
Proof.
  unfold SliderMap.isNonEmpty. rewrite negb_true_iff.
  split.
  - intros H ->. now rewrite String.eqb_refl in H.
  - intros H. now apply String.eqb_neq.
Qed.

Lemma ContainsString_spec (l : list string) (v : string) :
  ContainsString l v = true <-> v ∈ l.
Proof.
  unfold ContainsString. rewrite existsb_exists. split.
  - intros (x & Hin & Heq). apply String.eqb_eq in Heq. subst.
    now apply list_elem_of_In.
  - intros Hin. exists v. split; [now apply list_elem_of_In|apply String.eqb_refl].
Qed.

(** The first loop: the last entry whose key parses to [idx] decides. *)
Lemma copyUser_lookup (userMapping : configMapping) :
  forall (acc : SliderMap.t) (idx : Z),
    foldl SliderMap.copyUserEntry acc userMapping !! idx
    = match last (targetsOf idx userMapping) with
      | Some targets => Some (FilterString targets SliderMap.isNonEmpty)
      | None => acc !! idx
      end.
Proof.
  induction userMapping as [|entry rest IH]; intros acc idx; [reflexivity|].
  simpl. rewrite IH, targetsOf_cons.
  unfold SliderMap.copyUserEntry, SliderMap.set.
  case_decide as Hparse.
  - rewrite Hparse. rewrite last_cons.
    destruct (last (targetsOf idx rest)); [reflexivity|].
    now rewrite lookup_insert_eq.
  - destruct (last (targetsOf idx rest)); [reflexivity|].
    destruct (Atoi entry.1) as [sliderIdx|]; [|reflexivity].
    rewrite lookup_insert_ne; [reflexivity|congruence].
Qed.

(** The second loop: every entry whose key parses to [idx] appends its
    fresh targets to what the slider holds. *)
Lemma addInternal_lookup (internalMapping : configMapping) :
  forall (acc : SliderMap.t) (idx : Z),
    foldl SliderMap.addInternalEntry acc internalMapping !! idx
    = match targetsOf idx internalMapping with
      | [] => acc !! idx
      | added => Some (foldl appendFresh (default [] (acc !! idx)) added)
      end.
Proof.
  induction internalMapping as [|entry rest IH]; intros acc idx; [reflexivity|].
  simpl. rewrite IH, targetsOf_cons.
  unfold SliderMap.addInternalEntry, SliderMap.set, SliderMap.get.
  case_decide as Hparse.
  - rewrite Hparse. rewrite lookup_insert_eq. simpl.
    fold (appendFresh (default [] (acc !! idx)) entry.2).
    destruct (targetsOf idx rest); reflexivity.
  - destruct (Atoi entry.1) as [sliderIdx|]; [|reflexivity].
    rewrite lookup_insert_ne; [reflexivity|congruence].
Qed.

(** The merged mapping, slider by slider, for any order of iteration. *)
Lemma sliderMapFromConfigs_lookup (userMapping internalMapping : configMapping) (idx : Z) :
  SliderMap.sliderMapFromConfigs userMapping internalMapping !! idx
  = let user := (fun targets => FilterString targets SliderMap.isNonEmpty)
                <$> last (targetsOf idx userMapping) in
    match targetsOf idx internalMapping with
    | [] => user
    | added => Some (foldl appendFresh (default [] user) added)
    end.
Proof.
  unfold SliderMap.sliderMapFromConfigs.
  rewrite addInternal_lookup, copyUser_lookup.
  unfold SliderMap.newSliderMap. rewrite lookup_empty.
  destruct (last (targetsOf idx userMapping)); reflexivity.
Qed.

(** [appendFresh] after the user targets, and on a slider without user
    targets, in the words of [mergedTargets]. *)
Lemma appendFresh_spec (us ts : list string) :
  appendFresh (FilterString us SliderMap.isNonEmpty) ts
  = filter (fun s => s ≠ EmptyString) us
    ++ filter (fun s => s ≠ EmptyString ∧ s ∉ us) ts.
Proof.
  unfold appendFresh, FilterString.
  rewrite (filter_bool_prop SliderMap.isNonEmpty (fun s => s ≠ EmptyString) us)
    by apply isNonEmpty_spec.
  f_equal. apply filter_bool_prop. intros s.
  rewrite andb_true_iff, negb_true_iff, isNonEmpty_spec.
  rewrite <- not_true_iff_false, ContainsString_spec.
  rewrite list_elem_of_filter. tauto.
Qed.

Lemma appendFresh_nil (ts : list string) :
  appendFresh [] ts = filter (fun s => s ≠ EmptyString) ts.
Proof.
  unfold appendFresh, FilterString. simpl.
  apply filter_bool_prop. intros s.
  rewrite andb_true_r. apply isNonEmpty_spec.
Qed.

(** C6. The example of the merge law, and the law itself: for a slider
    index filed under at most one key of each source, the merged targets
    are the non-empty user targets followed by the non-empty internal
    targets absent from the user list; an index no key parses to has no
    entry. *)
Theorem merge_law :
  SliderMap.sliderMapFromConfigs [("0", ["a"; ""])] [("0", ["b"])] !! 0 = Some ["a"; "b"]
  /\ dom (SliderMap.sliderMapFromConfigs [("0", ["a"; ""])] [("0", ["b"])]) = {[ 0 ]}
  /\ (forall (userMapping internalMapping : configMapping) (idx : Z),
        (length (targetsOf idx userMapping) <= 1)%nat ->
        (length (targetsOf idx internalMapping) <= 1)%nat ->
        SliderMap.sliderMapFromConfigs userMapping internalMapping !! idx
        = mergedTargets (head (targetsOf idx userMapping))
                        (head (targetsOf idx internalMapping))).
Proof.
  split; [vm_compute; reflexivity|].
  split; [vm_compute; reflexivity|].
  intros userMapping internalMapping idx Hu Hi.
  rewrite sliderMapFromConfigs_lookup.
  destruct (targetsOf idx userMapping) as [|us [|? ?]]; simpl in Hu; [| |lia];
    destruct (targetsOf idx internalMapping) as [|ts [|? ?]]; simpl in Hi; try lia;
    simpl.
  - reflexivity.
  - now rewrite appendFresh_nil.
  - f_equal. unfold FilterString. apply filter_bool_prop, isNonEmpty_spec.
  - now rewrite appendFresh_spec.
Qed.

(** The merge drops the keys that are not integers, here [zero], the empty
    key and [1.5]. *)
Lemma merge_drops_unparsable_keys :
  dom (SliderMap.sliderMapFromConfigs
         [("zero", ["x"]); ("0", ["a"; ""])] [("", ["y"]); ("0", ["b"]); ("1.5", ["z"])])
  = {[ 0 ]}.
Proof. vm_compute. reflexivity. Qed.

(** The law at the example. *)
Lemma merge_law_witness :
  (length (targetsOf 0 [("0", ["a"; ""])]) <= 1)%nat
  /\ (length (targetsOf 0 [("0", ["b"])]) <= 1)%nat
  /\ SliderMap.sliderMapFromConfigs [("0", ["a"; ""])] [("0", ["b"])] !! 0
     = mergedTargets (head (targetsOf 0 [("0", ["a"; ""])]))
                     (head (targetsOf 0 [("0", ["b"])])).
Proof.
  split; [vm_compute; lia|]. split; [vm_compute; lia|].
  apply (proj2 (proj2 merge_law)); vm_compute; lia.
Defined.

(** C3, the code without a user [slider_mapping]: the default registered
    for the key is an empty map, so the mapping is built from the internal
    configuration alone and is empty when that is absent too; slider 0 is
    not mapped. [defaultSliderMapping], which maps slider 0 to [master],
    is not consulted. *)
Theorem absent_user_mapping_yields_no_entry :
  SliderMapping (populateFromVipers silentFile silentFile) = ∅
  /\ SliderMap.get 0 (SliderMapping (populateFromVipers silentFile silentFile)) = None
  /\ SliderMap.get 0 defaultSliderMapping = Some ["master"]
  /\ SliderMapping (populateFromVipers silentFile silentFile) <> defaultSliderMapping
  /\ (forall internalConfig,
        SliderMapping (populateFromVipers silentFile internalConfig)
        = SliderMap.sliderMapFromConfigs [] (default [] (slider_mapping internalConfig))).
Proof.
  split; [reflexivity|]. split; [reflexivity|]. split; [reflexivity|].
  split.
  - intros Heq. apply (f_equal (SliderMap.get 0)) in Heq. discriminate Heq.
  - intros internalConfig. unfold populateFromVipers. cbn.
    now destruct (slider_mapping internalConfig).
Qed.

(* ===================================================================== *)
(** * Properties of the session map *)
(* ===================================================================== *)

(** Symbolic execution of the computations on the map, on a state given
    by its fields. *)
Ltac run_map :=
  cbv beta iota zeta delta
    [refreshSessions refreshTooSoon clear getAndAddSessions add get log setM
     setUnmappedSessions setLastSessionRefresh Release Now queryFinder
     getUnmappedSessionKeys mbind mret M_bind M_ret panic gets modify
     m lastSessionRefresh unmappedSessions clockReadings discoveryQueries
     released logged fst snd].

(** C2, as the code has it. When the discovery query fails during a
    refresh, the failure is logged and the registry is left empty: its
    sessions were released and its map cleared before the query, and the
    unmapped sessions are forgotten. The refresh itself ends normally, and
    looking up any key afterwards finds nothing. *)
Theorem failed_refresh_leaves_registry_empty W cc force (s : SessionMap.t) :
  refreshNotSkipped W force s ->
  GetAllSessions W (discoveryQueries s) = None ->
  let s' := fst (refreshSessions W cc force s) in
  snd (refreshSessions W cc force s) = Some tt
  /\ m s' = ∅
  /\ unmappedSessions s' = []
  /\ released s' ≡ₚ released s ++ concat (map snd (map_to_list (m s)))
  /\ logged s' = logged s ++
       [(Debug, "Releasing and clearing all audio sessions");
        (Debug, "Session map cleared");
        (Warn, "Failed to get sessions from session finder");
        (Warn, "Failed to re-acquire all audio sessions")]
  /\ (forall key, SessionMap.get key s' = (s', Some None)).
Proof.
  destruct s as [m0 last0 unmapped0 reads0 queries0 released0 logged0].
  unfold refreshNotSkipped. cbn. intros Hrun Hfail.
  assert (Hgate : (if force then false
                   else timeNow W reads0 <? last0 + minTimeBetweenSessionRefreshes) = false).
  { destruct force; [reflexivity|now apply Hrun]. }
  destruct force; run_map; rewrite ?Hgate, Hfail; run_map;
    rewrite <- ?app_assoc;
    (split; [reflexivity|]); (split; [reflexivity|]); (split; [reflexivity|]);
    (split; [reflexivity|]); (split; [reflexivity|]);
    intros key; now rewrite lookup_empty.
Qed.

(** C2, the claim as stated fails: after a refresh whose discovery query
    fails the map no longer holds the master session it held before. *)
Lemma failed_refresh_loses_sessions :
  GetAllSessions failingWorld (discoveryQueries populatedMap) = None
  /\ m populatedMap !! "master" = Some [masterAt80]
  /\ m (fst (refreshSessions failingWorld sampleConfig true populatedMap)) !! "master" = None
  /\ m (fst (refreshSessions failingWorld sampleConfig true populatedMap)) <> m populatedMap.
Proof.
  split; [reflexivity|]. split; [vm_compute; reflexivity|].
  assert (Hgone : m (fst (refreshSessions failingWorld sampleConfig true populatedMap))
                  !! "master" = None) by (vm_compute; reflexivity).
  split; [exact Hgone|].
  intros Heq. rewrite Heq in Hgone. vm_compute in Hgone. discriminate.
Qed.

(** A forced refresh of [populatedMap] in [failingWorld]. *)
Lemma failed_refresh_leaves_registry_empty_witness :
  refreshNotSkipped failingWorld true populatedMap
  /\ GetAllSessions failingWorld (discoveryQueries populatedMap) = None
  /\ m (fst (refreshSessions failingWorld sampleConfig true populatedMap)) = ∅.
Proof.
  assert (Hrun : refreshNotSkipped failingWorld true populatedMap)
    by (intros Hforce; discriminate Hforce).
  split; [exact Hrun|]. split; [reflexivity|].
  exact (proj1 (proj2 (failed_refresh_leaves_registry_empty failingWorld sampleConfig
                         true populatedMap Hrun eq_refl))).
Defined.

(** ** The schedule of refreshes *)

(** The computations that make up the population of the map keep the
    schedule. *)
Lemma keeps_ret {A : Type} (a : A) : keepsSchedule (mret a : M A).
Proof. intros s. now cbv. Qed.

Lemma keeps_panic {A : Type} : keepsSchedule (panic : M A).
Proof. intros s. now cbv. Qed.

Lemma keeps_bind {A B : Type} (c : M A) (k : A -> M B) :
  keepsSchedule c -> (forall a, keepsSchedule (k a)) -> keepsSchedule (c ≫= k).
Proof.
  intros Hc Hk s. unfold mbind, M_bind.
  specialize (Hc s). destruct (c s) as [s' [a|]]; cbn in *.
  - specialize (Hk a s'). destruct Hk as (-> & -> & ->). exact Hc.
  - exact Hc.
Qed.

Lemma keeps_gets {A : Type} (f : SessionMap.t -> A) : keepsSchedule (gets f).
Proof. intros s. now cbv. Qed.

Lemma keeps_log level message : keepsSchedule (log level message).
Proof. intros s. now destruct s. Qed.

Lemma keeps_setM stored : keepsSchedule (setM stored).
Proof. intros s. now destruct s. Qed.

Lemma keeps_setUnmappedSessions l : keepsSchedule (setUnmappedSessions l).
Proof. intros s. now destruct s. Qed.

Lemma keeps_Release l : keepsSchedule (Release l).
Proof. intros s. now destruct s. Qed.

Lemma keeps_forEach {A : Type} (l : list A) (body : A -> M unit) :
  (forall a, keepsSchedule (body a)) -> keepsSchedule (forEach l body).
Proof.
  intros Hbody. induction l as [|a l IH]; simpl.
  - apply keeps_ret.
  - apply keeps_bind; [apply Hbody|intros _; exact IH].
Qed.

Create HintDb schedule.

#[local] Hint Resolve keeps_ret keeps_panic keeps_gets keeps_log keeps_setM
  keeps_setUnmappedSessions keeps_Release : schedule.

Lemma keeps_add session : keepsSchedule (add session).
Proof.
  unfold add. apply keeps_bind; [auto with schedule|].
  intros sessions. destruct (sessions !! Key session); auto with schedule.
Qed.

Lemma keeps_clear : keepsSchedule clear.
Proof.
  unfold clear. repeat (apply keeps_bind; [auto with schedule|intros ?]).
  auto with schedule.
Qed.

Lemma keeps_resolveTarget W target : keepsSchedule (resolveTarget W target).
Proof.
  unfold resolveTarget, applyTargetTransform, getCurrentWindowProcessNames,
    getUnmappedSessionKeys.
  destruct (targetHasSpecialTransform _); [|auto with schedule].
  destruct (String.eqb _ specialTargetCurrentWindow).
  - destruct (GetCurrentWindowProcessNames W); [auto with schedule|].
    apply keeps_bind; auto with schedule.
  - destruct (String.eqb _ specialTargetAllUnmapped); auto with schedule.
Qed.

Lemma keeps_matchTargets W key targets : keepsSchedule (matchTargets W key targets).
Proof.
  induction targets as [|target rest IH]; simpl; [auto with schedule|].
  destruct (targetHasSpecialTransform target); [exact IH|].
  apply keeps_bind; [apply keeps_resolveTarget|].
  intros [|resolvedTarget ?]; [auto with schedule|].
  destruct (String.eqb resolvedTarget key); auto with schedule.
Qed.

Lemma keeps_matchSliders W key sliders :
  forall matchFound, keepsSchedule (matchSliders W key sliders matchFound).
Proof.
  induction sliders as [|[idx targets] rest IH]; intros matchFound; simpl;
    [auto with schedule|].
  apply keeps_bind; [apply keeps_matchTargets|]. intros found. apply IH.
Qed.

Lemma keeps_sessionMapped W cc session : keepsSchedule (sessionMapped W cc session).
Proof.
  unfold sessionMapped.
  destruct (ContainsString _ _); [auto with schedule|].
  destruct (Regexp.MatchString _ _); [auto with schedule|].
  apply keeps_matchSliders.
Qed.

Lemma keeps_trackSession W cc session : keepsSchedule (trackSession W cc session).
Proof.
  unfold trackSession.
  apply keeps_bind; [apply keeps_add|intros _].
  apply keeps_bind; [apply keeps_sessionMapped|intros [|]]; [auto with schedule|].
  repeat (apply keeps_bind; [auto with schedule|intros ?]). auto with schedule.
Qed.

(** The loop of [getAndAddSessions], met in a goal, keeps the schedule. *)
Ltac settle_tracking W cc :=
  match goal with
  | |- context [forEach ?sessions (trackSession W cc) ?s1] =>
      let Hloop := fresh "Hloop" in
      let s2 := fresh "s2" in
      pose proof (keeps_forEach sessions (trackSession W cc)
                    (keeps_trackSession W cc) s1) as Hloop;
      destruct (forEach sessions (trackSession W cc) s1) as [s2 [[]|]];
      cbn in Hloop; destruct s2; cbn in *
  end.

(** What [getAndAddSessions] does to the schedule: one reading of the
    clock, which becomes the instant of the last refresh, and one query. *)
Lemma getAndAddSessions_schedule W cc (s : SessionMap.t) :
  discoveryQueries (fst (getAndAddSessions W cc s)) = S (discoveryQueries s)
  /\ lastSessionRefresh (fst (getAndAddSessions W cc s)) = timeNow W (clockReadings s)
  /\ clockReadings (fst (getAndAddSessions W cc s)) = S (clockReadings s).
Proof.
  destruct s as [m0 last0 unmapped0 reads0 queries0 released0 logged0].
  run_map.
  destruct (GetAllSessions W queries0) as [sessions|]; [|now cbn].
  settle_tracking W cc; assumption.
Qed.

(** A forced refresh: one query, timed by one reading of the clock. *)
Lemma forced_refresh_schedule W cc (s : SessionMap.t) :
  discoveryQueries (fst (refreshSessions W cc true s)) = S (discoveryQueries s)
  /\ lastSessionRefresh (fst (refreshSessions W cc true s)) = timeNow W (clockReadings s)
  /\ clockReadings (fst (refreshSessions W cc true s)) = S (clockReadings s).
Proof.
  destruct s as [m0 last0 unmapped0 reads0 queries0 released0 logged0].
  run_map.
  destruct (GetAllSessions W queries0) as [sessions|]; [|now cbn].
  settle_tracking W cc; assumption.
Qed.

(** A refresh on request that finds the minimum interval elapsed: one
    query, timed by the second of two readings of the clock. *)
Lemma due_refresh_schedule W cc (s : SessionMap.t) :
  (timeNow W (clockReadings s) <? lastSessionRefresh s + minTimeBetweenSessionRefreshes) = false ->
  discoveryQueries (fst (refreshSessions W cc false s)) = S (discoveryQueries s)
  /\ lastSessionRefresh (fst (refreshSessions W cc false s)) = timeNow W (S (clockReadings s))
  /\ clockReadings (fst (refreshSessions W cc false s)) = S (S (clockReadings s)).
Proof.
  destruct s as [m0 last0 unmapped0 reads0 queries0 released0 logged0].
  cbn. intros Hdue. run_map. rewrite Hdue.
  destruct (GetAllSessions W queries0) as [sessions|]; [|now cbn].
  settle_tracking W cc; assumption.
Qed.

(** A refresh on request within the minimum interval: nothing but the
    reading of the clock. *)
Lemma early_refresh_is_skipped W cc (s : SessionMap.t) :
  (timeNow W (clockReadings s) <? lastSessionRefresh s + minTimeBetweenSessionRefreshes) = true ->
  refreshSessions W cc false s = (afterClockReading s, Some tt).
Proof.
  destruct s as [m0 last0 unmapped0 reads0 queries0 released0 logged0].
  cbn. intros Hsoon. unfold afterClockReading. run_map. now rewrite Hsoon.
Qed.




(** ** The unmapped sessions *)

(** On plain targets the search for a match changes nothing in the map
    and returns whether a configured literal equals the key. *)
Lemma matchTargets_plain W key targets (s : SessionMap.t) :
  Forall plainTarget targets ->
  matchTargets W key targets s = (s, Some (existsb (literalMatch key) targets)).
Proof.
  induction 1 as [|target rest Hplain _ IH]; [reflexivity|].
  simpl. unfold literalMatch at 1.
  destruct (targetHasSpecialTransform target) eqn:Hspecial; [exact IH|].
  unfold resolveTarget. rewrite Hplain, Hspecial.
  unfold mbind, M_bind, mret, M_ret. simpl.
  destruct (String.eqb (ToLower target) key); [reflexivity|exact IH].
Qed.

Lemma matchSliders_plain W key sliders :
  (forall slider, In slider sliders -> Forall plainTarget slider.2) ->
  forall matchFound (s : SessionMap.t),
    matchSliders W key sliders matchFound s
    = (s, Some (matchFound
                || existsb (fun slider : Z * list string =>
                              existsb (literalMatch key) slider.2) sliders)).
Proof.
  induction sliders as [|[idx targets] rest IH]; intros Hplain matchFound s.
  - simpl. now rewrite orb_false_r.
  - simpl. unfold mbind, M_bind.
    rewrite (matchTargets_plain W key targets s) by (apply (Hplain (idx, targets)); now left).
    rewrite IH by (intros slider Hin; apply Hplain; now right).
    do 2 f_equal.
    destruct (existsb (literalMatch key) targets), matchFound; reflexivity.
Qed.

Lemma sessionMapped_plain W cc session (s : SessionMap.t) :
  plainMapping cc ->
  sessionMapped W cc session s = (s, Some (coveredKey cc (Key session))).
Proof.
  intros Hplain. unfold sessionMapped, coveredKey.
  destruct (ContainsString _ (Key session)); [reflexivity|].
  destruct (Regexp.MatchString _ (Key session)); [reflexivity|].
  rewrite matchSliders_plain; [reflexivity|].
  intros [idx targets] Hin. apply (Hplain idx). simpl.
  apply elem_of_map_to_list. now apply list_elem_of_In.
Qed.

(** One round, then the whole loop, of the population: the sessions not
    covered are appended to the unmapped ones. *)
Lemma trackSession_plain W cc session (s : SessionMap.t) :
  plainMapping cc ->
  exists s',
    trackSession W cc session s = (s', Some tt)
    /\ unmappedSessions s'
       = unmappedSessions s ++ uncoveredSessions cc [session].
Proof.
  intros Hplain.
  destruct s as [m0 last0 unmapped0 reads0 queries0 released0 logged0].
  unfold trackSession, uncoveredSessions. simpl List.filter.
  unfold mbind at 1, M_bind at 1.
  assert (Hadd : exists m1,
            add session {| m := m0; lastSessionRefresh := last0;
                           unmappedSessions := unmapped0; clockReadings := reads0;
                           discoveryQueries := queries0; released := released0;
                           logged := logged0 |}
            = ({| m := m1; lastSessionRefresh := last0;
                  unmappedSessions := unmapped0; clockReadings := reads0;
                  discoveryQueries := queries0; released := released0;
                  logged := logged0 |}, Some tt)).
  { run_map. destruct (m0 !! Key session); eexists; reflexivity. }
  destruct Hadd as [m1 ->].
  unfold mbind at 1, M_bind at 1. rewrite (sessionMapped_plain W cc session _ Hplain).
  destruct (coveredKey cc (Key session)); simpl negb; cbv iota.
  - eexists. split; [reflexivity|]. cbn. now rewrite app_nil_r.
  - run_map. eexists. split; reflexivity.
Qed.

Lemma trackSessions_plain W cc sessions :
  plainMapping cc ->
  forall s : SessionMap.t,
  exists s',
    forEach sessions (trackSession W cc) s = (s', Some tt)
    /\ unmappedSessions s' = unmappedSessions s ++ uncoveredSessions cc sessions.
Proof.
  intros Hplain. induction sessions as [|session rest IH]; intros s.
  - exists s. split; [reflexivity|]. cbn. now rewrite app_nil_r.
  - destruct (trackSession_plain W cc session s Hplain) as (s1 & Hstep & Hunmapped1).
    destruct (IH s1) as (s2 & Hrest & Hunmapped2).
    exists s2. split.
    + simpl. unfold mbind, M_bind. now rewrite Hstep.
    + rewrite Hunmapped2, Hunmapped1, <- app_assoc. f_equal.
      unfold uncoveredSessions. simpl.
      destruct (negb (coveredKey cc (Key session))); reflexivity.
Qed.

(** X12. With a mapping of plain targets, populating the registry records
    as unmapped exactly the sessions whose key is not covered, in the order
    of discovery, and [deej.unmapped] resolves to their keys. *)
Lemma unmapped_resolution_plain W cc sessions (s : SessionMap.t) :
  plainMapping cc ->
  GetAllSessions W (discoveryQueries s) = Some sessions ->
  snd (getAndAddSessions W cc s) = Some false
  /\ unmappedSessions (fst (getAndAddSessions W cc s)) = uncoveredSessions cc sessions
  /\ resolveTarget W "deej.unmapped" (fst (getAndAddSessions W cc s))
     = (fst (getAndAddSessions W cc s),
        Some (map Key (uncoveredSessions cc sessions))).
Proof.
  intros Hplain Hfound.
  destruct s as [m0 last0 unmapped0 reads0 queries0 released0 logged0].
  cbn in Hfound.
  assert (Hrun : snd (getAndAddSessions W cc
                        {| m := m0; lastSessionRefresh := last0;
                           unmappedSessions := unmapped0; clockReadings := reads0;
                           discoveryQueries := queries0; released := released0;
                           logged := logged0 |}) = Some false
                 /\ unmappedSessions (fst (getAndAddSessions W cc
                        {| m := m0; lastSessionRefresh := last0;
                           unmappedSessions := unmapped0; clockReadings := reads0;
                           discoveryQueries := queries0; released := released0;
                           logged := logged0 |})) = uncoveredSessions cc sessions).
  { run_map. rewrite Hfound.
    match goal with
    | |- context [forEach sessions (trackSession W cc) ?s1] =>
        destruct (trackSessions_plain W cc sessions Hplain s1) as (s2 & -> & Hunmapped)
    end.
    destruct s2. cbn in *. now split. }
  destruct Hrun as [Hok Hunmapped]. split; [exact Hok|]. split; [exact Hunmapped|].
  unfold resolveTarget. change (ToLower "deej.unmapped") with "deej.unmapped".
  change (targetHasSpecialTransform "deej.unmapped") with true. cbv iota.
  change (TrimPrefix "deej.unmapped" specialTargetTransformPrefix) with "unmapped".
  unfold applyTargetTransform.
  change (String.eqb "unmapped" specialTargetCurrentWindow) with false.
  change (String.eqb "unmapped" specialTargetAllUnmapped) with true. cbv iota.
  unfold getUnmappedSessionKeys, gets. now rewrite Hunmapped.
Qed.

(** C9, the code at a mapping that spells the special target
    [Deej.unmapped]: [sessionMapped] tests the target as configured for
    the prefix [deej.], does not find it, resolves the target, which lowers
    its case and yields the keys of the unmapped sessions, none so far,
    and indexes that empty list: populating the registry panics. No
    configured literal equals [chrome.exe], and with the target spelled
    [deej.unmapped] the population ends and [deej.unmapped] resolves to
    that key. In the same way a target spelled [Deej.current] is resolved
    to the foreground application, [chrome.exe] here, which is then counted
    as mapped and left out of what [deej.unmapped] resolves to. *)
Theorem capitalized_special_target_panics :
  snd (getAndAddSessions chromeWorld capitalizedConfig newSessionMap) = None
  /\ targetHasSpecialTransform "Deej.unmapped" = false
  /\ snd (resolveTarget chromeWorld "Deej.unmapped" newSessionMap) = Some []
  /\ coveredKey capitalizedConfig "chrome.exe" = false
  /\ snd (getAndAddSessions chromeWorld lowercaseConfig newSessionMap) = Some false
  /\ snd (resolveTarget chromeWorld "deej.unmapped"
            (fst (getAndAddSessions chromeWorld lowercaseConfig newSessionMap)))
     = Some ["chrome.exe"]
  /\ coveredKey foregroundConfig "chrome.exe" = false
  /\ snd (getAndAddSessions foregroundWorld foregroundConfig newSessionMap) = Some false
  /\ snd (resolveTarget foregroundWorld "deej.unmapped"
            (fst (getAndAddSessions foregroundWorld foregroundConfig newSessionMap)))
     = Some [].
Proof. repeat split; vm_compute; reflexivity. Qed.

(** The targets of [lowercaseConfig] are plain. *)
Lemma lowercaseConfig_plain : plainMapping lowercaseConfig.
Proof.
  intros idx targets Hlookup.
  destruct (decide (idx = 0)) as [->|H0];
    [vm_compute in Hlookup; injection Hlookup as <-;
     repeat constructor|].
  destruct (decide (idx = 1)) as [->|H1];
    [vm_compute in Hlookup; injection Hlookup as <-;
     repeat constructor|].
  unfold lowercaseConfig in Hlookup. cbn in Hlookup.
  rewrite lookup_insert_ne, lookup_singleton_ne in Hlookup by congruence.
  discriminate.
Qed.

(** What the consumer does with the two events of the end-to-end example
    when they are delivered: the master session goes to 0.50 and every
    session keyed [chrome.exe] to 1.00, without a refresh. *)
Lemma consumer_applies_delivered_events :
  let events := [ {| SliderID := 0; PercentValue := hundredths 50 |};
                  {| SliderID := 1; PercentValue := F32.ofZ 1 |} ] in
  let after := fst (consumeSliderMoves chromeWorld sampleConfig events exampleRegistry) in
  m after !! "master" = Some [ {| Key := "master"; GetVolume := hundredths 50 |} ]
  /\ m after !! "chrome.exe"
     = Some [ {| Key := "chrome.exe"; GetVolume := F32.ofZ 1 |};
              {| Key := "chrome.exe"; GetVolume := F32.ofZ 1 |} ]
  /\ discoveryQueries after = discoveryQueries exampleRegistry.
Proof. repeat split; vm_compute; reflexivity. Qed.

(* ===================================================================== *)
(** * Further properties of the line decoder *)
(* ===================================================================== *)

(** The loop over the fields, started where the cache is long enough,
    ends without a panic and keeps the length of the cache. *)
Lemma processFields_in_range cc values :
  forall i cache events,
    (i + length values <= length cache)%nat ->
    exists cache' exit,
      processFields cc i values cache events = Some (cache', exit)
      /\ length cache' = length cache.
Proof.
  induction values as [|val rest IH]; intros i cache events Hlen.
  - exists cache, (Gathered events). now split.
  - simpl in Hlen. simpl.
    destruct (Atoi val) as [rawValue|]; [|exists cache, InvalidField; now split].
    destruct (1023 <? rawValue); [exists cache, InvalidField; now split|].
    destruct (lookup_lt_is_Some_2 cache i ltac:(lia)) as [old ->].
    destruct (SignificantlyDifferent old _ _).
    + destruct (IH (S i) (<[i:=scaleRaw (InvertSliders cc) rawValue]> cache)
                  (events ++ [{| SliderID := Z.of_nat i;
                                 PercentValue := scaleRaw (InvertSliders cc) rawValue |}]))
        as (cache' & exit & Hrun & Hlen').
      { rewrite length_insert. lia. }
      exists cache', exit. split; [exact Hrun|]. now rewrite Hlen', length_insert.
    + apply IH. lia.
Qed.

(** X2. From a cache in shape, [processLine] ends without a panic on every
    line, sends no event, and leaves a cache in shape; after an accepted
    line the cache has one entry per field of the line. *)
Theorem processLine_keeps_cache_in_shape cc sio line :
  cacheInShape sio ->
  exists sio',
    processLine cc sio line = Some (sio', [])
    /\ cacheInShape sio'
    /\ (Regexp.MatchString expectedLinePattern line = true ->
        lastKnownNumSliders sio' = Z.of_nat (length (Split line "|"))
        /\ length (currentSliderPercentValues sio') = length (Split line "|"))
    /\ (Regexp.MatchString expectedLinePattern line = false -> sio' = sio).
Proof.
  intros Hshape.
  destruct (Regexp.MatchString expectedLinePattern line) eqn:Hmatch.
  - assert (Hfields : (1 <= length (Split line "|"))%nat).
    { pose proof (Split_nonempty line "|"). destruct (Split line "|"); [contradiction|simpl; lia]. }
    assert (Hrun : exists sio', processLine cc sio line = Some (sio', [])
              /\ lastKnownNumSliders sio' = Z.of_nat (length (Split line "|"))
              /\ length (currentSliderPercentValues sio') = length (Split line "|")).
    { destruct (processLine cc sio line) as [[sio' sent]|] eqn:Hline.
      - pose proof (processLine_never_sends _ _ _ _ _ Hline) as ->.
        exists sio'. split; [reflexivity|].
        unfold processLine in Hline. rewrite Hmatch in Hline. simpl in Hline.
        destruct (Z.of_nat (length (Split line "|")) =? lastKnownNumSliders sio) eqn:Hcount;
          simpl in Hline.
        + apply Z.eqb_eq in Hcount.
          assert (Hcache : length (currentSliderPercentValues sio) = length (Split line "|")).
          { destruct Hshape as [H0|Hlen]; lia. }
          destruct (processFields_in_range cc (Split line "|") 0
                      (currentSliderPercentValues sio) [] ltac:(lia))
            as (cache' & exit & Hloop & Hlen').
          rewrite Hloop in Hline.
          destruct exit; injection Hline as <-; simpl; split; lia.
        + destruct (processFields_in_range cc (Split line "|") 0
                      (replicate (length (Split line "|")) sentinel) []
                      ltac:(rewrite length_replicate; lia))
            as (cache' & exit & Hloop & Hlen').
          rewrite Hloop in Hline. rewrite length_replicate in Hlen'.
          destruct exit; injection Hline as <-; simpl; split; lia.
      - exfalso. unfold processLine in Hline. rewrite Hmatch in Hline. simpl in Hline.
        destruct (Z.of_nat (length (Split line "|")) =? lastKnownNumSliders sio) eqn:Hcount;
          simpl in Hline.
        + apply Z.eqb_eq in Hcount.
          destruct (processFields_in_range cc (Split line "|") 0
                      (currentSliderPercentValues sio) [])
            as (cache' & exit & Hloop & Hlen').
          { destruct Hshape as [H0|Hlen]; lia. }
          rewrite Hloop in Hline. destruct exit; discriminate.
        + destruct (processFields_in_range cc (Split line "|") 0
                      (replicate (length (Split line "|")) sentinel) []
                      ltac:(rewrite length_replicate; lia))
            as (cache' & exit & Hloop & Hlen').
          rewrite Hloop in Hline. destruct exit; discriminate. }
    destruct Hrun as (sio' & Hline & Hcount & Hlen).
    exists sio'. split; [exact Hline|]. split; [right; lia|].
    split; [intros _; now split|discriminate].
  - exists sio. unfold processLine. rewrite Hmatch. simpl.
    split; [reflexivity|]. split; [exact Hshape|]. split; [discriminate|reflexivity].
Qed.

Lemma processLine_keeps_cache_in_shape_witness :
  cacheInShape NewSerialIO
  /\ exists sio', processLine sampleConfig NewSerialIO sampleLine = Some (sio', [])
                  /\ cacheInShape sio'.
Proof.
  assert (Hshape : cacheInShape NewSerialIO) by (left; reflexivity).
  split; [exact Hshape|].
  destruct (processLine_keeps_cache_in_shape sampleConfig NewSerialIO sampleLine Hshape)
    as (sio' & Hrun & Hshape' & _).
  exists sio'. now split.
Defined.

(** A wire field reads as an integer the decoder accepts. *)
Lemma isWireField_Atoi val :
  isWireField val = true ->
  exists rawValue,
    Atoi val = Some rawValue /\ 0 <= rawValue <= 1023 /\ (1023 <? rawValue) = false.
Proof.
  unfold isWireField. destruct (Atoi val) as [rawValue|]; [|discriminate].
  intros H. apply andb_prop in H as [H0 H1].
  exists rawValue. split; [reflexivity|]. split; [lia|]. apply Z.ltb_ge. lia.
Qed.

(** ** The fields of an accepted line, up to the one that stops the loop *)

Lemma allBytes_app ok a b : allBytes ok (a +:+ b) = allBytes ok a && allBytes ok b.
Proof.
  induction a as [|c a IH]; [reflexivity|].
  rewrite append_cons. simpl. now rewrite IH, andb_assoc.
Qed.

(** The words of a pattern are made of the bytes its classes accept. *)
Lemma words_bytes ok r s :
  Regexp.words r s -> classesWithin ok r -> allBytes ok s = true.
Proof.
  induction 1 as [|accepts c Hc|r1 r2 s1 s2 _ IH1 _ IH2|r1 r2 s _ IH|r1 r2 s _ IH
                 |r|r s1 s2 _ IH1 _ IH2]; simpl; intros Hin.
  - reflexivity.
  - now rewrite (Hin c Hc).
  - rewrite allBytes_app, IH1, IH2; tauto.
  - apply IH. tauto.
  - apply IH. tauto.
  - reflexivity.
  - rewrite allBytes_app, IH1, IH2; auto.
Qed.

Lemma expectedLinePattern_bytes : classesWithin isLineByte expectedLinePattern.
Proof.
  assert (Hdigit : forall c, isDigit c = true -> isLineByte c = true).
  { intros c Hc. unfold isLineByte. now rewrite Hc. }
  assert (Hbar : forall c, Ascii.eqb "|" c = true -> isLineByte c = true).
  { intros c Hc. unfold isLineByte. rewrite Hc. now rewrite orb_true_r. }
  assert (Hcr : forall c, Ascii.eqb byteCR c = true -> isLineByte c = true).
  { intros c Hc. unfold isLineByte. rewrite Hc. now rewrite orb_true_r. }
  assert (Hlf : forall c, Ascii.eqb byteLF c = true -> isLineByte c = true).
  { intros c Hc. unfold isLineByte. rewrite Hc. now rewrite orb_true_r. }
  simpl. tauto.
Qed.

(** A line the pattern accepts is made of digits, bars and the line
    ending. *)
Lemma accepted_line_bytes line :
  Regexp.MatchString expectedLinePattern line = true -> allBytes isLineByte line = true.
Proof.
  intros H. apply MatchString_words in H.
  exact (words_bytes isLineByte _ _ H expectedLinePattern_bytes).
Qed.

(** The pieces of a text are made of bytes of the text. *)
Lemma Split_bytes ok sep s :
  allBytes ok s = true -> Forall (fun piece => allBytes ok piece = true) (Split s sep).
Proof.
  induction s as [|c s IH]; simpl; intros H.
  - now constructor.
  - apply andb_prop in H as [Hc Hs]. specialize (IH Hs).
    destruct (Ascii.eqb c sep); [now constructor|].
    destruct (Split s sep) as [|piece pieces]; [repeat constructor; simpl; now rewrite Hc|].
    inversion IH as [|? ? Hpiece Hpieces]; subst.
    constructor; [simpl; now rewrite Hc, Hpiece|exact Hpieces].
Qed.

Lemma parseDigits_nonneg s :
  forall acc n, 0 <= acc -> parseDigits acc s = Some n -> 0 <= n.
Proof.
  induction s as [|c s IH]; simpl; intros acc n Hacc H.
  - injection H as <-. exact Hacc.
  - destruct (isDigit c) eqn:Hc; [|discriminate].
    apply (IH _ _) in H; [exact H|].
    unfold isDigit in Hc. cbv zeta in Hc. apply andb_prop in Hc as [Hlo _].
    apply Nat.leb_le in Hlo. unfold digitValue. lia.
Qed.

(** A field made of bytes of an accepted line carries no sign: when it
    reads as an integer, the integer is not negative. *)
Lemma Atoi_line_bytes val rawValue :
  allBytes isLineByte val = true -> Atoi val = Some rawValue -> 0 <= rawValue.
Proof.
  intros Hbytes. unfold Atoi.
  destruct val as [|c val]; [discriminate|].
  simpl in Hbytes. apply andb_prop in Hbytes as [Hc _].
  assert (Hplain : match String c val with
                   | String "-" rest => (true, rest)
                   | String "+" rest => (false, rest)
                   | _ => (false, String c val)
                   end = (false, String c val)).
  { destruct c as [[] [] [] [] [] [] [] []]; try reflexivity; discriminate Hc. }
  rewrite Hplain.
  destruct (parseDigits 0 (String c val)) as [n|] eqn:Hparse; [|discriminate].
  cbv zeta. destruct ((minInt <=? n) && (n <=? maxInt)); [|discriminate].
  intros H. injection H as <-. exact (parseDigits_nonneg _ _ _ (Z.le_refl 0) Hparse).
Qed.

(** Fields of which one stops the loop: those before the first that does
    are read. *)
Lemma first_stop values :
  existsb stopsTheLoop values = true ->
  exists good bad rest,
    values = good ++ bad :: rest
    /\ forallb (fun val => negb (stopsTheLoop val)) good = true
    /\ stopsTheLoop bad = true.
Proof.
  induction values as [|val values IH]; simpl; [discriminate|].
  destruct (stopsTheLoop val) eqn:Hval; simpl.
  - intros _. exists [], val, values. now split.
  - intros H. destruct (IH H) as (good & bad & rest & -> & Hgood & Hbad).
    exists (val :: good), bad, rest. simpl. now rewrite Hval.
Qed.

(** The fields of an accepted line: wire fields, then a field that stops
    the loop, the last one at the latest. *)
Lemma accepted_line_fields line :
  Regexp.MatchString expectedLinePattern line = true ->
  exists good bad rest,
    Split line "|" = good ++ bad :: rest
    /\ forallb isWireField good = true
    /\ stopsTheLoop bad = true.
Proof.
  intros Hmatch.
  pose proof (Split_bytes isLineByte "|" line (accepted_line_bytes line Hmatch)) as Hbytes.
  destruct (expected_line_ends_with_CRLF line Hmatch) as [body ->].
  destruct (Split_keeps_line_ending body) as (fields & lastField & Hsplit).
  assert (Hstop : existsb stopsTheLoop (Split (body +:+ CRLF) "|") = true).
  { rewrite Hsplit, existsb_app. simpl. unfold stopsTheLoop.
    rewrite Atoi_line_ending. now rewrite orb_true_r. }
  destruct (first_stop _ Hstop) as (good & bad & rest & Hfields & Hgood & Hbad).
  exists good, bad, rest. split; [exact Hfields|]. split; [|exact Hbad].
  rewrite Hfields in Hbytes. apply Forall_app in Hbytes as [Hbytes _].
  apply forallb_forall. intros val Hin.
  rewrite forallb_forall in Hgood. specialize (Hgood val Hin).
  rewrite Forall_forall in Hbytes.
  specialize (Hbytes val ltac:(now apply list_elem_of_In)).
  unfold stopsTheLoop in Hgood. unfold isWireField.
  destruct (Atoi val) as [rawValue|] eqn:Hparse; [|discriminate].
  pose proof (Atoi_line_bytes val rawValue Hbytes Hparse).
  apply negb_true_iff, Z.ltb_ge in Hgood.
  apply andb_true_intro. split; [apply Z.leb_le|apply Z.leb_le]; lia.
Qed.

(** The loop stops at a field that does not read as an integer up to
    1023, and leaves the cache as it finds it there. *)
Lemma processFields_stops cc bad rest i cache events :
  stopsTheLoop bad = true ->
  processFields cc i (bad :: rest) cache events = Some (cache, InvalidField).
Proof.
  unfold stopsTheLoop. simpl. destruct (Atoi bad) as [rawValue|]; [|reflexivity].
  now intros ->.
Qed.

(** The loop over wire fields followed by a field that stops it: it
    returns at that field; each slider before it has absorbed its field,
    the other cache entries are as they were. *)
Lemma processFields_until_stop cc bad rest good :
  stopsTheLoop bad = true ->
  forall i cache events,
    forallb isWireField good = true ->
    (i + length good <= length cache)%nat ->
    exists cache',
      processFields cc i (good ++ bad :: rest) cache events = Some (cache', InvalidField)
      /\ length cache' = length cache
      /\ (forall j val, good !! j = Some val ->
            exists old, cache !! (i + j)%nat = Some old
                        /\ cache' !! (i + j)%nat = Some (absorbed cc old val))
      /\ (forall j, (j < i \/ i + length good <= j)%nat -> cache' !! j = cache !! j).
Proof.
  intros Hbad. induction good as [|val good IH]; intros i cache events Hwire Hlen.
  - exists cache. rewrite app_nil_l, processFields_stops by exact Hbad.
    split; [reflexivity|]. split; [reflexivity|]. split; [|reflexivity].
    intros j val Hj. discriminate.
  - simpl in Hwire, Hlen. apply andb_prop in Hwire as [Hval Hrest].
    destruct (isWireField_Atoi val Hval) as (rawValue & Hparse & Hrange & Hle).
    assert (Hvalue : fieldValue cc val = scaleRaw (InvertSliders cc) rawValue)
      by (unfold fieldValue; now rewrite Hparse).
    destruct (lookup_lt_is_Some_2 cache i ltac:(lia)) as [old Hold].
    rewrite <- app_comm_cons. cbn [processFields].
    rewrite Hparse, Hle, Hold, <- Hvalue.
    assert (Hnext : exists cache1,
               (if SignificantlyDifferent old (fieldValue cc val) (NoiseReductionLevel cc)
                then processFields cc (S i) (good ++ bad :: rest)
                       (<[i:=fieldValue cc val]> cache)
                       (events ++ [{| SliderID := Z.of_nat i;
                                      PercentValue := fieldValue cc val |}])
                else processFields cc (S i) (good ++ bad :: rest) cache events)
               = Some (cache1, InvalidField)
               /\ length cache1 = length cache
               /\ (forall j val', good !! j = Some val' ->
                     exists old', cache !! (S i + j)%nat = Some old'
                                  /\ cache1 !! (S i + j)%nat = Some (absorbed cc old' val'))
               /\ (forall j, (j < i \/ S i + length good <= j)%nat -> cache1 !! j = cache !! j)
               /\ cache1 !! i = Some (absorbed cc old val)).
    { unfold absorbed at 2.
      destruct (SignificantlyDifferent old (fieldValue cc val) (NoiseReductionLevel cc)).
      - destruct (IH (S i) (<[i:=fieldValue cc val]> cache)
                    (events ++ [{| SliderID := Z.of_nat i;
                                   PercentValue := fieldValue cc val |}])
                    Hrest ltac:(rewrite length_insert; lia))
          as (cache1 & Hrun & Hlen1 & Heach & Hother).
        exists cache1. split; [exact Hrun|]. split; [now rewrite Hlen1, length_insert|].
        split; [|split].
        + intros j val' Hj. destruct (Heach j val' Hj) as (old' & Hold' & Hnew).
          rewrite list_lookup_insert_ne in Hold' by lia. now exists old'.
        + intros j Hj. rewrite Hother by lia. apply list_lookup_insert_ne. lia.
        + rewrite Hother by lia. apply list_lookup_insert_eq. lia.
      - destruct (IH (S i) cache events Hrest ltac:(lia))
          as (cache1 & Hrun & Hlen1 & Heach & Hother).
        exists cache1. split; [exact Hrun|]. split; [exact Hlen1|].
        split; [exact Heach|]. split; [intros j Hj; apply Hother; lia|].
        rewrite Hother by lia. exact Hold. }
    destruct Hnext as (cache1 & Hrun & Hlen1 & Heach & Hother & Hhere).
    exists cache1. split; [exact Hrun|]. split; [exact Hlen1|]. split.
    + intros [|j] val' Hj.
      * injection Hj as <-. exists old. rewrite Nat.add_0_r. now split.
      * replace (i + S j)%nat with (S i + j)%nat by lia. now apply Heach.
    + intros j Hj. apply Hother. simpl in Hj. lia.
Qed.

(** [processLine] on an accepted line: the loop over its fields, started
    from the cache of the decoder or from sentinels. *)
Lemma processLine_accepted cc sio line :
  Regexp.MatchString expectedLinePattern line = true ->
  processLine cc sio line
  = match processFields cc 0 (Split line "|")
            (startCache sio (length (Split line "|"))) [] with
    | None => None
    | Some (cache, exit) =>
        Some ({| lastKnownNumSliders := Z.of_nat (length (Split line "|"));
                 currentSliderPercentValues := cache |},
              match exit with Gathered events => events | InvalidField => [] end)
    end.
Proof.
  intros Hmatch. unfold processLine, startCache. rewrite Hmatch. cbn [negb]. cbv iota zeta.
  destruct (Z.of_nat (length (Split line "|")) =? lastKnownNumSliders sio) eqn:Hcount;
    cbn [negb]; cbv iota.
  - apply Z.eqb_eq in Hcount. rewrite <- Hcount.
    destruct (processFields cc 0 (Split line "|") (currentSliderPercentValues sio) [])
      as [[cache [events|]]|]; reflexivity.
  - cbn [lastKnownNumSliders currentSliderPercentValues].
    destruct (processFields cc 0 (Split line "|")
                (replicate (length (Split line "|")) sentinel) [])
      as [[cache [events|]]|]; reflexivity.
Qed.

Lemma startCache_length sio n :
  cacheInShape sio -> (1 <= n)%nat -> length (startCache sio n) = n.
Proof.
  intros Hshape Hn. unfold startCache.
  destruct (Z.of_nat n =? lastKnownNumSliders sio) eqn:Hcount.
  - apply Z.eqb_eq in Hcount. destruct Hshape as [H0|Hlen]; lia.
  - apply length_replicate.
Qed.

(** X3. [processLine] on an accepted line, from a cache in shape. The loop
    over the fields returns at the first field that does not read as an
    integer up to 1023, and there is one: the last field at the latest,
    which carries the line ending. The fields before it read as integers
    from 0 to 1023; each of their sliders takes the value of its field
    into the cache when it differs significantly from the entry the loop
    started from (the entry of the decoder, or the sentinel after a change
    of the count of fields), and keeps its entry otherwise. The entries
    from that field on are the ones the loop started from. No event is
    sent. *)
Theorem accepted_line_updates_the_cache cc sio line :
  cacheInShape sio ->
  Regexp.MatchString expectedLinePattern line = true ->
  exists good bad rest cache',
    Split line "|" = good ++ bad :: rest
    /\ forallb isWireField good = true
    /\ stopsTheLoop bad = true
    /\ processLine cc sio line
       = Some ({| lastKnownNumSliders := Z.of_nat (length (Split line "|"));
                  currentSliderPercentValues := cache' |}, [])
    /\ length cache' = length (Split line "|")
    /\ (forall j val, good !! j = Some val ->
          exists old,
            startCache sio (length (Split line "|")) !! j = Some old
            /\ cache' !! j = Some (absorbed cc old val))
    /\ (forall j, (length good <= j)%nat ->
          cache' !! j = startCache sio (length (Split line "|")) !! j).
Proof.
  intros Hshape Hmatch.
  destruct (accepted_line_fields line Hmatch) as (good & bad & rest & Hfields & Hgood & Hbad).
  assert (Hstart : length (startCache sio (length (Split line "|")))
                   = length (Split line "|")).
  { apply startCache_length; [exact Hshape|].
    rewrite Hfields, length_app. simpl. lia. }
  destruct (processFields_until_stop cc bad rest good Hbad 0
              (startCache sio (length (Split line "|"))) [] Hgood)
    as (cache' & Hrun & Hlen & Heach & Hother).
  { rewrite Hstart, Hfields, length_app. simpl. lia. }
  exists good, bad, rest, cache'.
  split; [exact Hfields|]. split; [exact Hgood|]. split; [exact Hbad|].
  split; [|split; [|split]].
  - rewrite (processLine_accepted cc sio line Hmatch).
    rewrite Hfields at 1. now rewrite Hrun.
  - now rewrite Hlen.
  - exact Heach.
  - intros j Hj. apply Hother. right. simpl. lia.
Qed.

Lemma accepted_line_updates_the_cache_witness :
  cacheInShape threeSliders
  /\ Regexp.MatchString expectedLinePattern ("512|2000|7" +:+ CRLF) = true
  /\ exists good bad rest cache',
       Split ("512|2000|7" +:+ CRLF) "|" = good ++ bad :: rest
       /\ stopsTheLoop bad = true
       /\ processLine sampleConfig threeSliders ("512|2000|7" +:+ CRLF)
          = Some ({| lastKnownNumSliders :=
                       Z.of_nat (length (Split ("512|2000|7" +:+ CRLF) "|"));
                     currentSliderPercentValues := cache' |}, []).
Proof.
  assert (Hshape : cacheInShape threeSliders) by (right; reflexivity).
  assert (Hmatch : Regexp.MatchString expectedLinePattern ("512|2000|7" +:+ CRLF) = true)
    by reflexivity.
  split; [exact Hshape|]. split; [exact Hmatch|].
  destruct (accepted_line_updates_the_cache sampleConfig threeSliders
              ("512|2000|7" +:+ CRLF) Hshape Hmatch)
    as (good & bad & rest & cache' & Hfields & _ & Hbad & Hrun & _).
  exists good, bad, rest, cache'.
  split; [exact Hfields|]. split; [exact Hbad|exact Hrun].
Defined.

(** The value the decoder computes for a raw reading is the one of its
    hundredth. *)
Lemma hundredthOf_range raw : 0 <= raw <= 1023 -> 0 <= hundredthOf raw < 101.
Proof.
  intros Hraw. unfold hundredthOf. split; [apply Z.div_pos; lia|].
  apply Z.div_lt_upper_bound; lia.
Qed.

Lemma scaleRaw_decoded raw invert :
  0 <= raw <= 1023 -> scaleRaw invert raw = decoded invert (hundredthOf raw).
Proof.
  intros Hraw. pose proof (normalizedAsTruncated_all raw Hraw) as H.
  unfold normalizedAsTruncated in H.
  apply andb_prop in H as [H _]. apply andb_prop in H as [H _].
  apply sf_same_eq in H. unfold scaleRaw, decoded, hundredthOf. now rewrite H.
Qed.

(** The hundredths, each checked by evaluation; and a distance of zero is
    below the three thresholds. *)
Lemma stableValue_plain : forallb (stableValue false) (map Z.of_nat (seq 0 101)) = true.
Proof. vm_cast_no_check (eq_refl true). Qed.

Lemma stableValue_inverted : forallb (stableValue true) (map Z.of_nat (seq 0 101)) = true.
Proof. vm_cast_no_check (eq_refl true). Qed.

Lemma zero_below_thresholds level :
  fge (F64.Abs (F64.of32 (S754_zero false))) (getSignificantDifferenceThreshold level) = false.
Proof.
  destruct (threshold_cases level) as [-> | [-> | ->]]; vm_compute; reflexivity.
Qed.

(** A value the decoder computes does not differ significantly from
    itself. *)
Lemma decoder_value_stable raw invert level :
  0 <= raw <= 1023 ->
  SignificantlyDifferent (scaleRaw invert raw) (scaleRaw invert raw) level = false.
Proof.
  intros Hraw. rewrite (scaleRaw_decoded raw invert Hraw).
  assert (H : stableValue invert (hundredthOf raw) = true).
  { destruct invert;
      [apply (forallb_Z_range (stableValue true) 101 stableValue_inverted)
      |apply (forallb_Z_range (stableValue false) 101 stableValue_plain)];
      now apply hundredthOf_range. }
  unfold stableValue in H. cbv zeta in H.
  apply andb_prop in H as [H Hzero]. apply andb_prop in H as [Hsame Hone].
  apply sf_same_eq in Hsame. apply negb_true_iff in Hone, Hzero.
  unfold SignificantlyDifferent. cbv zeta.
  now rewrite Hsame, zero_below_thresholds, Hone, Hzero.
Qed.

(** Wire fields that do not differ significantly from the cache, followed
    by a field that stops the loop, leave the cache as it is. *)
Lemma processFields_quiet_until_stop cc bad rest good :
  stopsTheLoop bad = true ->
  forall i cache events,
    forallb isWireField good = true ->
    (forall j val, good !! j = Some val ->
       exists old, cache !! (i + j)%nat = Some old
                   /\ SignificantlyDifferent old (fieldValue cc val) (NoiseReductionLevel cc) = false) ->
    processFields cc i (good ++ bad :: rest) cache events = Some (cache, InvalidField).
Proof.
  intros Hbad. induction good as [|val good IH]; intros i cache events Hwire Hquiet.
  - now apply processFields_stops.
  - simpl in Hwire. apply andb_prop in Hwire as [Hval Hrest].
    destruct (isWireField_Atoi val Hval) as (rawValue & Hparse & Hrange & Hle).
    destruct (Hquiet 0%nat val eq_refl) as (old & Hold & Hsame).
    rewrite Nat.add_0_r in Hold. unfold fieldValue in Hsame. rewrite Hparse in Hsame.
    simpl in Hsame. rewrite <- app_comm_cons. cbn [processFields].
    rewrite Hparse, Hle, Hold, Hsame.
    apply IH; [exact Hrest|].
    intros j val' Hj. replace (S i + j)%nat with (i + S j)%nat by lia.
    now apply (Hquiet (S j) val').
Qed.

(** The entry of a slider that has absorbed a wire field does not differ
    significantly from the value of the field. *)
Lemma absorbed_is_settled cc old val :
  isWireField val = true ->
  SignificantlyDifferent (absorbed cc old val) (fieldValue cc val) (NoiseReductionLevel cc)
  = false.
Proof.
  intros Hval. unfold absorbed.
  destruct (SignificantlyDifferent old (fieldValue cc val) (NoiseReductionLevel cc)) eqn:Hdiff;
    [|exact Hdiff].
  destruct (isWireField_Atoi val Hval) as (rawValue & Hparse & Hrange & _).
  unfold fieldValue. rewrite Hparse. simpl. now apply decoder_value_stable.
Qed.

(** X4. [processLine] is idempotent: handed the same line a second time, it
    leaves the decoder as the first call left it, cache and count of
    sliders, on every line and from every cache in shape; neither call
    sends an event. *)
Theorem processLine_is_idempotent cc sio line :
  cacheInShape sio ->
  exists sio',
    processLine cc sio line = Some (sio', [])
    /\ processLine cc sio' line = Some (sio', []).
Proof.
  intros Hshape.
  destruct (Regexp.MatchString expectedLinePattern line) eqn:Hmatch.
  - destruct (accepted_line_fields line Hmatch)
      as (good & bad & rest & Hfields & Hgood & Hbad).
    assert (Hstart : length (startCache sio (length (Split line "|")))
                     = length (Split line "|")).
    { apply startCache_length; [exact Hshape|].
      rewrite Hfields, length_app. simpl. lia. }
    destruct (processFields_until_stop cc bad rest good Hbad 0
                (startCache sio (length (Split line "|"))) [] Hgood)
      as (cache' & Hrun & Hlen & Heach & _).
    { rewrite Hstart, Hfields, length_app. simpl. lia. }
    exists {| lastKnownNumSliders := Z.of_nat (length (Split line "|"));
              currentSliderPercentValues := cache' |}.
    rewrite !(processLine_accepted cc _ line Hmatch).
    split; [rewrite Hfields at 1; now rewrite Hrun|].
    unfold startCache. cbn [lastKnownNumSliders currentSliderPercentValues].
    rewrite Z.eqb_refl. rewrite Hfields at 1.
    rewrite (processFields_quiet_until_stop cc bad rest good Hbad 0 cache' [] Hgood);
      [reflexivity|].
    intros j val Hj. destruct (Heach j val Hj) as (old & _ & Hnew).
    exists (absorbed cc old val). split; [exact Hnew|].
    apply absorbed_is_settled.
    rewrite forallb_forall in Hgood. apply Hgood.
    apply list_elem_of_In. eapply list_elem_of_lookup_2; eauto.
  - exists sio. unfold processLine. rewrite Hmatch. now split.
Qed.

Lemma processLine_is_idempotent_witness :
  cacheInShape threeSliders
  /\ exists sio',
       processLine sampleConfig threeSliders ("512|2000|7" +:+ CRLF) = Some (sio', [])
       /\ processLine sampleConfig sio' ("512|2000|7" +:+ CRLF) = Some (sio', []).
Proof.
  assert (Hshape : cacheInShape threeSliders) by (right; reflexivity).
  split; [exact Hshape|].
  exact (processLine_is_idempotent sampleConfig threeSliders ("512|2000|7" +:+ CRLF) Hshape).
Defined.

(** The loop started on sentinels: the sliders of the wire fields take the
    values of their fields, up to the field that stops the loop. *)
Lemma processFields_sentinels_until_stop cc bad rest good :
  stopsTheLoop bad = true ->
  forall i prefix suffix events,
    forallb isWireField good = true ->
    length prefix = i ->
    processFields cc i (good ++ bad :: rest)
      (prefix ++ replicate (length good) sentinel ++ suffix) events
    = Some (prefix ++ map (fieldValue cc) good ++ suffix, InvalidField).
Proof.
  intros Hbad. induction good as [|val good IH]; intros i prefix suffix events Hwire Hlen.
  - now apply processFields_stops.
  - simpl in Hwire. apply andb_prop in Hwire as [Hval Hrest].
    destruct (isWireField_Atoi val Hval) as (rawValue & Hparse & Hrange & Hle).
    assert (Hvalue : fieldValue cc val = scaleRaw (InvertSliders cc) rawValue)
      by (unfold fieldValue; now rewrite Hparse).
    rewrite <- app_comm_cons. cbn [length replicate processFields app]. rewrite Hparse, Hle.
    rewrite (list_lookup_middle prefix _ sentinel i) by now symmetry.
    rewrite (sentinel_always_significant rawValue _ _ Hrange), <- Hvalue.
    rewrite (insert_app_r_alt prefix _ i) by lia.
    replace (i - length prefix)%nat with 0%nat by lia.
    change (<[0%nat:=fieldValue cc val]> (sentinel :: replicate (length good) sentinel ++ suffix))
      with (fieldValue cc val :: replicate (length good) sentinel ++ suffix).
    rewrite (cons_middle (fieldValue cc val) prefix), app_assoc.
    rewrite (IH (S i) (prefix ++ [fieldValue cc val])) by
      (try exact Hrest; rewrite length_app; simpl; lia).
    now rewrite <- !app_assoc.
Qed.

(** X5. [processLine] on an accepted line whose count of fields is not the
    count last seen: the cache is reset to sentinels, the sliders of the
    fields before the one that stops the loop take the values of their
    fields, whatever the noise level and the inversion, and the sliders
    from that field on, the last slider among them, stay at the sentinel.
    No event is sent. *)
Theorem count_change_leaves_sentinels cc sio line :
  Regexp.MatchString expectedLinePattern line = true ->
  Z.of_nat (length (Split line "|")) <> lastKnownNumSliders sio ->
  exists good bad rest,
    Split line "|" = good ++ bad :: rest
    /\ forallb isWireField good = true
    /\ stopsTheLoop bad = true
    /\ processLine cc sio line
       = Some ({| lastKnownNumSliders := Z.of_nat (length (Split line "|"));
                  currentSliderPercentValues :=
                    map (fieldValue cc) good ++ replicate (S (length rest)) sentinel |}, []).
Proof.
  intros Hmatch Hcount.
  destruct (accepted_line_fields line Hmatch) as (good & bad & rest & Hfields & Hgood & Hbad).
  exists good, bad, rest.
  split; [exact Hfields|]. split; [exact Hgood|]. split; [exact Hbad|].
  rewrite (processLine_accepted cc sio line Hmatch).
  unfold startCache. apply Z.eqb_neq in Hcount. rewrite Hcount.
  rewrite Hfields at 1 2.
  replace (replicate (length (good ++ bad :: rest)) sentinel)
    with ([] ++ replicate (length good) sentinel ++ replicate (S (length rest)) sentinel)
    by (now rewrite length_app, replicate_add).
  now rewrite (processFields_sentinels_until_stop cc bad rest good Hbad 0 [] _ [] Hgood eq_refl).
Qed.

Lemma count_change_leaves_sentinels_witness :
  Regexp.MatchString expectedLinePattern sampleLine = true
  /\ Z.of_nat (length (Split sampleLine "|")) <> lastKnownNumSliders threeSliders
  /\ exists good bad rest,
       Split sampleLine "|" = good ++ bad :: rest
       /\ processLine sampleConfig threeSliders sampleLine
          = Some ({| lastKnownNumSliders := Z.of_nat (length (Split sampleLine "|"));
                     currentSliderPercentValues :=
                       map (fieldValue sampleConfig) good
                       ++ replicate (S (length rest)) sentinel |}, []).
Proof.
  assert (Hmatch : Regexp.MatchString expectedLinePattern sampleLine = true) by reflexivity.
  assert (Hcount : Z.of_nat (length (Split sampleLine "|"))
                   <> lastKnownNumSliders threeSliders) by (vm_compute; discriminate).
  split; [exact Hmatch|]. split; [exact Hcount|].
  destruct (count_change_leaves_sentinels sampleConfig threeSliders sampleLine Hmatch Hcount)
    as (good & bad & rest & Hfields & _ & _ & Hrun).
  exists good, bad, rest. split; [exact Hfields|exact Hrun].
Defined.

(* ===================================================================== *)
(** * Further properties of the normalization and of the change detection *)
(* ===================================================================== *)

(** The order of Go on numbers that are not negative. *)
Lemma fle_nonNegative (x y : spec_float) :
  nonNegative x = true -> nonNegative y = true ->
  fle x y = true
  <-> match x, y with
      | S754_zero _, _ => True
      | S754_finite _ _ _, S754_zero _ => False
      | S754_finite _ m e, S754_finite _ m' e' => e < e' \/ (e = e' /\ (m <= m')%positive)
      | _, _ => False
      end.
Proof.
  destruct x as [s|s| |[] m e], y as [s'|s'| |[] m' e']; simpl; try discriminate;
    intros _ _; unfold fle, SFleb; simpl; try tauto; try (split; [discriminate|tauto]).
  destruct (Z.compare_spec e e') as [Heq|Hlt|Hgt].
  - fold (Pos.compare m m'). destruct (Pos.compare_spec m m') as [Hm|Hm|Hm].
    + split; [intros _; right; split; [exact Heq|lia]|reflexivity].
    + split; [intros _; right; split; [exact Heq|lia]|reflexivity].
    + split; [discriminate|]. intros [?|[_ ?]]; lia.
  - split; [intros _; now left|reflexivity].
  - split; [discriminate|]. intros [?|[? _]]; lia.
Qed.

Lemma fle_refl (x : spec_float) : nonNegative x = true -> fle x x = true.
Proof.
  intros Hx. apply (fle_nonNegative x x Hx Hx).
  destruct x as [s|s| |s m e]; try discriminate; [exact I|]. right. split; [reflexivity|lia].
Qed.

Lemma fle_trans (x y z : spec_float) :
  nonNegative x = true -> nonNegative y = true -> nonNegative z = true ->
  fle x y = true -> fle y z = true -> fle x z = true.
Proof.
  intros Hx Hy Hz Hxy Hyz.
  apply (fle_nonNegative x y Hx Hy) in Hxy. apply (fle_nonNegative y z Hy Hz) in Hyz.
  apply (fle_nonNegative x z Hx Hz).
  destruct x as [s|s| |s m e], y as [s'|s'| |s' m' e'], z as [s''|s''| |s'' m'' e''];
    try discriminate; try exact I; try contradiction.
  destruct Hxy as [?|[? ?]], Hyz as [?|[? ?]]; [left|left|left|right; split]; lia.
Qed.

Lemma fle_zero (x : spec_float) : nonNegative x = true -> fle (F32.ofZ 0) x = true.
Proof.
  intros Hx. change (F32.ofZ 0) with (S754_zero false).
  now destruct x as [s|s| |[] m e].
Qed.

(** The hundredths, each checked by evaluation. *)
Lemma travelCheck_all : forallb travelCheck (map Z.of_nat (seq 0 101)) = true.
Proof. vm_cast_no_check (eq_refl true). Qed.

Lemma renormalizeCheck_all : forallb renormalizeCheck (map Z.of_nat (seq 0 101)) = true.
Proof. vm_cast_no_check (eq_refl true). Qed.

Lemma decoded_nonNegative invert k :
  0 <= k <= 100 -> nonNegative (decoded invert k) = true.
Proof.
  intros Hk.
  pose proof (forallb_Z_range travelCheck 101 travelCheck_all k ltac:(lia)) as H.
  unfold travelCheck in H. cbv zeta in H.
  apply andb_prop in H as [H _]. apply andb_prop in H as [Hplain Hinverted].
  now destruct invert.
Qed.

(** The values of the hundredths are in order, and in the opposite order
    with inversion. *)
Lemma decoded_in_order (n : nat) :
  forall k, 0 <= k -> k + Z.of_nat n <= 100 ->
  fle (decoded false k) (decoded false (k + Z.of_nat n)) = true
  /\ fle (decoded true (k + Z.of_nat n)) (decoded true k) = true.
Proof.
  induction n as [|n IH]; intros k Hk Hn.
  - rewrite Z.add_0_r. split; apply fle_refl, decoded_nonNegative; lia.
  - destruct (IH (k + 1) ltac:(lia) ltac:(lia)) as [Hplain Hinverted].
    replace (k + 1 + Z.of_nat n) with (k + Z.of_nat (S n)) in Hplain, Hinverted by lia.
    pose proof (forallb_Z_range travelCheck 101 travelCheck_all k ltac:(lia)) as H.
    unfold travelCheck in H. cbv zeta in H.
    apply andb_prop in H as [_ H]. apply orb_prop in H as [H|H];
      [apply Z.eqb_eq in H; lia|].
    apply andb_prop in H as [Hstep Hstep'].
    split.
    + apply (fle_trans _ (decoded false (k + 1))); try apply decoded_nonNegative;
        try lia; assumption.
    + apply (fle_trans _ (decoded true (k + 1))); try apply decoded_nonNegative;
        try lia; assumption.
Qed.

(** X7. The value of a slider follows its reading: a higher raw reading
    never gives a lower value, nor, with inversion, a higher one; the
    inverted values lie between 0 and 1 as the plain ones do; and the ends
    of the travel are exact, raw 0 and raw 1023 giving 0 and 1, or 1 and 0
    with inversion. *)
Theorem decoder_value_follows_reading raw raw' :
  0 <= raw -> raw <= raw' -> raw' <= 1023 ->
  fle (scaleRaw false raw) (scaleRaw false raw') = true
  /\ fle (scaleRaw true raw') (scaleRaw true raw) = true
  /\ fle (F32.ofZ 0) (scaleRaw true raw) = true
  /\ fle (scaleRaw true raw) (F32.ofZ 1) = true
  /\ scaleRaw false 0 = F32.ofZ 0 /\ scaleRaw false 1023 = F32.ofZ 1
  /\ scaleRaw true 0 = F32.ofZ 1 /\ scaleRaw true 1023 = F32.ofZ 0.
Proof.
  intros H0 Hle H1023.
  assert (Hends : scaleRaw false 0 = F32.ofZ 0 /\ scaleRaw false 1023 = F32.ofZ 1
                  /\ scaleRaw true 0 = F32.ofZ 1 /\ scaleRaw true 1023 = F32.ofZ 0)
    by (repeat split; vm_compute; reflexivity).
  assert (Hk : hundredthOf raw <= hundredthOf raw').
  { unfold hundredthOf. apply Z.div_le_mono; lia. }
  pose proof (hundredthOf_range raw ltac:(lia)) as Hrange.
  pose proof (hundredthOf_range raw' ltac:(lia)) as Hrange'.
  destruct (decoded_in_order (Z.to_nat (hundredthOf raw' - hundredthOf raw))
              (hundredthOf raw) ltac:(lia) ltac:(lia)) as [Hplain Hinverted].
  replace (hundredthOf raw + Z.of_nat (Z.to_nat (hundredthOf raw' - hundredthOf raw)))
    with (hundredthOf raw') in Hplain, Hinverted by lia.
  destruct (decoded_in_order (Z.to_nat (hundredthOf raw)) 0 ltac:(lia) ltac:(lia))
    as [_ Htop].
  replace (0 + Z.of_nat (Z.to_nat (hundredthOf raw))) with (hundredthOf raw) in Htop by lia.
  assert (Hone : decoded true 0 = F32.ofZ 1) by (vm_compute; reflexivity).
  rewrite Hone in Htop.
  rewrite <- (scaleRaw_decoded raw true) in Htop by lia.
  rewrite <- !scaleRaw_decoded in Hplain, Hinverted by lia.
  destruct Hends as (Hlow & Hhigh & Hlow' & Hhigh').
  split; [exact Hplain|]. split; [exact Hinverted|].
  split; [apply fle_zero; rewrite scaleRaw_decoded by lia;
          apply decoded_nonNegative; lia|].
  split; [exact Htop|]. now repeat split.
Qed.

Lemma decoder_value_follows_reading_witness :
  0 <= 100 /\ 100 <= 900 /\ 900 <= 1023
  /\ fle (scaleRaw false 100) (scaleRaw false 900) = true.
Proof.
  split; [lia|]. split; [lia|]. split; [lia|].
  exact (proj1 (decoder_value_follows_reading 100 900 ltac:(lia) ltac:(lia) ltac:(lia))).
Defined.

(** [differsAt] by the distance and the ends of the travel. *)
Lemma differsAt_distance threshold old new :
  differsAt threshold old new
  = fge (distance old new) threshold
    || ((almostEquals new (F32.ofZ 1) && fne old (F32.ofZ 1))
        || (almostEquals new (F32.ofZ 0) && fne old (F32.ofZ 0))).
Proof.
  unfold differsAt, distance.
  destruct (fge _ threshold); [reflexivity|].
  now destruct (_ || _).
Qed.

(** The pairs of hundredths, checked by evaluation. *)
Lemma debounceTable_plain : debounceTable false = true.
Proof. vm_cast_no_check (eq_refl true). Qed.

Lemma debounceTable_inverted : debounceTable true = true.
Proof. vm_cast_no_check (eq_refl true). Qed.

Lemma debounceTable_pair invert k k' :
  debounceTable invert = true ->
  0 <= k <= 100 -> 0 <= k' <= 100 ->
  pairCheck (F64.lit 35 1000) (F64.lit 15 1000) (F64.lit 25 1000)
    (entryOf invert k) (entryOf invert k') = true.
Proof.
  intros Htable Hk Hk'. unfold debounceTable in Htable. cbv zeta in Htable.
  assert (Hin : forall j, 0 <= j <= 100 ->
            In (entryOf invert j) (map (entryOf invert) (map Z.of_nat (seq 0 101)))).
  { intros j Hj. apply in_map, in_map_iff. exists (Z.to_nat j). split; [lia|].
    apply in_seq. lia. }
  rewrite forallb_forall in Htable. specialize (Htable _ (Hin k Hk)).
  rewrite forallb_forall in Htable. exact (Htable _ (Hin k' Hk')).
Qed.

(** X6. The debounce, read in hundredths: between two readings of a slider
    the decoder sees a significant change exactly when the hundredth moved
    by at least 2 (level low), 3 (any other level) or 4 (level high), or
    when the new reading is at an end of the travel, hundredth 0 or 100,
    and the old one was at another hundredth; with or without inversion. *)
Theorem debounce_in_hundredths raw raw' invert level :
  0 <= raw <= 1023 -> 0 <= raw' <= 1023 ->
  SignificantlyDifferent (scaleRaw invert raw) (scaleRaw invert raw') level
  = letThrough (stepsOf level) (hundredthOf raw) (hundredthOf raw').
Proof.
  intros Hraw Hraw'.
  rewrite !scaleRaw_decoded by assumption.
  pose proof (hundredthOf_range raw Hraw) as Hk.
  pose proof (hundredthOf_range raw' Hraw') as Hk'.
  assert (Hpair : pairCheck (F64.lit 35 1000) (F64.lit 15 1000) (F64.lit 25 1000)
                    (entryOf invert (hundredthOf raw)) (entryOf invert (hundredthOf raw'))
                  = true).
  { apply debounceTable_pair; [|lia|lia].
    destruct invert; [exact debounceTable_inverted|exact debounceTable_plain]. }
  unfold pairCheck, entryOf in Hpair. cbv zeta in Hpair.
  cbn [hundredth value nearOne notOne nearZero notZero] in Hpair.
  apply andb_prop in Hpair as [Hpair H25]. apply andb_prop in Hpair as [H35 H15].
  apply Bool.eqb_prop in H35, H15, H25.
  rewrite SignificantlyDifferent_differsAt, differsAt_distance.
  unfold getSignificantDifferenceThreshold, stepsOf.
  destruct (String.eqb level noiseReductionHigh); [exact H35|].
  destruct (String.eqb level noiseReductionLow); [exact H15|exact H25].
Qed.

Lemma debounce_in_hundredths_witness :
  0 <= 512 <= 1023 /\ 0 <= 540 <= 1023
  /\ SignificantlyDifferent (scaleRaw false 512) (scaleRaw false 540) "default"
     = letThrough (stepsOf "default") (hundredthOf 512) (hundredthOf 540).
Proof.
  split; [lia|]. split; [lia|].
  apply debounce_in_hundredths; lia.
Defined.

(** X8. [NormalizeScalar] is not idempotent. Applied to the value the
    decoder computed for a raw reading, it returns that value when the
    [float32] of the hundredth is not below the hundredth, and one
    hundredth less when it is; so 0.01, as a [float32] a little under
    0.01, becomes 0.00. *)
Theorem renormalizing_may_lose_a_hundredth raw :
  0 <= raw <= 1023 ->
  let k := hundredthOf raw in
  NormalizeScalar (NormalizeScalar (F32.div (F32.ofZ raw) (F32.ofZ 1023)))
  = hundredths (if roundedBelow k then k - 1 else k)
  /\ (raw = 11 ->
      NormalizeScalar (F32.div (F32.ofZ raw) (F32.ofZ 1023)) = hundredths 1
      /\ NormalizeScalar (NormalizeScalar (F32.div (F32.ofZ raw) (F32.ofZ 1023)))
         = hundredths 0).
Proof.
  intros Hraw k.
  pose proof (scaleRaw_decoded raw false Hraw) as Hvalue.
  unfold scaleRaw, decoded in Hvalue. fold k in Hvalue.
  assert (Hcheck : renormalizeCheck k = true).
  { apply (forallb_Z_range renormalizeCheck 101 renormalizeCheck_all).
    now apply hundredthOf_range. }
  unfold renormalizeCheck in Hcheck. apply sf_same_eq in Hcheck.
  split.
  - now rewrite Hvalue.
  - intros ->. split; vm_compute; reflexivity.
Qed.

Lemma renormalizing_may_lose_a_hundredth_witness :
  0 <= 11 <= 1023
  /\ NormalizeScalar (NormalizeScalar (F32.div (F32.ofZ 11) (F32.ofZ 1023))) = hundredths 0.
Proof.
  split; [lia|].
  exact (proj2 (proj2 (renormalizing_may_lose_a_hundredth 11 ltac:(lia)) eq_refl)).
Defined.

(* ===================================================================== *)
(** * Further properties of the slider mapping *)
(* ===================================================================== *)

(** The target lists filed under an index, in another order of
    iteration. *)
Lemma targetsOf_Permutation idx (mapping mapping' : configMapping) :
  mapping ≡ₚ mapping' -> targetsOf idx mapping ≡ₚ targetsOf idx mapping'.
Proof. intros Hperm. unfold targetsOf. now rewrite Hperm. Qed.

Lemma targetsOf_reordered idx (mapping mapping' : configMapping) :
  mapping ≡ₚ mapping' ->
  (length (targetsOf idx mapping) <= 1)%nat ->
  targetsOf idx mapping' = targetsOf idx mapping.
Proof.
  intros Hperm Hone. apply (targetsOf_Permutation idx) in Hperm.
  destruct (targetsOf idx mapping) as [|ts [|? ?]]; simpl in Hone; [| |lia].
  - now apply Permutation_nil_l in Hperm.
  - now apply Permutation_singleton_l in Hperm.
Qed.

(** X9. The merged mapping does not depend on the order in which the two
    configuration maps are ranged over, as long as no two keys of a map
    denote the same slider; when two keys do, as [1] and [01], the order
    decides which targets the slider gets. *)
Theorem merge_is_order_independent :
  (forall userMapping userMapping' internalMapping internalMapping' : configMapping,
      userMapping ≡ₚ userMapping' ->
      internalMapping ≡ₚ internalMapping' ->
      (forall idx, (length (targetsOf idx userMapping) <= 1)%nat) ->
      (forall idx, (length (targetsOf idx internalMapping) <= 1)%nat) ->
      SliderMap.sliderMapFromConfigs userMapping internalMapping
      = SliderMap.sliderMapFromConfigs userMapping' internalMapping')
  /\ SliderMap.sliderMapFromConfigs [("1", ["a"]); ("01", ["b"])] [] !! 1 = Some ["b"]
  /\ SliderMap.sliderMapFromConfigs [("01", ["b"]); ("1", ["a"])] [] !! 1 = Some ["a"].
Proof.
  split; [|split; vm_compute; reflexivity].
  intros userMapping userMapping' internalMapping internalMapping' Huser Hinternal Hu Hi.
  apply map_eq. intros idx.
  rewrite !sliderMapFromConfigs_lookup.
  rewrite (targetsOf_reordered idx _ _ Huser (Hu idx)).
  now rewrite (targetsOf_reordered idx _ _ Hinternal (Hi idx)).
Qed.

Lemma merge_is_order_independent_witness :
  [("0", ["master"]); ("1", ["chrome.exe"])] ≡ₚ [("1", ["chrome.exe"]); ("0", ["master"])]
  /\ ([] : configMapping) ≡ₚ []
  /\ (forall idx, (length (targetsOf idx [("0", ["master"]); ("1", ["chrome.exe"])]) <= 1)%nat)
  /\ (forall idx, (length (targetsOf idx []) <= 1)%nat)
  /\ SliderMap.sliderMapFromConfigs [("0", ["master"]); ("1", ["chrome.exe"])] []
     = SliderMap.sliderMapFromConfigs [("1", ["chrome.exe"]); ("0", ["master"])] [].
Proof.
  assert (Huser : [("0", ["master"]); ("1", ["chrome.exe"])]
                  ≡ₚ [("1", ["chrome.exe"]); ("0", ["master"])]) by apply Permutation_swap.
  assert (Hu : forall idx,
             (length (targetsOf idx [("0", ["master"]); ("1", ["chrome.exe"])]) <= 1)%nat).
  { intros idx. rewrite !targetsOf_cons.
    change (Atoi ("0", ["master"]).1) with (Some 0).
    change (Atoi ("1", ["chrome.exe"]).1) with (Some 1).
    repeat case_decide; simpl; try lia; congruence. }
  assert (Hi : forall idx, (length (targetsOf idx []) <= 1)%nat) by (intros idx; simpl; lia).
  split; [exact Huser|]. split; [reflexivity|]. split; [exact Hu|]. split; [exact Hi|].
  exact (proj1 merge_is_order_independent _ _ _ _ Huser (Permutation_refl []) Hu Hi).
Defined.

(** The lists filed under an index are those of the entries whose key
    parses to it. *)
Lemma elem_of_targetsOf idx (mapping : configMapping) (targets : list string) :
  targets ∈ targetsOf idx mapping
  <-> exists entry, entry ∈ mapping /\ Atoi entry.1 = Some idx /\ entry.2 = targets.
Proof.
  unfold targetsOf. rewrite list_elem_of_fmap. split.
  - intros (entry & -> & Hin). apply list_elem_of_filter in Hin as [Hkey Hin].
    now exists entry.
  - intros (entry & Hin & Hkey & <-). exists entry. split; [reflexivity|].
    now apply list_elem_of_filter.
Qed.

(** What [appendFresh] holds: the targets present, and the non-empty
    targets added. *)
Lemma elem_of_appendFresh existingTargets targets target :
  target ∈ appendFresh existingTargets targets ->
  target ∈ existingTargets \/ (target ∈ targets /\ target ≠ EmptyString).
Proof.
  unfold appendFresh, FilterString. rewrite elem_of_app.
  intros [Hin|Hin]; [now left|right].
  apply list_elem_of_In, filter_In in Hin as [Hin Hkeep].
  apply andb_prop in Hkeep as [Hkeep _].
  split; [now apply list_elem_of_In|now apply isNonEmpty_spec].
Qed.

Lemma elem_of_foldl_appendFresh added :
  forall existingTargets target,
    target ∈ foldl appendFresh existingTargets added ->
    target ∈ existingTargets
    \/ exists targets, targets ∈ added /\ target ∈ targets /\ target ≠ EmptyString.
Proof.
  induction added as [|ts added IH]; intros existingTargets target Hin; [now left|].
  simpl in Hin. apply IH in Hin as [Hin|(targets & Hadded & Hin & Hne)].
  - apply elem_of_appendFresh in Hin as [Hin|[Hin Hne]]; [now left|right].
    exists ts. split; [now left|now split].
  - right. exists targets. split; [now right|now split].
Qed.

(** X10. Whatever the two configuration maps hold, the merged mapping has an
    entry for a slider exactly when a key of one of them parses to its
    index, and every target of the entry is a non-empty string listed
    under such a key. *)
Theorem merged_targets_come_from_the_sources
    (userMapping internalMapping : configMapping) (idx : Z) :
  (is_Some (SliderMap.sliderMapFromConfigs userMapping internalMapping !! idx)
   <-> exists entry, entry ∈ userMapping ++ internalMapping /\ Atoi entry.1 = Some idx)
  /\ forall targets target,
       SliderMap.sliderMapFromConfigs userMapping internalMapping !! idx = Some targets ->
       target ∈ targets ->
       target ≠ EmptyString
       /\ exists entry, entry ∈ userMapping ++ internalMapping
                        /\ Atoi entry.1 = Some idx /\ target ∈ entry.2.
Proof.
  rewrite sliderMapFromConfigs_lookup. cbv zeta.
  assert (Huser : forall us target,
            last (targetsOf idx userMapping) = Some us ->
            target ∈ FilterString us SliderMap.isNonEmpty ->
            target ≠ EmptyString
            /\ exists entry, entry ∈ userMapping ++ internalMapping
                             /\ Atoi entry.1 = Some idx /\ target ∈ entry.2).
  { intros us target Hlast Hin.
    apply list_elem_of_In, filter_In in Hin as [Hin Hne].
    split; [now apply isNonEmpty_spec|].
    apply last_Some_elem_of, elem_of_targetsOf in Hlast as (entry & Hentry & Hkey & <-).
    exists entry. split; [apply elem_of_app; now left|].
    split; [exact Hkey|now apply list_elem_of_In]. }
  assert (Hinternal : forall ts target,
            ts ∈ targetsOf idx internalMapping -> target ∈ ts ->
            exists entry, entry ∈ userMapping ++ internalMapping
                          /\ Atoi entry.1 = Some idx /\ target ∈ entry.2).
  { intros ts target Hts Hin.
    apply elem_of_targetsOf in Hts as (entry & Hentry & Hkey & <-).
    exists entry. split; [apply elem_of_app; now right|now split]. }
  split.
  - split.
    + intros Hsome.
      destruct (targetsOf idx internalMapping) as [|ts added] eqn:Hadded.
      * destruct (last (targetsOf idx userMapping)) as [us|] eqn:Hlast;
          [|now destruct Hsome].
        apply last_Some_elem_of, elem_of_targetsOf in Hlast as (entry & Hentry & Hkey & _).
        exists entry. split; [apply elem_of_app; now left|exact Hkey].
      * assert (Hts : ts ∈ targetsOf idx internalMapping) by (rewrite Hadded; now left).
        apply elem_of_targetsOf in Hts as (entry & Hentry & Hkey & _).
        exists entry. split; [apply elem_of_app; now right|exact Hkey].
    + intros (entry & Hentry & Hkey).
      destruct (targetsOf idx internalMapping) as [|ts added] eqn:Hadded; [|eauto].
      apply elem_of_app in Hentry as [Hentry|Hentry].
      * assert (Hin : entry.2 ∈ targetsOf idx userMapping)
          by (apply elem_of_targetsOf; now exists entry).
        destruct (targetsOf idx userMapping) as [|us rest] eqn:Huser';
          [now apply elem_of_nil in Hin|].
        destruct (last (us :: rest)) eqn:Hlast; [eauto|].
        now apply last_None in Hlast.
      * assert (Hin : entry.2 ∈ targetsOf idx internalMapping)
          by (apply elem_of_targetsOf; now exists entry).
        rewrite Hadded in Hin. now apply elem_of_nil in Hin.
  - intros targets target Hlookup Hin.
    destruct (targetsOf idx internalMapping) as [|ts added] eqn:Hadded.
    + destruct (last (targetsOf idx userMapping)) as [us|] eqn:Hlast; [|discriminate].
      injection Hlookup as <-. now apply (Huser us).
    + injection Hlookup as <-.
      apply (elem_of_foldl_appendFresh (ts :: added)) in Hin
        as [Hin|(targets & Hts & Hin & Hne)].
      * destruct (last (targetsOf idx userMapping)) as [us|] eqn:Hlast; simpl in Hin;
          [now apply (Huser us)|now apply elem_of_nil in Hin].
      * split; [exact Hne|]. now apply (Hinternal targets).
Qed.

Lemma merged_targets_come_from_the_sources_witness :
  SliderMap.sliderMapFromConfigs [("0", ["a"; ""])] [("0", ["b"])] !! 0 = Some ["a"; "b"]
  /\ "b" ∈ ["a"; "b"]
  /\ "b" ≠ EmptyString.
Proof.
  assert (Hlookup : SliderMap.sliderMapFromConfigs [("0", ["a"; ""])] [("0", ["b"])] !! 0
                    = Some ["a"; "b"]) by (vm_compute; reflexivity).
  assert (Hin : "b" ∈ ["a"; "b"]) by (right; left).
  split; [exact Hlookup|]. split; [exact Hin|].
  exact (proj1 (proj2 (merged_targets_come_from_the_sources
                         [("0", ["a"; ""])] [("0", ["b"])] 0) ["a"; "b"] "b" Hlookup Hin)).
Defined.

(** [appendFresh] keeps a list free of duplicates so, when the list added
    is. *)
Lemma NoDup_appendFresh existingTargets targets :
  NoDup existingTargets -> NoDup targets -> NoDup (appendFresh existingTargets targets).
Proof.
  intros Hexisting Htargets. unfold appendFresh, FilterString.
  apply NoDup_app. split; [exact Hexisting|]. split.
  - intros target Hin Hadded.
    apply list_elem_of_In, filter_In in Hadded as [_ Hkeep].
    apply andb_prop in Hkeep as [_ Hfresh]. apply negb_true_iff in Hfresh.
    apply ContainsString_spec in Hin. congruence.
  - apply NoDup_ListNoDup, List.NoDup_filter, NoDup_ListNoDup, Htargets.
Qed.

Lemma NoDup_foldl_appendFresh added :
  forall existingTargets,
    NoDup existingTargets -> Forall NoDup added ->
    NoDup (foldl appendFresh existingTargets added).
Proof.
  induction added as [|ts added IH]; intros existingTargets Hexisting Hadded; [exact Hexisting|].
  simpl. apply Forall_cons in Hadded as [Hts Hadded].
  apply IH; [now apply NoDup_appendFresh|exact Hadded].
Qed.

(** X11. The merge adds no duplicate of its own: when the lists filed under
    the keys of a slider are each free of duplicates, so are the merged
    targets of the slider. A target repeated within one list stays
    repeated, in the user configuration as in the internal one. *)
Theorem merge_adds_no_duplicate :
  (forall (userMapping internalMapping : configMapping) (idx : Z) (targets : list string),
      SliderMap.sliderMapFromConfigs userMapping internalMapping !! idx = Some targets ->
      (forall entry, entry ∈ userMapping ++ internalMapping ->
                     Atoi entry.1 = Some idx -> NoDup entry.2) ->
      NoDup targets)
  /\ SliderMap.sliderMapFromConfigs [("0", ["a"; "a"])] [] !! 0 = Some ["a"; "a"]
  /\ SliderMap.sliderMapFromConfigs [("0", ["a"])] [("0", ["b"; "a"; "b"])] !! 0
     = Some ["a"; "b"; "b"].
Proof.
  split; [|split; vm_compute; reflexivity].
  intros userMapping internalMapping idx targets Hlookup Hsources.
  rewrite sliderMapFromConfigs_lookup in Hlookup. cbv zeta in Hlookup.
  assert (Huser : NoDup (default [] ((fun targets => FilterString targets SliderMap.isNonEmpty)
                                       <$> last (targetsOf idx userMapping)))).
  { destruct (last (targetsOf idx userMapping)) as [us|] eqn:Hlast; [|constructor].
    simpl. apply NoDup_ListNoDup, List.NoDup_filter, NoDup_ListNoDup.
    apply last_Some_elem_of, elem_of_targetsOf in Hlast as (entry & Hentry & Hkey & <-).
    apply Hsources; [apply elem_of_app; now left|exact Hkey]. }
  assert (Hinternal : Forall NoDup (targetsOf idx internalMapping)).
  { apply Forall_forall. intros ts Hts.
    apply elem_of_targetsOf in Hts as (entry & Hentry & Hkey & <-).
    apply Hsources; [apply elem_of_app; now right|exact Hkey]. }
  destruct (targetsOf idx internalMapping) as [|ts added].
  - rewrite Hlookup in Huser. exact Huser.
  - injection Hlookup as <-.
    apply (NoDup_foldl_appendFresh (ts :: added)); assumption.
Qed.

Lemma merge_adds_no_duplicate_witness :
  SliderMap.sliderMapFromConfigs [("0", ["a"; ""])] [("0", ["b"; "a"])] !! 0 = Some ["a"; "b"]
  /\ NoDup ["a"; "b"].
Proof.
  assert (Hlookup : SliderMap.sliderMapFromConfigs [("0", ["a"; ""])] [("0", ["b"; "a"])] !! 0
                    = Some ["a"; "b"]) by (vm_compute; reflexivity).
  split; [exact Hlookup|].
  apply (proj1 merge_adds_no_duplicate [("0", ["a"; ""])] [("0", ["b"; "a"])] 0 _ Hlookup).
  intros entry Hentry _.
  apply elem_of_app in Hentry as [Hentry|Hentry];
    apply list_elem_of_singleton in Hentry as ->; simpl;
    apply NoDup_ListNoDup; repeat constructor; simpl; intuition discriminate.
Defined.

(* ===================================================================== *)
(** * Further properties of the session map *)
(* ===================================================================== *)

(** The population at [lowercaseConfig]. *)
Lemma unmapped_resolution_plain_witness :
  plainMapping lowercaseConfig
  /\ GetAllSessions chromeWorld (discoveryQueries newSessionMap)
     = Some [masterAt80; chromeAt30]
  /\ unmappedSessions (fst (getAndAddSessions chromeWorld lowercaseConfig newSessionMap))
     = uncoveredSessions lowercaseConfig [masterAt80; chromeAt30].
Proof.
  assert (Hfound : GetAllSessions chromeWorld (discoveryQueries newSessionMap)
                   = Some [masterAt80; chromeAt30]) by reflexivity.
  split; [exact lowercaseConfig_plain|]. split; [exact Hfound|].
  exact (proj1 (proj2 (unmapped_resolution_plain chromeWorld lowercaseConfig
                         [masterAt80; chromeAt30] newSessionMap
                         lowercaseConfig_plain Hfound))).
Defined.

(** The sessions registered, key by key. *)
Lemma register_all_lookup (sessions : list Session) :
  forall (stored : gmap string (list Session)) (key : string),
    foldl register stored sessions !! key
    = match sessionsKeyed key sessions with
      | [] => stored !! key
      | found => Some (default [] (stored !! key) ++ found)
      end.
Proof.
  induction sessions as [|session rest IH]; intros stored key; [reflexivity|].
  simpl. rewrite IH. unfold register.
  destruct (String.eqb (Key session) key) eqn:Hkey.
  - apply String.eqb_eq in Hkey. subst key.
    destruct (stored !! Key session) as [existing|] eqn:Hstored;
      rewrite lookup_insert_eq; simpl.
    + destruct (sessionsKeyed (Key session) rest); [reflexivity|].
      now rewrite <- app_assoc.
    + destruct (sessionsKeyed (Key session) rest); reflexivity.
  - apply String.eqb_neq in Hkey.
    destruct (stored !! Key session) as [existing|] eqn:Hstored;
      rewrite lookup_insert_ne by exact Hkey; reflexivity.
Qed.

(** One round of the population with a mapping of plain targets, on every
    field of the map. *)
Lemma trackSession_plain_state W cc session (s : SessionMap.t) :
  plainMapping cc ->
  trackSession W cc session s
  = ({| m := register (m s) session;
        lastSessionRefresh := lastSessionRefresh s;
        unmappedSessions := unmappedSessions s ++ uncoveredSessions cc [session];
        clockReadings := clockReadings s;
        discoveryQueries := discoveryQueries s;
        released := released s;
        logged := logged s ++ map (fun _ => (Debug, "Tracking unmapped session"))
                                  (uncoveredSessions cc [session]) |}, Some tt).
Proof.
  intros Hplain.
  destruct s as [m0 last0 unmapped0 reads0 queries0 released0 logged0].
  unfold trackSession, uncoveredSessions. simpl List.filter.
  unfold mbind at 1, M_bind at 1.
  assert (Hadd : add session {| m := m0; lastSessionRefresh := last0;
                                unmappedSessions := unmapped0; clockReadings := reads0;
                                discoveryQueries := queries0; released := released0;
                                logged := logged0 |}
                 = ({| m := register m0 session; lastSessionRefresh := last0;
                       unmappedSessions := unmapped0; clockReadings := reads0;
                       discoveryQueries := queries0; released := released0;
                       logged := logged0 |}, Some tt)).
  { unfold register. run_map. destruct (m0 !! Key session); reflexivity. }
  rewrite Hadd.
  unfold mbind at 1, M_bind at 1. rewrite (sessionMapped_plain W cc session _ Hplain).
  destruct (coveredKey cc (Key session)); simpl negb; cbv iota.
  - cbn. now rewrite !app_nil_r.
  - run_map. reflexivity.
Qed.

Lemma trackSessions_plain_state W cc sessions :
  plainMapping cc ->
  forall s : SessionMap.t,
    forEach sessions (trackSession W cc) s
    = ({| m := foldl register (m s) sessions;
          lastSessionRefresh := lastSessionRefresh s;
          unmappedSessions := unmappedSessions s ++ uncoveredSessions cc sessions;
          clockReadings := clockReadings s;
          discoveryQueries := discoveryQueries s;
          released := released s;
          logged := logged s ++ map (fun _ => (Debug, "Tracking unmapped session"))
                                    (uncoveredSessions cc sessions) |}, Some tt).
Proof.
  intros Hplain. induction sessions as [|session rest IH]; intros s.
  - destruct s. cbn. now rewrite !app_nil_r.
  - simpl forEach. unfold mbind, M_bind.
    rewrite (trackSession_plain_state W cc session s Hplain), IH. cbn.
    unfold uncoveredSessions. simpl List.filter.
    destruct (negb (coveredKey cc (Key session))); simpl;
      rewrite ?app_nil_r, <- ?app_assoc; reflexivity.
Qed.

(** X13. A refresh that is not skipped and whose discovery query succeeds
    replaces the registry by what the finder discovered, with a mapping of
    plain targets: the refresh ends normally, every session the map held
    is released, and a key holds the discovered sessions of that key, in
    the order of discovery, and nothing else. *)
Theorem refresh_replaces_the_registry W cc force sessions (s : SessionMap.t) :
  plainMapping cc ->
  refreshNotSkipped W force s ->
  GetAllSessions W (discoveryQueries s) = Some sessions ->
  let s' := fst (refreshSessions W cc force s) in
  snd (refreshSessions W cc force s) = Some tt
  /\ (forall key, m s' !! key = match sessionsKeyed key sessions with
                                | [] => None
                                | found => Some found
                                end)
  /\ released s' ≡ₚ released s ++ concat (map snd (map_to_list (m s)))
  /\ discoveryQueries s' = S (discoveryQueries s).
Proof.
  intros Hplain Hdue Hfound.
  destruct s as [m0 last0 unmapped0 reads0 queries0 released0 logged0].
  unfold refreshNotSkipped in Hdue. cbn in Hdue, Hfound. cbv zeta.
  assert (Hrun : exists logs reads,
            refreshSessions W cc force
              {| m := m0; lastSessionRefresh := last0; unmappedSessions := unmapped0;
                 clockReadings := reads0; discoveryQueries := queries0;
                 released := released0; logged := logged0 |}
            = ({| m := foldl register ∅ sessions;
                  lastSessionRefresh := timeNow W reads;
                  unmappedSessions := uncoveredSessions cc sessions;
                  clockReadings := S reads;
                  discoveryQueries := S queries0;
                  released := released0 ++ concat (map snd (map_to_list m0));
                  logged := logs |}, Some tt)).
  { destruct force.
    - run_map. rewrite Hfound.
      rewrite (trackSessions_plain_state W cc sessions Hplain). run_map.
      eexists _, _. reflexivity.
    - specialize (Hdue eq_refl). run_map. rewrite Hdue, Hfound.
      rewrite (trackSessions_plain_state W cc sessions Hplain). run_map.
      eexists _, _. reflexivity. }
  destruct Hrun as (logs & reads & ->). cbn.
  split; [reflexivity|]. split; [|now repeat split].
  intros key. rewrite register_all_lookup, lookup_empty. simpl.
  destruct (sessionsKeyed key sessions); reflexivity.
Qed.

Lemma refresh_replaces_the_registry_witness :
  plainMapping lowercaseConfig
  /\ refreshNotSkipped chromeWorld true populatedMap
  /\ GetAllSessions chromeWorld (discoveryQueries populatedMap) = Some [masterAt80; chromeAt30]
  /\ m (fst (refreshSessions chromeWorld lowercaseConfig true populatedMap)) !! "chrome.exe"
     = Some [chromeAt30]
  /\ released (fst (refreshSessions chromeWorld lowercaseConfig true populatedMap))
     ≡ₚ [masterAt80].
Proof.
  assert (Hdue : refreshNotSkipped chromeWorld true populatedMap) by (intros H; discriminate).
  assert (Hfound : GetAllSessions chromeWorld (discoveryQueries populatedMap)
                   = Some [masterAt80; chromeAt30]) by reflexivity.
  split; [exact lowercaseConfig_plain|]. split; [exact Hdue|]. split; [exact Hfound|].
  destruct (refresh_replaces_the_registry chromeWorld lowercaseConfig true
              [masterAt80; chromeAt30] populatedMap lowercaseConfig_plain Hdue Hfound)
    as (_ & Hkeys & Hreleased & _).
  split; [exact (Hkeys "chrome.exe")|exact Hreleased].
Defined.

(** ** The slider moves *)

(** The calls of [SetVolume] on the sessions of one key; they log
    nothing unless a call fails. *)
Lemma adjustSessions_run W value sessions :
  forall s : SessionMap.t,
  exists logs,
    adjustSessions W value sessions s
    = (withRegistry (m s) logs s,
       Some (map (adjusted W value) sessions, existsb (adjustmentFails W value) sessions))
    /\ ((forall session v, SetVolumeFails W session v = false) -> logs = logged s).
Proof.
  induction sessions as [|session rest IH]; intros s.
  - exists (logged s). now destruct s.
  - destruct s as [m0 last0 unmapped0 reads0 queries0 released0 logged0].
    simpl adjustSessions. cbn [map existsb].
    unfold adjusted at 1, adjustmentFails at 1. unfold withRegistry in *.
    destruct (fne (GetVolume session) value);
      [destruct (SetVolumeFails W session value) eqn:Hfails|].
    + destruct (IH {| m := m0; lastSessionRefresh := last0; unmappedSessions := unmapped0;
                      clockReadings := reads0; discoveryQueries := queries0;
                      released := released0;
                      logged := logged0 ++ [(Warn, "Failed to set target session volume")] |})
        as (logs & Hrest & _).
      exists logs. split.
      * run_map. cbn in Hrest. rewrite Hrest. reflexivity.
      * intros Hnone. rewrite Hnone in Hfails. discriminate.
    + destruct (IH {| m := m0; lastSessionRefresh := last0; unmappedSessions := unmapped0;
                      clockReadings := reads0; discoveryQueries := queries0;
                      released := released0; logged := logged0 |}) as (logs & Hrest & Hlogs).
      exists logs. split; [|exact Hlogs].
      run_map. cbn in Hrest. rewrite Hrest. reflexivity.
    + destruct (IH {| m := m0; lastSessionRefresh := last0; unmappedSessions := unmapped0;
                      clockReadings := reads0; discoveryQueries := queries0;
                      released := released0; logged := logged0 |}) as (logs & Hrest & Hlogs).
      exists logs. split; [|exact Hlogs].
      run_map. cbn in Hrest. rewrite Hrest. reflexivity.
Qed.

(** A literal target resolves to itself, lowercased, and asks nothing of
    the map. *)
Lemma resolveTarget_literal W target (s : SessionMap.t) :
  literalTarget target -> resolveTarget W target s = (s, Some [ToLower target]).
Proof. intros Hliteral. unfold resolveTarget. now rewrite Hliteral. Qed.

(** A state is itself with its own map and log entries. *)
Lemma withRegistry_same (s : SessionMap.t) : withRegistry (m s) (logged s) s = s.
Proof. now destruct s. Qed.

Lemma withRegistry_twice stored logs stored' logs' (s : SessionMap.t) :
  withRegistry stored' logs' (withRegistry stored logs s) = withRegistry stored' logs' s.
Proof. now destruct s. Qed.

(** The loop over the resolved keys. *)
Lemma adjustResolved_run W value keys (s0 : SessionMap.t) :
  forall flags stored logs,
  exists logs',
    adjustResolved W value keys flags (withRegistry stored logs s0)
    = (withRegistry (foldl (adjustStep W value) (stored, flags) keys).1 logs' s0,
       Some (foldl (adjustStep W value) (stored, flags) keys).2)
    /\ ((forall session v, SetVolumeFails W session v = false) -> logs' = logs).
Proof.
  induction keys as [|key rest IH]; intros flags stored logs.
  - exists logs. split; reflexivity.
  - simpl adjustResolved. simpl foldl. unfold adjustStep at 2 4. cbn [fst snd].
    unfold mbind at 1, M_bind at 1. unfold get, gets.
    replace (m (withRegistry stored logs s0)) with stored by now destruct s0.
    destruct (stored !! key) as [sessions|] eqn:Hfound; [|apply IH].
    destruct (adjustSessions_run W value sessions (withRegistry stored logs s0))
      as (logs1 & Hrun & Hlogs1).
    unfold mbind at 1, M_bind at 1. rewrite Hrun.
    replace (m (withRegistry stored logs s0)) with stored by now destruct s0.
    rewrite withRegistry_twice.
    destruct (IH (true, existsb (adjustmentFails W value) sessions || flags.2)
                 (<[key := map (adjusted W value) sessions]> stored) logs1)
      as (logs' & Hrest & Hlogs).
    exists logs'. split.
    + rewrite <- Hrest. destruct s0. reflexivity.
    + intros Hnone. rewrite (Hlogs Hnone). apply Hlogs1 in Hnone.
      rewrite Hnone. now destruct s0.
Qed.

(** The loops of [handleSliderMoveEvent] over targets that resolve to
    known keys without asking anything of the map. *)
Lemma adjustTargets_resolved W value (keysOf : string -> list string) targets
    (s0 : SessionMap.t) :
  (forall target, target ∈ targets ->
     forall stored logs,
       resolveTarget W target (withRegistry stored logs s0)
       = (withRegistry stored logs s0, Some (keysOf target))) ->
  forall flags stored logs,
  exists logs',
    adjustTargets W value targets flags (withRegistry stored logs s0)
    = (withRegistry
         (foldl (adjustStep W value) (stored, flags) (concat (map keysOf targets))).1 logs' s0,
       Some (foldl (adjustStep W value) (stored, flags) (concat (map keysOf targets))).2)
    /\ ((forall session v, SetVolumeFails W session v = false) -> logs' = logs).
Proof.
  induction targets as [|target rest IH]; intros Hresolve flags stored logs.
  - exists logs. split; reflexivity.
  - simpl adjustTargets. unfold mbind at 1, M_bind at 1.
    rewrite (Hresolve target) by now left.
    destruct (adjustResolved_run W value (keysOf target) s0 flags stored logs)
      as (logs1 & Hone & Hlogs1).
    unfold mbind at 1, M_bind at 1. rewrite Hone.
    destruct (foldl (adjustStep W value) (stored, flags) (keysOf target))
      as [stored1 flags1] eqn:Hfold.
    destruct (IH (fun target' Hin => Hresolve target' (list_elem_of_further _ _ _ Hin))
                 flags1 stored1 logs1) as (logs' & Hrest & Hlogs).
    exists logs'. simpl map. simpl concat. rewrite foldl_app, Hfold. split.
    + exact Hrest.
    + intros Hnone. rewrite (Hlogs Hnone). now apply Hlogs1.
Qed.

(** The same over literal targets. *)
Lemma adjustTargets_literal W value targets :
  Forall literalTarget targets ->
  forall flags (s : SessionMap.t),
  exists logs,
    adjustTargets W value targets flags s
    = (withRegistry (foldl (adjustStep W value) (m s, flags) (map ToLower targets)).1 logs s,
       Some (foldl (adjustStep W value) (m s, flags) (map ToLower targets)).2)
    /\ ((forall session v, SetVolumeFails W session v = false) -> logs = logged s).
Proof.
  intros Hliteral flags s.
  destruct (adjustTargets_resolved W value (fun target => [ToLower target]) targets s) with
    (flags := flags) (stored := m s) (logs := logged s) as (logs & Hrun & Hlogs).
  { intros target Hin stored logs. apply resolveTarget_literal.
    rewrite Forall_forall in Hliteral. now apply Hliteral. }
  exists logs. rewrite withRegistry_same in Hrun.
  replace (concat (map (fun target => [ToLower target]) targets)) with (map ToLower targets)
    in Hrun; [now split|].
  clear. induction targets as [|target rest IH]; [reflexivity|]. simpl. now rewrite IH.
Qed.

(** The map after the steps, key by key: the sessions of a key among the
    steps are adjusted, those of another key are as they were. *)
Lemma adjusted_idempotent W value session :
  adjusted W value (adjusted W value session) = adjusted W value session.
Proof.
  unfold adjusted.
  destruct (fne (GetVolume session) value) eqn:Hdiff.
  - destruct (SetVolumeFails W session value) eqn:Hfails.
    + now rewrite Hdiff, Hfails.
    + cbn [Key GetVolume]. destruct (fne value value); [|reflexivity].
      now destruct (SetVolumeFails W {| Key := Key session; GetVolume := value |} value).
  - now rewrite Hdiff.
Qed.

Lemma adjustSteps_lookup W value keys :
  forall stored flags key,
    (foldl (adjustStep W value) (stored, flags) keys).1 !! key
    = if bool_decide (key ∈ keys) then map (adjusted W value) <$> stored !! key
      else stored !! key.
Proof.
  induction keys as [|k rest IH]; intros stored flags key; [reflexivity|].
  simpl foldl. unfold adjustStep at 2. cbn [fst snd].
  destruct (stored !! k) as [sessions|] eqn:Hk.
  - rewrite IH. destruct (decide (key = k)) as [->|Hne].
    + rewrite lookup_insert_eq, Hk. simpl.
      rewrite (bool_decide_eq_true_2 (k ∈ k :: rest)) by now left.
      case_bool_decide; [|reflexivity].
      f_equal. rewrite map_map. apply map_ext. intros session.
      apply adjusted_idempotent.
    + rewrite lookup_insert_ne by congruence.
      rewrite (bool_decide_ext (key ∈ k :: rest) (key ∈ rest)); [reflexivity|].
      rewrite elem_of_cons. tauto.
  - rewrite IH. destruct (decide (key = k)) as [->|Hne].
    + rewrite Hk. simpl. repeat case_bool_decide; reflexivity.
    + rewrite (bool_decide_ext (key ∈ k :: rest) (key ∈ rest)); [reflexivity|].
      rewrite elem_of_cons. tauto.
Qed.

(** The flag [targetFound] after the steps: a key among them was in the
    map. *)
Lemma adjustStep_domain W value acc key key' :
  is_Some ((adjustStep W value acc key).1 !! key') <-> is_Some (acc.1 !! key').
Proof.
  unfold adjustStep. destruct (acc.1 !! key) as [sessions|] eqn:Hkey; [|reflexivity].
  cbn [fst]. destruct (decide (key' = key)) as [->|Hne].
  - rewrite lookup_insert_eq, Hkey. split; eauto.
  - now rewrite lookup_insert_ne by congruence.
Qed.

Lemma existsb_pointwise {A : Type} (f g : A -> bool) (l : list A) :
  (forall x, f x = g x) -> existsb f l = existsb g l.
Proof. intros Hfg. induction l as [|x l IH]; simpl; [reflexivity|]. now rewrite Hfg, IH. Qed.

Lemma adjustSteps_found W value keys :
  forall acc,
    (foldl (adjustStep W value) acc keys).2.1
    = acc.2.1 || existsb (fun key => bool_decide (is_Some (acc.1 !! key))) keys.
Proof.
  induction keys as [|k rest IH]; intros acc; [simpl; now rewrite orb_false_r|].
  simpl foldl. rewrite IH. simpl existsb.
  rewrite (existsb_pointwise _ (fun key => bool_decide (is_Some (acc.1 !! key))))
    by (intros key; apply bool_decide_ext, adjustStep_domain).
  unfold adjustStep. destruct (acc.1 !! k) as [sessions|] eqn:Hk; cbn [fst snd].
  - rewrite (bool_decide_eq_true_2 (is_Some (Some sessions))) by eauto.
    now rewrite orb_true_r.
  - rewrite (bool_decide_eq_false_2 (is_Some None)) by (intros [? ?]; discriminate).
    reflexivity.
Qed.

(** The flag [adjustmentFailed] after the steps: it stays as it was when
    no call fails, and is set when a session of a key among the steps
    makes its call fail. *)
Lemma adjustSteps_no_failure W value keys :
  (forall session v, SetVolumeFails W session v = false) ->
  forall acc, (foldl (adjustStep W value) acc keys).2.2 = acc.2.2.
Proof.
  intros Hnone. induction keys as [|k rest IH]; intros acc; [reflexivity|].
  simpl foldl. rewrite IH. unfold adjustStep.
  destruct (acc.1 !! k) as [sessions|]; [|reflexivity]. cbn [fst snd].
  replace (existsb (adjustmentFails W value) sessions) with false; [reflexivity|].
  symmetry. apply not_true_iff_false. intros Hex.
  apply existsb_exists in Hex as (session & _ & Hfails).
  unfold adjustmentFails in Hfails. rewrite Hnone, andb_false_r in Hfails. discriminate.
Qed.

Lemma adjustSteps_failed_stays W value keys :
  forall acc, acc.2.2 = true -> (foldl (adjustStep W value) acc keys).2.2 = true.
Proof.
  induction keys as [|k rest IH]; intros acc Hset; [exact Hset|].
  simpl foldl. apply IH. unfold adjustStep.
  destruct (acc.1 !! k) as [sessions|]; [|exact Hset]. cbn [fst snd].
  rewrite Hset. apply orb_true_r.
Qed.

Lemma adjustSteps_failure W value keys :
  forall acc key sessions,
    key ∈ keys -> acc.1 !! key = Some sessions ->
    existsb (adjustmentFails W value) sessions = true ->
    (foldl (adjustStep W value) acc keys).2.2 = true.
Proof.
  induction keys as [|k rest IH]; intros acc key sessions Hin Hkey Hfails;
    [now apply elem_of_nil in Hin|].
  simpl foldl. destruct (decide (key = k)) as [->|Hne].
  - apply adjustSteps_failed_stays. unfold adjustStep. rewrite Hkey. cbn [fst snd].
    now rewrite Hfails.
  - apply elem_of_cons in Hin as [?|Hin]; [contradiction|].
    apply (IH _ key sessions Hin); [|exact Hfails].
    unfold adjustStep. destruct (acc.1 !! k); [|exact Hkey]. cbn [fst].
    now rewrite lookup_insert_ne by congruence.
Qed.

(** [handleSliderMoveEvent] after its reading of the clock. *)
Lemma handleSliderMoveEvent_unfold W cc event (s : SessionMap.t) :
  handleSliderMoveEvent W cc event s
  = ((if lastSessionRefresh s + maxTimeBetweenSessionRefreshes <? timeNow W (clockReadings s)
      then log Debug "Stale session map detected on slider move, refreshing";;
           refreshSessions W cc true
      else mret tt)
     ≫= fun _ : unit =>
          match SliderMapping cc !! SliderID event with
          | None => mret tt
          | Some targets =>
              adjustTargets W (PercentValue event) targets (false, false)
              ≫= fun flags : bool * bool =>
                   if negb flags.1 then refreshSessions W cc false
                   else if flags.2 then refreshSessions W cc true
                   else mret tt
          end) (afterClockReading s).
Proof.
  destruct s as [m0 last0 unmapped0 reads0 queries0 released0 logged0].
  unfold handleSliderMoveEvent, afterClockReading, SliderMap.get.
  cbv beta iota zeta delta
    [gets Now mbind mret M_bind M_ret m lastSessionRefresh unmappedSessions clockReadings
     discoveryQueries released logged fst snd].
  match goal with
  | |- (let (s', o) := ?c in _) = _ => destruct c as [s' [[]|]]; [|reflexivity]
  end.
  destruct (SliderMapping cc !! SliderID event) as [targets|]; [|reflexivity].
  match goal with
  | |- (let (s', o) := ?c in _) = _ => destruct c as [s'' [[found failed]|]]; reflexivity
  end.
Qed.

(** On a map that is not stale, an event for a mapped slider goes
    straight to the targets. *)
Lemma event_on_fresh_map W cc event targets (s : SessionMap.t) :
  notStale W s ->
  SliderMapping cc !! SliderID event = Some targets ->
  handleSliderMoveEvent W cc event s
  = (adjustTargets W (PercentValue event) targets (false, false)
     ≫= fun flags : bool * bool =>
          if negb flags.1 then refreshSessions W cc false
          else if flags.2 then refreshSessions W cc true
          else mret tt) (afterClockReading s).
Proof.
  intros Hfresh Hmapped. rewrite handleSliderMoveEvent_unfold.
  unfold notStale in Hfresh. rewrite Hfresh, Hmapped. reflexivity.
Qed.

(** X14. A slider move on a map that is not stale, for a slider mapped to
    literal targets of which one at least has sessions, when no call of
    [SetVolume] fails: every session of every target, the target read in
    lower case, is set to the value of the event unless it is at that
    value already; the sessions of the other keys stay as they are; and
    nothing else happens but the reading of the clock: no refresh, no
    release, no log entry. *)
Theorem slider_move_sets_the_sessions W cc event targets (s : SessionMap.t) :
  notStale W s ->
  SliderMapping cc !! SliderID event = Some targets ->
  Forall literalTarget targets ->
  (forall session v, SetVolumeFails W session v = false) ->
  (exists target, target ∈ targets /\ is_Some (m s !! ToLower target)) ->
  exists stored,
    handleSliderMoveEvent W cc event s
    = (withRegistry stored (logged s) (afterClockReading s), Some tt)
    /\ forall key,
         stored !! key
         = if bool_decide (key ∈ map ToLower targets)
           then map (adjusted W (PercentValue event)) <$> m s !! key
           else m s !! key.
Proof.
  intros Hfresh Hmapped Hliteral Hnone (target & Hin & Hfound).
  rewrite (event_on_fresh_map W cc event targets s Hfresh Hmapped).
  destruct (adjustTargets_literal W (PercentValue event) targets Hliteral (false, false)
              (afterClockReading s)) as (logs & Hrun & Hlogs).
  specialize (Hlogs Hnone). subst logs.
  unfold mbind, M_bind. rewrite Hrun.
  rewrite adjustSteps_found, (adjustSteps_no_failure W _ _ Hnone). cbn [fst snd].
  replace (existsb _ (map ToLower targets)) with true.
  - cbn [orb negb].
    exists (foldl (adjustStep W (PercentValue event)) (m (afterClockReading s), (false, false))
              (map ToLower targets)).1.
    split; [destruct s; reflexivity|].
    intros key. rewrite adjustSteps_lookup. now destruct s.
  - symmetry. apply existsb_exists. exists (ToLower target). split.
    + apply in_map, list_elem_of_In, Hin.
    + apply bool_decide_eq_true_2. now destruct s.
Qed.

Lemma slider_move_sets_the_sessions_witness :
  notStale chromeWorld exampleRegistry
  /\ SliderMapping sampleConfig !! 1 = Some ["chrome.exe"]
  /\ Forall literalTarget ["chrome.exe"]
  /\ (forall session v, SetVolumeFails chromeWorld session v = false)
  /\ (exists target, target ∈ ["chrome.exe"] /\ is_Some (m exampleRegistry !! ToLower target))
  /\ exists stored,
       handleSliderMoveEvent chromeWorld sampleConfig
         {| SliderID := 1; PercentValue := F32.ofZ 1 |} exampleRegistry
       = (withRegistry stored (logged exampleRegistry) (afterClockReading exampleRegistry),
          Some tt)
       /\ stored !! "chrome.exe"
          = map (adjusted chromeWorld (F32.ofZ 1)) <$> m exampleRegistry !! "chrome.exe".
Proof.
  assert (Hfresh : notStale chromeWorld exampleRegistry) by (vm_compute; reflexivity).
  assert (Hmapped : SliderMapping sampleConfig !! 1 = Some ["chrome.exe"])
    by (vm_compute; reflexivity).
  assert (Hliteral : Forall literalTarget ["chrome.exe"])
    by (repeat constructor).
  assert (Hnone : forall session v, SetVolumeFails chromeWorld session v = false)
    by reflexivity.
  assert (Hfound : exists target,
             target ∈ ["chrome.exe"] /\ is_Some (m exampleRegistry !! ToLower target)).
  { exists "chrome.exe". split; [now left|]. vm_compute. eauto. }
  split; [exact Hfresh|]. split; [exact Hmapped|]. split; [exact Hliteral|].
  split; [exact Hnone|]. split; [exact Hfound|].
  destruct (slider_move_sets_the_sessions chromeWorld sampleConfig
              {| SliderID := 1; PercentValue := F32.ofZ 1 |} ["chrome.exe"] exampleRegistry
              Hfresh Hmapped Hliteral Hnone Hfound) as (stored & Hrun & Hkeys).
  exists stored. split; [exact Hrun|]. exact (Hkeys "chrome.exe").
Defined.

(** X15. A call of [SetVolume] that fails forces a refresh: on a map that is
    not stale, when a session of a literal target of the slider is not at
    the value of the event and its call fails, the event ends with a
    discovery query, whatever the time since the last refresh. *)
Theorem failed_adjustment_forces_refresh W cc event targets target sessions session
    (s : SessionMap.t) :
  notStale W s ->
  SliderMapping cc !! SliderID event = Some targets ->
  Forall literalTarget targets ->
  target ∈ targets ->
  m s !! ToLower target = Some sessions ->
  session ∈ sessions ->
  adjustmentFails W (PercentValue event) session = true ->
  let s' := fst (handleSliderMoveEvent W cc event s) in
  discoveryQueries s' = S (discoveryQueries s)
  /\ lastSessionRefresh s' = timeNow W (S (clockReadings s))
  /\ clockReadings s' = S (S (clockReadings s)).
Proof.
  intros Hfresh Hmapped Hliteral Hin Hfound Hsession Hfails. cbv zeta.
  rewrite (event_on_fresh_map W cc event targets s Hfresh Hmapped).
  destruct (adjustTargets_literal W (PercentValue event) targets Hliteral (false, false)
              (afterClockReading s)) as (logs & Hrun & _).
  unfold mbind, M_bind. rewrite Hrun.
  assert (Hkey : ToLower target ∈ map ToLower targets)
    by (apply list_elem_of_In, in_map, list_elem_of_In, Hin).
  assert (Hstored : (m (afterClockReading s), (false, false)).1 !! ToLower target
                    = Some sessions) by (now destruct s).
  rewrite adjustSteps_found.
  rewrite (adjustSteps_failure W _ _ _ (ToLower target) sessions Hkey Hstored).
  2:{ apply existsb_exists. exists session. split; [now apply list_elem_of_In|exact Hfails]. }
  replace (existsb _ (map ToLower targets)) with true.
  - cbn [fst snd orb negb].
    match goal with
    | |- context [refreshSessions W cc true ?s1] =>
        pose proof (forced_refresh_schedule W cc s1) as (Hqueries & Hlast & Hreads)
    end.
    rewrite Hqueries, Hlast, Hreads. now destruct s.
  - symmetry. apply existsb_exists. exists (ToLower target).
    split; [now apply list_elem_of_In|].
    apply bool_decide_eq_true_2. rewrite Hstored. eauto.
Qed.

Lemma failed_adjustment_forces_refresh_witness :
  notStale refusingWorld exampleRegistry
  /\ SliderMapping sampleConfig !! 0 = Some ["master"]
  /\ Forall literalTarget ["master"]
  /\ "master" ∈ ["master"]
  /\ m exampleRegistry !! ToLower "master" = Some [masterAt80]
  /\ masterAt80 ∈ [masterAt80]
  /\ adjustmentFails refusingWorld (hundredths 50) masterAt80 = true
  /\ discoveryQueries
       (fst (handleSliderMoveEvent refusingWorld sampleConfig
               {| SliderID := 0; PercentValue := hundredths 50 |} exampleRegistry))
     = S (discoveryQueries exampleRegistry).
Proof.
  assert (Hfresh : notStale refusingWorld exampleRegistry) by (vm_compute; reflexivity).
  assert (Hmapped : SliderMapping sampleConfig !! 0 = Some ["master"])
    by (vm_compute; reflexivity).
  assert (Hliteral : Forall literalTarget ["master"]) by (repeat constructor).
  assert (Hin : "master" ∈ ["master"]) by (now left).
  assert (Hfound : m exampleRegistry !! ToLower "master" = Some [masterAt80])
    by (vm_compute; reflexivity).
  assert (Hsession : masterAt80 ∈ [masterAt80]) by (now left).
  assert (Hfails : adjustmentFails refusingWorld (hundredths 50) masterAt80 = true)
    by (vm_compute; reflexivity).
  split; [exact Hfresh|]. split; [exact Hmapped|]. split; [exact Hliteral|].
  split; [exact Hin|]. split; [exact Hfound|]. split; [exact Hsession|].
  split; [exact Hfails|].
  exact (proj1 (failed_adjustment_forces_refresh refusingWorld sampleConfig
                  {| SliderID := 0; PercentValue := hundredths 50 |} ["master"] "master"
                  [masterAt80] masterAt80 exampleRegistry
                  Hfresh Hmapped Hliteral Hin Hfound Hsession Hfails)).
Defined.

(** Literal targets without sessions leave the map and the flags as they
    are. *)
Lemma adjustTargets_absent W value targets :
  Forall literalTarget targets ->
  forall flags (s : SessionMap.t),
    (forall target, target ∈ targets -> m s !! ToLower target = None) ->
    adjustTargets W value targets flags s = (s, Some flags).
Proof.
  induction 1 as [|target rest Hliteral _ IH]; intros flags s Habsent; [reflexivity|].
  simpl adjustTargets. unfold mbind at 1, M_bind at 1.
  rewrite (resolveTarget_literal W target s Hliteral).
  unfold mbind at 1, M_bind at 1. simpl adjustResolved.
  unfold mbind at 1, M_bind at 1. unfold get, gets.
  rewrite (Habsent target) by now left.
  apply IH. intros target' Hin. apply Habsent. now right.
Qed.

(** X16. A slider move that finds no session, on a map that is not stale.
    For a slider without an entry in the mapping nothing happens but the
    reading of the clock. For a slider whose literal targets have no
    session in the map, the event does what a refresh on request does,
    and no more: the value of the event is applied to no session, also
    when the refresh discovers sessions of the targets. *)
Theorem slider_move_without_sessions W cc event (s : SessionMap.t) :
  notStale W s ->
  (SliderMapping cc !! SliderID event = None ->
   handleSliderMoveEvent W cc event s = (afterClockReading s, Some tt))
  /\ (forall targets,
        SliderMapping cc !! SliderID event = Some targets ->
        Forall literalTarget targets ->
        (forall target, target ∈ targets -> m s !! ToLower target = None) ->
        handleSliderMoveEvent W cc event s
        = refreshSessions W cc false (afterClockReading s)).
Proof.
  intros Hfresh. split.
  - intros Hnone. rewrite handleSliderMoveEvent_unfold.
    unfold notStale in Hfresh. rewrite Hfresh, Hnone. reflexivity.
  - intros targets Hmapped Hliteral Habsent.
    rewrite (event_on_fresh_map W cc event targets s Hfresh Hmapped).
    unfold mbind, M_bind.
    rewrite (adjustTargets_absent W _ targets Hliteral);
      [reflexivity|now destruct s].
Qed.

Lemma slider_move_without_sessions_witness :
  notStale chromeWorld exampleRegistry
  /\ SliderMapping sampleConfig !! 7 = None
  /\ handleSliderMoveEvent chromeWorld sampleConfig
       {| SliderID := 7; PercentValue := hundredths 50 |} exampleRegistry
     = (afterClockReading exampleRegistry, Some tt).
Proof.
  assert (Hfresh : notStale chromeWorld exampleRegistry) by (vm_compute; reflexivity).
  assert (Hnone : SliderMapping sampleConfig !! 7 = None) by (vm_compute; reflexivity).
  split; [exact Hfresh|]. split; [exact Hnone|].
  exact (proj1 (slider_move_without_sessions chromeWorld sampleConfig
                  {| SliderID := 7; PercentValue := hundredths 50 |} exampleRegistry Hfresh)
           Hnone).
Defined.

(** ** The discovery queries of a slider move *)

Lemma keeps_adjustSessions W value sessions : keepsSchedule (adjustSessions W value sessions).
Proof.
  induction sessions as [|session rest IH]; simpl; [auto with schedule|].
  apply keeps_bind.
  - destruct (fne _ _); [destruct (SetVolumeFails _ _ _)|]; auto with schedule.
    apply keeps_bind; auto with schedule.
  - intros [session' failed]. apply keeps_bind; [exact IH|].
    intros [rest' failed']. auto with schedule.
Qed.

Lemma keeps_adjustResolved W value resolvedTargets :
  forall flags, keepsSchedule (adjustResolved W value resolvedTargets flags).
Proof.
  induction resolvedTargets as [|resolvedTarget rest IH]; intros flags; simpl;
    [auto with schedule|].
  apply keeps_bind; [unfold get; auto with schedule|].
  intros [sessions|]; [|apply IH].
  apply keeps_bind; [apply keeps_adjustSessions|]. intros [sessions' failed].
  apply keeps_bind; [auto with schedule|]. intros stored.
  apply keeps_bind; [auto with schedule|]. intros _. apply IH.
Qed.

Lemma keeps_adjustTargets W value targets :
  forall flags, keepsSchedule (adjustTargets W value targets flags).
Proof.
  induction targets as [|target rest IH]; intros flags; simpl; [auto with schedule|].
  apply keeps_bind; [apply keeps_resolveTarget|]. intros resolvedTargets.
  apply keeps_bind; [apply keeps_adjustResolved|]. intros flags'. apply IH.
Qed.

(** Bounds on the queries, and how they add up. *)
Lemma between_keeps {A : Type} (c : M A) (most : nat) :
  keepsSchedule c -> queriesBetween 0 most c.
Proof. intros Hc s. destruct (Hc s) as (-> & _). lia. Qed.

Lemma between_bind {A B : Type} (least most most' : nat) (c : M A) (k : A -> M B) :
  queriesBetween least most c ->
  (forall x, queriesBetween 0 most' (k x)) ->
  queriesBetween least (most + most') (c ≫= k).
Proof.
  intros Hc Hk s. unfold mbind, M_bind.
  specialize (Hc s). destruct (c s) as [s' [x|]]; cbn in *.
  - specialize (Hk x s'). lia.
  - lia.
Qed.

(** A computation after a log entry. *)
Lemma log_then {A : Type} level message (c : M A) (s : SessionMap.t) :
  (log level message;; c) s = c (fst (log level message s)).
Proof. now destruct s. Qed.

Lemma between_log {A : Type} (least most : nat) level message (c : M A) :
  queriesBetween least most c -> queriesBetween least most (log level message;; c).
Proof.
  intros Hc s. rewrite log_then. specialize (Hc (fst (log level message s))).
  destruct (keeps_log level message s) as (Hsame & _). rewrite Hsame in Hc. exact Hc.
Qed.

Lemma between_forced_refresh W cc : queriesBetween 1 1 (refreshSessions W cc true).
Proof. intros s. destruct (forced_refresh_schedule W cc s) as (-> & _). lia. Qed.

Lemma between_refreshSessions W cc force : queriesBetween 0 1 (refreshSessions W cc force).
Proof.
  intros s. destruct force.
  - destruct (forced_refresh_schedule W cc s) as (-> & _). lia.
  - destruct (timeNow W (clockReadings s)
              <? lastSessionRefresh s + minTimeBetweenSessionRefreshes) eqn:Hguard.
    + rewrite (early_refresh_is_skipped W cc s Hguard). destruct s. cbn. lia.
    + destruct (due_refresh_schedule W cc s Hguard) as (-> & _). lia.
Qed.

(** What follows the reading of the clock in [handleSliderMoveEvent], once
    the map is known not to be stale or has been refreshed. *)
Lemma between_event_targets W cc event :
  queriesBetween 0 1
    (match SliderMapping cc !! SliderID event with
     | None => mret tt
     | Some targets =>
         adjustTargets W (PercentValue event) targets (false, false)
         ≫= fun flags : bool * bool =>
              if negb flags.1 then refreshSessions W cc false
              else if flags.2 then refreshSessions W cc true
              else mret tt
     end : M unit).
Proof.
  destruct (SliderMapping cc !! SliderID event) as [targets|];
    [|apply between_keeps, keeps_ret].
  apply (between_bind 0 0 1); [apply between_keeps, keeps_adjustTargets|].
  intros [found failed]. cbn [fst snd].
  destruct (negb found); [apply between_refreshSessions|].
  destruct failed; [apply between_refreshSessions|apply between_keeps, keeps_ret].
Qed.

(** X17. A slider move makes at most two discovery queries, whatever the
    mapping, the map and the world: at most one when the map is not stale,
    and at least one when it is stale, that is when more than 45 seconds
    have passed since the last refresh. *)
Theorem slider_move_queries W cc event (s : SessionMap.t) :
  let s' := fst (handleSliderMoveEvent W cc event s) in
  (discoveryQueries s <= discoveryQueries s' <= discoveryQueries s + 2)%nat
  /\ (notStale W s -> (discoveryQueries s' <= discoveryQueries s + 1)%nat)
  /\ (lastSessionRefresh s + maxTimeBetweenSessionRefreshes < timeNow W (clockReadings s) ->
      (discoveryQueries s + 1 <= discoveryQueries s')%nat).
Proof.
  cbv zeta. rewrite handleSliderMoveEvent_unfold.
  assert (Hclock : discoveryQueries (afterClockReading s) = discoveryQueries s)
    by now destruct s.
  unfold notStale.
  destruct (lastSessionRefresh s + maxTimeBetweenSessionRefreshes
            <? timeNow W (clockReadings s)) eqn:Hstale.
  - pose proof (between_bind 1 1 1 _ _
                  (between_log 1 1 Debug "Stale session map detected on slider move, refreshing"
                     _ (between_forced_refresh W cc))
                  (fun _ : unit => between_event_targets W cc event)
                  (afterClockReading s)) as Hrun.
    rewrite Hclock in Hrun.
    split; [lia|]. split; [discriminate|lia].
  - pose proof (between_bind 0 0 1 _ _ (between_keeps _ 0 (keeps_ret tt))
                  (fun _ : unit => between_event_targets W cc event)
                  (afterClockReading s)) as Hrun.
    rewrite Hclock in Hrun. apply Z.ltb_ge in Hstale.
    split; [lia|]. split; [lia|lia].
Qed.

Lemma slider_move_queries_witness :
  notStale chromeWorld exampleRegistry
  /\ (discoveryQueries
        (fst (handleSliderMoveEvent chromeWorld sampleConfig
                {| SliderID := 0; PercentValue := hundredths 50 |} exampleRegistry))
      <= discoveryQueries exampleRegistry + 1)%nat.
Proof.
  assert (Hfresh : notStale chromeWorld exampleRegistry) by (vm_compute; reflexivity).
  split; [exact Hfresh|].
  exact (proj1 (proj2 (slider_move_queries chromeWorld sampleConfig
                         {| SliderID := 0; PercentValue := hundredths 50 |} exampleRegistry))
           Hfresh).
Defined.

(** ** The special targets *)

(** A target that reads [deej.unmapped] in lower case resolves to the keys
    of the unmapped sessions. *)
Lemma resolveTarget_unmapped W target (s : SessionMap.t) :
  ToLower target = "deej.unmapped" ->
  resolveTarget W target s = (s, Some (map Key (unmappedSessions s))).
Proof. intros Hname. unfold resolveTarget. rewrite Hname. reflexivity. Qed.

(** X18. A slider mapped to [deej.unmapped], in any case of the letters, on
    a map that is not stale and with an unmapped session in the map, when
    no call of [SetVolume] fails: every session filed under the key of an
    unmapped session is set to the value of the event unless it is at that
    value already, the other sessions stay as they are, and nothing else
    happens but the reading of the clock. *)
Theorem unmapped_slider_sets_the_unmapped_sessions W cc event target (s : SessionMap.t) :
  notStale W s ->
  SliderMapping cc !! SliderID event = Some [target] ->
  ToLower target = "deej.unmapped" ->
  (forall session v, SetVolumeFails W session v = false) ->
  (exists session, session ∈ unmappedSessions s /\ is_Some (m s !! Key session)) ->
  exists stored,
    handleSliderMoveEvent W cc event s
    = (withRegistry stored (logged s) (afterClockReading s), Some tt)
    /\ forall key,
         stored !! key
         = if bool_decide (key ∈ map Key (unmappedSessions s))
           then map (adjusted W (PercentValue event)) <$> m s !! key
           else m s !! key.
Proof.
  intros Hfresh Hmapped Hname Hnone (session & Hin & Hfound).
  rewrite (event_on_fresh_map W cc event [target] s Hfresh Hmapped).
  destruct (adjustTargets_resolved W (PercentValue event)
              (fun _ => map Key (unmappedSessions s)) [target] (afterClockReading s))
    with (flags := (false, false)) (stored := m s) (logs := logged s)
    as (logs & Hrun & Hlogs).
  { intros target' Hin' stored logs. apply list_elem_of_singleton in Hin' as ->.
    rewrite (resolveTarget_unmapped W target _ Hname). now destruct s. }
  specialize (Hlogs Hnone). subst logs.
  replace (withRegistry (m s) (logged s) (afterClockReading s)) with (afterClockReading s)
    in Hrun by now destruct s.
  replace (concat (map (fun _ : string => map Key (unmappedSessions s)) [target]))
    with (map Key (unmappedSessions s)) in Hrun by (simpl; now rewrite app_nil_r).
  unfold mbind, M_bind. rewrite Hrun.
  rewrite adjustSteps_found, (adjustSteps_no_failure W _ _ Hnone). cbn [fst snd].
  replace (existsb _ (map Key (unmappedSessions s))) with true.
  - cbn [orb negb]. eexists. split; [reflexivity|].
    intros key. apply adjustSteps_lookup.
  - symmetry. apply existsb_exists. exists (Key session). split.
    + apply in_map, list_elem_of_In, Hin.
    + now apply bool_decide_eq_true_2.
Qed.

Lemma unmapped_slider_sets_the_unmapped_sessions_witness :
  notStale chromeWorld unmappedRegistry
  /\ SliderMapping lowercaseConfig !! 1 = Some ["deej.unmapped"]
  /\ ToLower "deej.unmapped" = "deej.unmapped"
  /\ (forall session v, SetVolumeFails chromeWorld session v = false)
  /\ (exists session,
        session ∈ unmappedSessions unmappedRegistry
        /\ is_Some (m unmappedRegistry !! Key session))
  /\ exists stored,
       handleSliderMoveEvent chromeWorld lowercaseConfig
         {| SliderID := 1; PercentValue := hundredths 50 |} unmappedRegistry
       = (withRegistry stored (logged unmappedRegistry) (afterClockReading unmappedRegistry),
          Some tt)
       /\ stored !! "master" = m unmappedRegistry !! "master".
Proof.
  assert (Hfresh : notStale chromeWorld unmappedRegistry) by (vm_compute; reflexivity).
  assert (Hmapped : SliderMapping lowercaseConfig !! 1 = Some ["deej.unmapped"])
    by (vm_compute; reflexivity).
  assert (Hname : ToLower "deej.unmapped" = "deej.unmapped") by reflexivity.
  assert (Hnone : forall session v, SetVolumeFails chromeWorld session v = false)
    by reflexivity.
  assert (Hfound : exists session,
             session ∈ unmappedSessions unmappedRegistry
             /\ is_Some (m unmappedRegistry !! Key session)).
  { exists chromeAt30. split; [now left|]. vm_compute. eauto. }
  split; [exact Hfresh|]. split; [exact Hmapped|]. split; [exact Hname|].
  split; [exact Hnone|]. split; [exact Hfound|].
  destruct (unmapped_slider_sets_the_unmapped_sessions chromeWorld lowercaseConfig
              {| SliderID := 1; PercentValue := hundredths 50 |} "deej.unmapped"
              unmappedRegistry Hfresh Hmapped Hname Hnone Hfound) as (stored & Hrun & Hkeys).
  exists stored. split; [exact Hrun|]. exact (Hkeys "master").
Defined.

(** [funk.UniqString]: each string once. *)
Lemma UniqStringFrom_spec (l : list string) :
  forall seen,
    NoDup (UniqStringFrom seen l)
    /\ forall v, v ∈ UniqStringFrom seen l <-> v ∈ l /\ v ∉ seen.
Proof.
  induction l as [|x rest IH]; intros seen.
  - split; [constructor|]. intros v. split; [intros H; now apply elem_of_nil in H|].
    intros [H _]. now apply elem_of_nil in H.
  - simpl. destruct (ContainsString seen x) eqn:Hseen.
    + apply ContainsString_spec in Hseen. destruct (IH seen) as [Hnodup Hspec].
      split; [exact Hnodup|]. intros v. rewrite Hspec, elem_of_cons.
      split; [tauto|]. intros [[->|Hin] Hnew]; [contradiction|tauto].
    + assert (Hnew : x ∉ seen).
      { intros Hin. apply ContainsString_spec in Hin. congruence. }
      destruct (IH (x :: seen)) as [Hnodup Hspec]. split.
      * constructor; [|exact Hnodup]. rewrite Hspec, elem_of_cons. tauto.
      * intros v. rewrite !elem_of_cons, Hspec, elem_of_cons.
        destruct (decide (v = x)) as [->|Hne]; [tauto|]. tauto.
Qed.

(** X19. A target that reads [deej.current] in lower case resolves to the
    names of the processes of the foreground window, each lowercased and
    listed once, and changes nothing in the map; when the names cannot be
    obtained it resolves to no key at all and a warning is logged. *)
Theorem current_window_resolution W target (s : SessionMap.t) :
  ToLower target = "deej.current" ->
  match GetCurrentWindowProcessNames W with
  | Some names =>
      exists keys,
        resolveTarget W target s = (s, Some keys)
        /\ NoDup keys
        /\ forall key, key ∈ keys <-> exists name, name ∈ names /\ key = ToLower name
  | None =>
      resolveTarget W target s
      = (withRegistry (m s)
           (logged s ++ [(Warn, "Failed to get current window process names")]) s,
         Some [])
  end.
Proof.
  intros Hname. unfold resolveTarget. rewrite Hname.
  change (targetHasSpecialTransform "deej.current") with true. cbv iota.
  change (TrimPrefix "deej.current" specialTargetTransformPrefix) with "current".
  unfold applyTargetTransform.
  change (String.eqb "current" specialTargetCurrentWindow) with true. cbv iota.
  unfold getCurrentWindowProcessNames.
  destruct (GetCurrentWindowProcessNames W) as [names|].
  - exists (UniqString (map ToLower names)). split; [reflexivity|].
    destruct (UniqStringFrom_spec (map ToLower names) []) as [Hnodup Hspec].
    split; [exact Hnodup|]. intros key. unfold UniqString. rewrite Hspec.
    rewrite list_elem_of_fmap. split.
    + intros [(name & -> & Hin) _]. now exists name.
    + intros (name & Hin & ->). split; [now exists name|apply not_elem_of_nil].
  - destruct s. reflexivity.
Qed.

Lemma current_window_resolution_witness :
  ToLower "Deej.Current" = "deej.current"
  /\ exists keys,
       resolveTarget foregroundWorld "Deej.Current" newSessionMap = (newSessionMap, Some keys)
       /\ NoDup keys.
Proof.
  assert (Hname : ToLower "Deej.Current" = "deej.current") by reflexivity.
  split; [exact Hname|].
  destruct (current_window_resolution foregroundWorld "Deej.Current" newSessionMap Hname)
    as (keys & Hrun & Hnodup & _).
  exists keys. now split.
Defined.

(* ===================================================================== *)
(** * Properties of the volume on the wire *)
(* ===================================================================== *)

(** The levels written, and their sum on [uint32]. *)
Lemma createChannelVolumes_level channels volume level :
  uint32OfF32 (mulF32 volume (F32.ofZ maxVolume)) = Some level ->
  createChannelVolumes channels volume = Some (replicate channels level).
Proof.
  intros Hlevel. unfold createChannelVolumes. rewrite Hlevel.
  induction channels as [|n IH]; [reflexivity|].
  cbn [replicate mapM mbind option_bind]. rewrite IH. reflexivity.
Qed.

Lemma sum_of_levels (n : nat) (level : Z) :
  forall total,
    fold_left (fun total volume => (total + volume) mod 2 ^ 32) (replicate n level)
              (total mod 2 ^ 32)
    = (total + Z.of_nat n * level) mod 2 ^ 32.
Proof.
  induction n as [|n IH]; intros total.
  - simpl. f_equal. lia.
  - cbn [replicate fold_left]. rewrite (IH (total mod 2 ^ 32 + level)).
    rewrite <- Z.add_assoc, Zplus_mod_idemp_l. f_equal. lia.
Qed.

Lemma parseChannelVolumes_levels (n : nat) (level : Z) :
  parseChannelVolumes (replicate n level)
  = F32.div (F32.div (F32.ofZ ((Z.of_nat n * level) mod 2 ^ 32)) (F32.ofZ (Z.of_nat n)))
            (F32.ofZ maxVolume).
Proof.
  unfold parseChannelVolumes. rewrite length_replicate.
  change 0 with (0 mod 2 ^ 32) at 1. now rewrite sum_of_levels.
Qed.

(** The hundredths, each checked by evaluation. *)
Lemma readCheck_all : forallb readCheck (map Z.of_nat (seq 0 101)) = true.
Proof. vm_cast_no_check (eq_refl true). Qed.

(** X20. The value of a slider, written to a PulseAudio session of one to
    eight channels and read back: the write sends the same level on every
    channel, and the read gives a value that does not depend on the number
    of channels, is not above the value written and less than 1/65536
    below it, and differs from it unless the hundredth is 0, 25, 50, 75 or
    100. Cut to two decimals, the value read back is one hundredth below
    the value written, again unless the hundredth is one of these five.
    Without channels the levels are none and their mean is not a number. *)
Theorem volume_read_back (channels : nat) (k : Z) :
  (1 <= channels <= 8)%nat ->
  0 <= k <= 100 ->
  exists level back,
    createChannelVolumes channels (hundredths k) = Some (replicate channels level)
    /\ parseChannelVolumes (replicate channels level) = back
    /\ back = F32.div (F32.ofZ level) (F32.ofZ maxVolume)
    /\ fle back (hundredths k) = true
    /\ flt (F32.sub (hundredths k) back) (F32.lit 1 65536) = true
    /\ fne back (hundredths k) = negb (k mod 25 =? 0)
    /\ NormalizeScalar back = hundredths (if k mod 25 =? 0 then k else k - 1)
    /\ createChannelVolumes 0 (hundredths k) = Some []
    /\ parseChannelVolumes [] = S754_nan.
Proof.
  intros Hchannels Hk.
  pose proof (forallb_Z_range readCheck 101 readCheck_all k ltac:(lia)) as Hread.
  unfold readCheck in Hread. cbv zeta in Hread.
  destruct (uint32OfF32 (mulF32 (hundredths k) (F32.ofZ maxVolume))) as [level|] eqn:Hlevel;
    [|discriminate].
  apply andb_prop in Hread as [Hread Hmean].
  apply andb_prop in Hread as [Hread Hnormal].
  apply andb_prop in Hread as [Hread Hdiffers].
  apply andb_prop in Hread as [Hbelow Hnear].
  apply Bool.eqb_prop in Hdiffers. apply sf_same_eq in Hnormal.
  assert (Hsame : F32.div (F32.ofZ ((Z.of_nat channels * level) mod 2 ^ 32))
                          (F32.ofZ (Z.of_nat channels)) = F32.ofZ level).
  { rewrite forallb_forall in Hmean. apply sf_same_eq.
    apply (Hmean (Z.of_nat channels)). apply in_map, in_seq. lia. }
  exists level, (F32.div (F32.ofZ level) (F32.ofZ maxVolume)).
  split; [now apply createChannelVolumes_level|].
  split; [now rewrite parseChannelVolumes_levels, Hsame|].
  split; [reflexivity|]. split; [exact Hbelow|]. split; [exact Hnear|].
  split; [exact Hdiffers|]. split; [exact Hnormal|]. split; reflexivity.
Qed.

Lemma volume_read_back_witness :
  (1 <= 2 <= 8)%nat
  /\ 0 <= 37 <= 100
  /\ exists level back,
       createChannelVolumes 2 (hundredths 37) = Some [level; level]
       /\ parseChannelVolumes [level; level] = back
       /\ NormalizeScalar back = hundredths 36.
Proof.
  split; [lia|]. split; [lia|].
  destruct (volume_read_back 2 37 ltac:(lia) ltac:(lia))
    as (level & back & Hwrite & Hread & _ & _ & _ & _ & Hnormal & _).
  exists level, back. split; [exact Hwrite|]. split; [exact Hread|]. exact Hnormal.
Defined.

(* ===================================================================== *)
(** * Properties of the finder of PulseAudio *)
(* ===================================================================== *)

(** The sink inputs are appended in their order. *)
Lemma processSessions_cons (info : sinkInputInfo) (rest : list sinkInputInfo) :
  processSessions (info :: rest)
  = match processBinary info with
    | Some binary =>
        ProcessSession (newPASession (SinkInputIndex info) (Channels info) binary)
        :: processSessions rest
    | None => processSessions rest
    end.
Proof. unfold processSessions. cbn [omap list_omap]. now destruct (processBinary info). Qed.

Lemma addSinkInputs_appends (infos : list sinkInputInfo) :
  forall sessions, addSinkInputs sessions infos = sessions ++ processSessions infos.
Proof.
  induction infos as [|info rest IH]; intros sessions; [now rewrite app_nil_r|].
  cbn [addSinkInputs]. rewrite processSessions_cons.
  destruct (processBinary info) as [binary|]; [|apply IH].
  rewrite IH, <- app_assoc. reflexivity.
Qed.

Lemma processSessions_keys (infos : list sinkInputInfo) :
  map pulseKey (processSessions infos)
  = omap (fun info => ToLower <$> processBinary info) infos.
Proof.
  induction infos as [|info rest IH]; [reflexivity|].
  rewrite processSessions_cons. cbn [omap list_omap].
  destruct (processBinary info) as [binary|]; [|exact IH].
  cbn [map fmap option_fmap option_map]. now rewrite IH.
Qed.

(** The finder reports no error exactly when its three requests
    succeed. *)
Lemma pulse_discovery_errors (sinkFails sourceFails : bool)
    (inputs : option (list sinkInputInfo)) :
  (paGetAllSessions sinkFails sourceFails inputs).2 = 0%nat
  <-> sinkFails = false /\ sourceFails = false /\ is_Some inputs.
Proof.
  unfold paGetAllSessions, getMasterSession, enumerateAndAddSessions.
  destruct sinkFails, sourceFails, inputs as [infos|]; cbn [fst snd];
    (split; [try discriminate; intros _; repeat split; eauto
            |intros (? & ? & Hsome); try discriminate; try reflexivity;
             now destruct Hsome]).
Qed.

(** X21. What the finder of PulseAudio returns, from the answers to its
    three requests: the master sink, then the master source, then a
    session for every sink input that names its process, in the order of
    the list; a request that fails leaves its sessions out and makes the
    result an error, the sessions of the other requests being returned all
    the same. The keys are [master], [mic] and the names of the processes
    in lower case. *)
Theorem pulse_discovery_lists_sessions (sinkFails sourceFails : bool)
    (inputs : option (list sinkInputInfo)) :
  let sessions := (paGetAllSessions sinkFails sourceFails inputs).1 in
  let errors := (paGetAllSessions sinkFails sourceFails inputs).2 in
  (errors = 0%nat <-> sinkFails = false /\ sourceFails = false /\ is_Some inputs)
  /\ sessions
     = (if sinkFails then [] else [MasterSession (newMasterSession 0 0 true)])
       ++ (if sourceFails then [] else [MasterSession (newMasterSession 0 0 false)])
       ++ processSessions (default [] inputs)
  /\ map pulseKey sessions
     = (if sinkFails then [] else ["master"])
       ++ (if sourceFails then [] else ["mic"])
       ++ omap (fun info => ToLower <$> processBinary info) (default [] inputs).
Proof.
  cbv zeta.
  split; [apply pulse_discovery_errors|].
  unfold paGetAllSessions, getMasterSession, enumerateAndAddSessions.
  destruct sinkFails, sourceFails, inputs as [infos|]; cbn [fst snd default];
    rewrite ?addSinkInputs_appends; cbn [app];
    (split; [reflexivity|]); cbn [map app]; rewrite ?processSessions_keys; reflexivity.
Qed.

(** X22. The master sessions the finder builds have no channel, since the
    number of channels is read off the reply by a placeholder that returns
    zero: whatever the server reports, their volume reads as zero, and a
    write sends no level at all. Their keys are [master] for the sink and
    [mic] for the source. *)
Theorem master_session_has_no_channel (isSink : bool) (s : masterSession) :
  getMasterSession false isSink = Some s ->
  (forall reply, getVolumeFromClient reply (streamChannels s) = F32.ofZ 0)
  /\ (forall v, volumesToSend (streamChannels s) v = Some [])
  /\ baseKey (masterBase s) = (if isSink then "master" else "mic").
Proof.
  intros [= <-]. split; [|split].
  - intros reply. reflexivity.
  - intros v. reflexivity.
  - now destruct isSink.
Qed.

Lemma master_session_has_no_channel_witness :
  getMasterSession false true = Some (newMasterSession 0 0 true)
  /\ getVolumeFromClient (Some [maxVolume; maxVolume])
       (streamChannels (newMasterSession 0 0 true)) = F32.ofZ 0
  /\ volumesToSend (streamChannels (newMasterSession 0 0 true)) (hundredths 50) = Some [].
Proof.
  assert (Hfound : getMasterSession false true = Some (newMasterSession 0 0 true))
    by reflexivity.
  split; [exact Hfound|].
  destruct (master_session_has_no_channel true _ Hfound) as (Hread & Hwrite & _).
  split; [exact (Hread (Some [maxVolume; maxVolume]))|exact (Hwrite (hundredths 50))].
Defined.

(** X23. The discovery of PulseAudio is all or nothing for the session map:
    when one of the three requests of the finder fails, populating the map
    from its answer ends with an error and registers no session, not even
    those of the requests that succeeded. *)
Theorem pulse_discovery_is_all_or_nothing W cc volumesOf sinkFails sourceFails inputs
    (s : SessionMap.t) :
  GetAllSessions W (discoveryQueries s) = pulseAnswer volumesOf sinkFails sourceFails inputs ->
  sinkFails = true \/ sourceFails = true \/ inputs = None ->
  snd (getAndAddSessions W cc s) = Some true
  /\ m (fst (getAndAddSessions W cc s)) = m s
  /\ unmappedSessions (fst (getAndAddSessions W cc s)) = [].
Proof.
  intros Hanswer Hfails.
  assert (Hnone : pulseAnswer volumesOf sinkFails sourceFails inputs = None).
  { unfold pulseAnswer.
    pose proof (pulse_discovery_errors sinkFails sourceFails inputs) as Herrors.
    destruct (paGetAllSessions sinkFails sourceFails inputs) as [sessions [|errors]];
      [|reflexivity].
    exfalso. cbn [snd] in Herrors. destruct Herrors as [Hall _]. specialize (Hall eq_refl).
    destruct Hall as (-> & -> & Hsome).
    destruct Hfails as [Hfail|[Hfail|Hfail]]; try discriminate.
    rewrite Hfail in Hsome. now destruct Hsome. }
  rewrite Hnone in Hanswer.
  destruct s as [m0 last0 unmapped0 reads0 queries0 released0 logged0].
  cbn in Hanswer. run_map. rewrite Hanswer. now cbn.
Qed.

Lemma pulse_discovery_is_all_or_nothing_witness :
  GetAllSessions sourcelessWorld (discoveryQueries newSessionMap)
  = pulseAnswer fullLevels false true (Some [firefoxInput])
  /\ (false = true \/ true = true \/ Some [firefoxInput] = None)
  /\ m (fst (getAndAddSessions sourcelessWorld sampleConfig newSessionMap)) = m newSessionMap.
Proof.
  assert (Hanswer : GetAllSessions sourcelessWorld (discoveryQueries newSessionMap)
                    = pulseAnswer fullLevels false true (Some [firefoxInput])) by reflexivity.
  assert (Hfails : false = true \/ true = true \/ Some [firefoxInput] = None)
    by (right; left; reflexivity).
  split; [exact Hanswer|]. split; [exact Hfails|].
  exact (proj1 (proj2 (pulse_discovery_is_all_or_nothing sourcelessWorld sampleConfig
                         fullLevels false true (Some [firefoxInput]) newSessionMap
                         Hanswer Hfails))).
Defined.
